(** * espnet: minibatch planning and the gradient-update control loop

    A shallow embedding of
    - [espnet/tts/tts_utils.py]            ([make_batchset],
      [make_args_batchset], [get_dimensions], [get_plot_report_keys],
      [add_progress_report], [prepare_trainer]),
    - [espnet/nets/chainer_backend/e2e_asr.py] ([E2E.__init__],
      [E2E.__call__], [E2E.recognize]),
    - [espnet/asr/chainer_backend/asr.py]  ([sum_sqnorm],
      [CustomUpdater.update_core], [CustomParallelUpdater.update_core],
      [CustomConverter.__call__], the device set-up and the multi-GPU part of
      [train], the [char_dict] of [recog]),
    together with the properties the specification states about them and
    further properties read off the code. *)

From Stdlib Require Import ZArith List String Bool Lia Permutation Sorted.
From Stdlib Require Import QArith.
From Stdlib Require Import Ascii DecimalString DecimalNat.
Import ListNotations.

Local Open Scope string_scope.
Local Open Scope list_scope.
Local Open Scope Z_scope.

(* ===================================================================== *)
(** * Python run-time notions shared by the three files *)
(* ===================================================================== *)

Module Py.

(** The exceptions that the modelled code can raise. *)
Inductive exn : Type :=
  | ValueError (msg : string)
  | ZeroDivisionError
  | IndexError
  | AssertionError
  | TypeError
  | AttributeError.

(** What running a piece of code yields: a value, a raised exception, or
    (for the [while True] loop, which is run on fuel) no answer within the
    given number of iterations. *)
Inductive outcome (A : Type) : Type :=
  | Returns (a : A)
  | Raises (e : exn)
  | OutOfFuel.

Arguments Returns {A} a.
Arguments Raises {A} e.
Arguments OutOfFuel {A}.

Definition bind {A B : Type} (m : outcome A) (k : A -> outcome B) : outcome B :=
  match m with
  | Returns a => k a
  | Raises e => Raises e
  | OutOfFuel => OutOfFuel
  end.

Notation "x <- m ;; k" := (bind m (fun x => k))
  (at level 61, m at next level, right associativity).
Notation "' p <- m ;; k" := (bind m (fun p => k))
  (at level 61, p pattern, m at next level, right associativity).

(** [f] applied to every element, left to right, stopping at the first
    exception (a list comprehension whose body may raise). *)
Fixpoint mapM {A B : Type} (f : A -> outcome B) (l : list A) : outcome (list B) :=
  match l with
  | [] => Returns []
  | x :: l' => y <- f x ;; ys <- mapM f l' ;; Returns (y :: ys)
  end.

Definition len {A : Type} (l : list A) : Z := Z.of_nat (List.length l).

(** Python's normalisation of a slice bound: a negative bound counts from
    the end, and the result is clamped to [0, len]. *)
Definition slice_bound (n i : Z) : Z :=
  if i <? 0 then Z.max 0 (i + n) else Z.min i n.

(** [l[lo:hi]] *)
Definition slice {A : Type} (l : list A) (lo hi : Z) : list A :=
  let lo' := slice_bound (len l) lo in
  let hi' := slice_bound (len l) hi in
  firstn (Z.to_nat (hi' - lo')) (skipn (Z.to_nat lo') l).

(** [l[i]]: a negative index counts from the end; out of range raises. *)
Definition getitem {A : Type} (l : list A) (i : Z) : outcome A :=
  let j := if i <? 0 then i + len l else i in
  if j <? 0 then Raises IndexError
  else match nth_error l (Z.to_nat j) with
       | Some x => Returns x
       | None => Raises IndexError
       end.

(** [int(a / b)] on integers: true division followed by truncation toward
    zero.  The float quotient is exact enough for this whenever [|a| < 2^53],
    far above any utterance length; a zero divisor raises.  (Under Python 2,
    where [/] on integers is floor division, the result is the same for
    [0 <= a] and [0 < b], the case the statements below are about.) *)
Definition int_truediv (a b : Z) : outcome Z :=
  if b =? 0 then Raises ZeroDivisionError else Returns (Z.quot a b).

(** ** [sorted(l, key=..., reverse=...)]

    Python's sort is stable.  With [reverse=True] the list is reversed,
    sorted stably in ascending order and reversed again, so that elements
    with equal keys keep their original order there too. *)
Section Sorted.
Context {A : Type} (key : A -> Z).

Fixpoint insert_asc (x : A) (l : list A) : list A :=
  match l with
  | [] => [x]
  | y :: l' => if key x <=? key y then x :: y :: l' else y :: insert_asc x l'
  end.

Fixpoint sort_asc (l : list A) : list A :=
  match l with
  | [] => []
  | x :: l' => insert_asc x (sort_asc l')
  end.

Definition sorted (l : list A) (reverse : bool) : list A :=
  if reverse then rev (sort_asc (rev l)) else sort_asc l.
End Sorted.

(** ** The random sources

  [random] and [numpy.random] are modelled by a tape of raw draws that is
  consumed from the front.  Every outcome the library calls can produce is
  produced by some tape. *)
Definition Rng : Type := nat -> Z.

Definition rng_take (n : nat) (r : Rng) : list Z := map r (seq 0 n).
Definition rng_drop (n : nat) (r : Rng) : Rng := fun i => r (n + i)%nat.

(** The element at position [j] and the list without it. *)
Fixpoint pick {A : Type} (j : nat) (l : list A) : option (A * list A) :=
  match l with
  | [] => None
  | x :: l' =>
      match j with
      | O => Some (x, l')
      | S j' => match pick j' l' with
                | Some (y, rest) => Some (y, x :: rest)
                | None => None
                end
      end
  end.

(** [random.sample(population, k)]: [k] draws without replacement. *)
Fixpoint random_sample {A : Type} (k : nat) (pool : list A) (r : Rng) : list A :=
  match k with
  | O => []
  | S k' =>
      match pick (Z.to_nat (r 0%nat mod len pool)) pool with
      | Some (x, rest) => x :: random_sample k' rest (rng_drop 1 r)
      | None => []
      end
  end.

(** [numpy.random.randint(low, high, size)]: [size] integers from
  [low, high); an empty range is a [ValueError]. *)
Definition randint (low high size : Z) (r : Rng) : outcome (list Z * Rng) :=
  if high <=? low then Raises (ValueError "low >= high")
  else if size <? 0 then Raises (ValueError "negative dimensions are not allowed")
  else
    let n := Z.to_nat size in
    Returns (map (fun x => low + x mod (high - low)) (rng_take n r), rng_drop n r).

End Py.

Import Py.

(* ===================================================================== *)
(** * espnet/tts/tts_utils.py *)
(* ===================================================================== *)

Module TtsUtils.

(** One record of [data.json], restricted to the two fields
  [make_batchset] reads: [rec['input'][0]['shape'][0]] and
  [rec['output'][0]['shape'][0]]. *)
Record UttInfo : Type := mkUtt {
  input_shape0 : Z;
  output_shape0 : Z
  }.

(** An element of [data.items()]: utterance id and record.  The dictionary
  itself is the list of its items in iteration order, the ids distinct. *)
Definition Item : Type := (string * UttInfo)%type.

Definition utt_id (it : Item) : string := fst it.

Section MakeBatchset.
Variables (batch_size max_length_in max_length_out : Z).
Variable batch_sort_key : string.
Variable min_batch_size : Z.
Variable shortest_first : bool.

(** Lines 37-53: the ordering of the corpus.  Key ['input'] sorts by the
  record's [output] shape and key ['output'] by its [input] shape. *)
Definition sort_data (data : list Item) (r : Rng) : outcome (list Item * Rng) :=
  if String.eqb batch_sort_key "shuffle" then
    Returns (random_sample (List.length data) data r, rng_drop (List.length data) r)
  else if String.eqb batch_sort_key "input" then
    Returns (sorted (fun d => output_shape0 (snd d)) data (negb shortest_first), r)
  else if String.eqb batch_sort_key "output" then
    Returns (sorted (fun d => input_shape0 (snd d)) data (negb shortest_first), r)
  else
    Raises (ValueError "batch_sort_key should be selected from None, input, and output.").

Section Loop.
Variable sorted_data : list Item.

(** Lines 64-76: where the window that starts at [start] ends. *)
Definition window_end (start : Z) : outcome Z :=
  if String.eqb batch_sort_key "shuffle" then
    Returns (Z.min (len sorted_data) (start + batch_size))
  else
    first <- getitem sorted_data start ;;
    let ilen := output_shape0 (snd first) in
    let olen := input_shape0 (snd first) in
    qi <- int_truediv ilen max_length_in ;;
    qo <- int_truediv olen max_length_out ;;
    let factor := Z.max qi qo in
    q <- int_truediv batch_size (1 + factor) ;;
    let bs := Z.max 1 q in
    Returns (Z.min (len sorted_data) (start + bs)).

(** Lines 82-87: a window shorter than [min_batch_size] is extended by
  entries drawn from the positions before [start]. *)
Definition pad_minibatch (start : Z) (minibatch : list Item) (r : Rng)
  : outcome (list Item * Rng) :=
  if len minibatch <? min_batch_size then
    let mod_ := min_batch_size - len minibatch mod min_batch_size in
    '(idx, r') <- randint 0 start mod_ r ;;
    additional_minibatch <- mapM (getitem sorted_data) idx ;;
    let additional_minibatch :=
      if shortest_first then rev additional_minibatch else additional_minibatch in
    Returns (minibatch ++ additional_minibatch, r')
  else Returns (minibatch, r).

(** Lines 79-88: the minibatch of the window [start, end_). *)
Definition make_minibatch (start end_ : Z) (r : Rng) : outcome (list Item * Rng) :=
  let minibatch := slice sorted_data start end_ in
  let minibatch := if shortest_first then rev minibatch else minibatch in
  pad_minibatch start minibatch r.

(** Lines 63-92: the [while True] loop, one iteration per unit of fuel. *)
Fixpoint batch_loop (fuel : nat) (start : Z) (minibatches : list (list Item))
         (r : Rng) : outcome (list (list Item)) :=
  match fuel with
  | O => OutOfFuel
  | S fuel' =>
      end_ <- window_end start ;;
      '(minibatch, r') <- make_minibatch start end_ r ;;
      let minibatches := minibatches ++ [minibatch] in
      if end_ =? len sorted_data then Returns minibatches
      else batch_loop fuel' end_ minibatches r'
  end.
End Loop.

(** [make_batchset(data, batch_size, max_length_in, max_length_out,
  num_batches, batch_sort_key, min_batch_size, shortest_first)] *)
Definition make_batchset_body (num_batches : Z) (fuel : nat) (data : list Item) (r : Rng)
  : outcome (list (list Item)) :=
  '(sorted_data, r1) <- sort_data data r ;;
  if len sorted_data <? min_batch_size then
    Raises (ValueError "#utts is less than min_batch_size.")
  else
    minibatches <- batch_loop sorted_data fuel 0 [] r1 ;;
    Returns (if num_batches >? 0 then slice minibatches 0 num_batches else minibatches).
End MakeBatchset.

(** The function with its arguments in the order of the Python signature;
    [fuel] bounds the iterations of the loop and [r] is the random tape. *)
Definition make_batchset (fuel : nat) (r : Rng) (data : list Item)
  (batch_size max_length_in max_length_out num_batches : Z)
  (batch_sort_key : string) (min_batch_size : Z) (shortest_first : bool)
  : outcome (list (list Item)) :=
  make_batchset_body batch_size max_length_in max_length_out batch_sort_key
  min_batch_size shortest_first num_batches fuel data r.

End TtsUtils.

(* ===================================================================== *)
(** * Floating-point values *)
(* ===================================================================== *)

Module Float.

(** The value of a float as far as comparisons and [math.isnan] see it.
    Arithmetic (rounding) belongs to the tensor engine and stays a parameter
    of the code that uses it. *)
Inductive float : Type :=
| NaN
| Inf (negative : bool)
| Finite (q : Q).

Definition of_Z (z : Z) : float := Finite (inject_Z z).

(** [math.isnan(x)] *)
Definition isnan (x : float) : bool :=
  match x with NaN => true | _ => false end.

Definition Qltb (a b : Q) : bool := (Qnum a * QDen b <? Qnum b * QDen a)%Z.

(** [x < y]: false whenever an operand is NaN. *)
Definition ltb (x y : float) : bool :=
  match x, y with
  | NaN, _ | _, NaN => false
  | Inf true, Inf true => false
  | Inf true, _ => true
  | _, Inf true => false
  | Inf false, _ => false
  | Finite _, Inf false => true
  | Finite a, Finite b => Qltb a b
  end.

(** [x == y] *)
Definition eqb (x y : float) : bool :=
  match x, y with
  | Finite a, Finite b => Qeq_bool a b
  | Inf s, Inf t => Bool.eqb s t
  | _, _ => false
  end.

End Float.

Import Float.


(* ===================================================================== *)
(** * espnet/nets/chainer_backend/e2e_asr.py *)
(* ===================================================================== *)

Module E2EAsr.

Definition CTC_LOSS_THRESHOLD : Z := 10000.

(** What the process-wide reporter and logger have received, oldest first. *)
Inductive log_record : Type :=
| InfoMtlLoss (loss : float)
| WarningLossNotCorrect (loss : float)
| InfoGradNorm (grad_norm : float)
| WarningGradNormNan.

Record World : Type := mkWorld {
  reports : list (string * option float);
  logs : list log_record
}.

Definition report (key : string) (value : option float) (w : World) : World :=
  mkWorld (reports w ++ [(key, value)]) (logs w).

Definition log (m : log_record) (w : World) : World :=
  mkWorld (reports w) (logs w ++ [m]).

(** The value [__call__] returns: the loss alone, or the tuple
    [(loss, loss_ctc, loss_att, acc)] under [flag_return]. *)
Inductive call_result : Type :=
| LossOnly (loss : float)
| LossTuple (loss : float) (loss_ctc loss_att acc : option float).

Definition loss_of (res : call_result) : float :=
  match res with LossOnly l => l | LossTuple l _ _ _ => l end.

Section E2E.
(** The sub-networks and the arithmetic of the tensor engine. *)
Variables Params Xs Ilens Ys Hs : Type.
Variable enc : Params -> Xs -> Ilens -> Hs * Ilens.
Variable ctc : Params -> Hs -> Ys -> float.
Variable dec : Params -> Hs -> Ys -> float * float.
Variables fadd fsub fmul : float -> float -> float.

Record E2E : Type := mkE2E {
  mtlalpha : float;
  flag_return : bool;
  acc : option float;
  loss : option float;
  params : Params
}.

(** Lines 83-106: the three losses and the accuracy of one forward pass. *)
Definition forward (self : E2E) (xs : Xs) (ilens : Ilens) (ys : Ys)
  : outcome (option float * option float * option float * option float) :=
  let '(hs, _) := enc (params self) xs ilens in
  let loss_ctc :=
    if eqb (mtlalpha self) (of_Z 0) then None else Some (ctc (params self) hs ys) in
  let '(loss_att, acc) :=
    if eqb (mtlalpha self) (of_Z 1) then (None, None)
    else let '(l, a) := dec (params self) hs ys in (Some l, Some a) in
  let alpha := mtlalpha self in
  loss <- (if eqb alpha (of_Z 0) then Returns loss_att
           else if eqb alpha (of_Z 1) then Returns loss_ctc
           else match loss_ctc, loss_att with
                | Some c, Some a =>
                    Returns (Some (fadd (fmul alpha c) (fmul (fsub (of_Z 1) alpha) a)))
                | _, _ => Raises TypeError
                end) ;;
  Returns (loss, loss_ctc, loss_att, acc).

(** [E2E.__call__(xs, ilens, ys)] *)
Definition E2E_call (self : E2E) (w : World) (xs : Xs) (ilens : Ilens) (ys : Ys)
  : outcome (call_result * E2E * World) :=
  '(loss, loss_ctc, loss_att, acc) <- forward self xs ilens ys ;;
  let self := mkE2E (mtlalpha self) (flag_return self) acc loss (params self) in
  match loss with
  | None => Raises AttributeError
  | Some l =>
      let w :=
        if ltb l (of_Z CTC_LOSS_THRESHOLD) && negb (isnan l) then
          let w := report "loss_ctc" loss_ctc w in
          let w := report "loss_att" loss_att w in
          let w := report "acc" acc w in
          let w := log (InfoMtlLoss l) w in
          report "loss" (Some l) w
        else log (WarningLossNotCorrect l) w in
      if flag_return self then Returns (LossTuple l loss_ctc loss_att acc, self, w)
      else Returns (LossOnly l, self, w)
  end.
End E2E.

Arguments mkE2E {Params} _ _ _ _ _.
Arguments mtlalpha {Params} _.
Arguments flag_return {Params} _.
Arguments acc {Params} _.
Arguments loss {Params} _.
Arguments params {Params} _.

End E2EAsr.

(* ===================================================================== *)
(** * espnet/asr/chainer_backend/asr.py *)
(* ===================================================================== *)

Module Asr.
Import E2EAsr.

(** ** [sum_sqnorm] *)
Section SumSqnorm.
Variable Array : Type.
(** [int(cuda.get_device_from_array(x))] and [x.ravel().dot(x.ravel())] *)
Variable device_of : option Array -> Z.
Variable dot : Array -> float.
Variable fadd : float -> float -> float.

(** [sq_sum[dev] += s] on a [defaultdict(float)], keys in insertion order. *)
Fixpoint add_at (dev : Z) (s : float) (sq_sum : list (Z * float)) : list (Z * float) :=
  match sq_sum with
  | [] => [(dev, fadd (of_Z 0) s)]
  | (d, v) :: rest =>
      if d =? dev then (d, fadd v s) :: rest else (d, v) :: add_at dev s rest
  end.

Definition sum_sqnorm (arr : list (option Array)) : float :=
  let sq_sum :=
    fold_left (fun sq_sum x =>
                 match x with
                 | Some a => add_at (device_of x) (dot a) sq_sum
                 | None => sq_sum
                 end) arr [] in
  fold_left fadd (map snd sq_sum) (of_Z 0).
End SumSqnorm.

(** ** [CustomUpdater] *)
Section Updater.
Variables Params Xs Ilens Ys Hs : Type.
Variable enc : Params -> Xs -> Ilens -> Hs * Ilens.
Variable ctc : Params -> Hs -> Ys -> float.
Variable dec : Params -> Hs -> Ys -> float * float.
Variables fadd fsub fmul : float -> float -> float.
Variable fsqrt : float -> float.

Variable Array : Type.
Variable device_of : option Array -> Z.
Variable dot : Array -> float.
(** [loss.backward()]: the gradient of every parameter, from the parameters
    and the batch the loss was computed on. *)
Variable backward : Params -> Xs * Ilens * Ys -> list (option Array).

(** The optimizer: its own state, and [optimizer.update()] (hooks such as
    gradient clipping included). *)
Variable OptState : Type.
Variable optimizer_update :
  OptState -> Params -> list (option Array) -> OptState * Params.

(** The iterator and the converter handed to the updater. *)
Variables Batch Iter : Type.
Variable next : Iter -> Batch * Iter.
Variable converter : Batch -> Z -> outcome (Xs * Ilens * Ys).

Local Abbreviation E2E := (E2E Params).

Record Updater : Type := mkUpdater {
  target : E2E;
  grads : list (option Array);
  optimizer : OptState;
  train_iter : Iter;
  device : Z;
  world : World;
  (** how many times [optimizer.update()] has been invoked *)
  update_calls : nat
}.

Definition set_params (m : E2E) (p : Params) : E2E :=
  mkE2E (mtlalpha m) (flag_return m) (acc m) (loss m) p.

(** The gradient norm [update_core] computes for a batch. *)
Definition grad_norm_of (p : Params) (x : Xs * Ilens * Ys) : float :=
  fsqrt (sum_sqnorm Array device_of dot fadd (backward p x)).

(** [CustomUpdater.update_core()] *)
Definition update_core (self : Updater) : outcome Updater :=
  let '(batch, train_iter) := next (train_iter self) in
  x <- converter batch (device self) ;;
  let '(xs, ilens, ys) := x in
  '(res, target, w) <-
    E2E_call Params Xs Ilens Ys Hs enc ctc dec fadd fsub fmul
             (target self) (world self) xs ilens ys ;;
  match res with
  | LossTuple _ _ _ _ => Raises AttributeError
  | LossOnly _ =>
      let grads := backward (params target) x in
      let grad_norm := fsqrt (sum_sqnorm Array device_of dot fadd grads) in
      let w := log (InfoGradNorm grad_norm) w in
      if isnan grad_norm then
        let w := log WarningGradNormNan w in
        Returns (mkUpdater target grads (optimizer self) train_iter (device self) w
                           (update_calls self))
      else
        let '(opt, p) := optimizer_update (optimizer self) (params target) grads in
        Returns (mkUpdater (set_params target p) grads opt train_iter (device self) w
                           (S (update_calls self)))
  end.
End Updater.

Arguments mkUpdater {Params Array OptState Iter} _ _ _ _ _ _ _.
Arguments target {Params Array OptState Iter} _.
Arguments grads {Params Array OptState Iter} _.
Arguments optimizer {Params Array OptState Iter} _.
Arguments train_iter {Params Array OptState Iter} _.
Arguments device {Params Array OptState Iter} _.
Arguments world {Params Array OptState Iter} _.
Arguments update_calls {Params Array OptState Iter} _.
Arguments set_params {Params} _ _.

(** ** [CustomConverter] *)

(** [numpy.array(..., dtype=int32)] on an integer: the value modulo [2^32],
    read as a signed 32-bit number. *)
Definition astype_int32 (z : Z) : Z := (z + 2 ^ 31) mod 2 ^ 32 - 2 ^ 31.

Section Converter.
(** One frame (a row of features) as loaded and as a [float32] row. *)
Variables Frame Frame32 : Type.
Variable astype_float32 : Frame -> Frame32.

(** [x[::k, :]] from the row that is [skip] rows ahead. *)
Fixpoint every_kth (k skip : nat) (x : list Frame) : list Frame :=
  match x with
  | [] => []
  | row :: rest =>
      match skip with
      | O => row :: every_kth k (k - 1) rest
      | S skip' => every_kth k skip' rest
      end
  end.

(** [x[::k, :]] for a positive step [k]. *)
Definition stride (k : Z) (x : list Frame) : list Frame := every_kth (Z.to_nat k) 0 x.

Record CustomConverter : Type := mkConverter { subsampling_factor : Z }.

(** [CustomConverter.__call__(batch, device)]; an input [x] is the list of
    its rows, so that [x.shape[0]] is its length. *)
Definition converter_call (self : CustomConverter)
    (batch : list (list (list Frame) * list (list Z))) (device : Z)
  : outcome (list (list Frame32) * list Z * list (list Z)) :=
  match batch with
  | [(xs, ys)] =>
      let xs :=
        if subsampling_factor self >? 1
        then map (stride (subsampling_factor self)) xs else xs in
      let ilens := map (fun x => len x) xs in
      let xs := map (map astype_float32) xs in
      let ilens := map astype_int32 ilens in
      let ys := map (map astype_int32) ys in
      Returns (xs, ilens, ys)
  | _ => Raises AssertionError
  end.
End Converter.

(** ** The multi-GPU part of [train] (lines 276-291) *)
Section MultiGpu.
(** Utterance ids, records and minibatches; [make_batchset] is the one of
    [espnet.asr.asr_utils], called with the arguments of [train]. *)
Variables Key Value Minibatch : Type.
Variable make_batchset : list (Key * Value) -> outcome (list Minibatch).

Fixpoint enumerate_from {A : Type} (i : nat) (l : list A) : list (nat * A) :=
  match l with
  | [] => []
  | x :: l' => (i, x) :: enumerate_from (S i) l'
  end.

(** [{k: v for i, (k, v) in enumerate(train_json.items()) if i % ngpu == gid}] *)
Definition train_json_subset (ngpu gid : nat) (train_json : list (Key * Value))
  : list (Key * Value) :=
  map snd (filter (fun iv => (fst iv mod ngpu =? gid)%nat) (enumerate_from 0 train_json)).

(** Lines 277-284. *)
Definition make_train_subsets (ngpu : nat) (train_json : list (Key * Value))
  : outcome (list (list Minibatch)) :=
  mapM (fun gid => make_batchset (train_json_subset ngpu gid train_json)) (seq 0 ngpu).

(** Lines 290-291: [for i in xrange(n): train_subset += [train_subset[i]]],
    the iteration that starts at index [i]. *)
Fixpoint extend_subset (n i : nat) (train_subset : list Minibatch)
  : outcome (list Minibatch) :=
  match n with
  | O => Returns train_subset
  | S n' =>
      match nth_error train_subset i with
      | Some b => extend_subset n' (S i) (train_subset ++ [b])
      | None => Raises IndexError
      end
  end.

(** Lines 287-291. *)
Definition equalize (train_subsets : list (list Minibatch))
  : outcome (list (list Minibatch)) :=
  match train_subsets with
  | [] => Raises (ValueError "max() arg is an empty sequence")
  | _ =>
      let maxlen := list_max (map (@List.length Minibatch) train_subsets) in
      mapM (fun train_subset =>
              if (maxlen =? List.length train_subset)%nat then Returns train_subset
              else extend_subset (maxlen - List.length train_subset) 0 train_subset)
           train_subsets
  end.

Definition multi_gpu_subsets (ngpu : nat) (train_json : list (Key * Value))
  : outcome (list (list Minibatch)) :=
  train_subsets <- make_train_subsets ngpu train_json ;;
  equalize train_subsets.
End MultiGpu.

End Asr.

(* ===================================================================== *)
(** * Python strings and dictionaries *)
(* ===================================================================== *)

Module PyStr.

(** [s.startswith(p)] and [s.endswith(p)] *)
Definition startswith (s p : string) : bool := String.prefix p s.

Definition endswith (s p : string) : bool :=
  let n := String.length s in
  let m := String.length p in
  (m <=? n)%nat && String.eqb (String.substring (n - m) m s) p.

(** [s.split(sep)] for a separator of one character: the text before the
    first separator, and the fields after it. *)
Fixpoint split_aux (sep : ascii) (s : string) : string * list string :=
  match s with
  | EmptyString => (EmptyString, [])
  | String c s' =>
      let '(field, fields) := split_aux sep s' in
      if Ascii.eqb c sep then (EmptyString, field :: fields)
      else (String c field, fields)
  end.

Definition split (sep : ascii) (s : string) : list string :=
  let '(field, fields) := split_aux sep s in field :: fields.

(** ['%d' % n] for a natural number. *)
Definition format_d (n : nat) : string := NilEmpty.string_of_uint (Nat.to_uint n).

End PyStr.

Module PyDict.

(** A [dict] as the list of its items in insertion order. *)
Section Dict.
Context {K V : Type} (eqb : K -> K -> bool).

(** [d[k] = v]: an existing key keeps its place and takes the new value. *)
Fixpoint dict_set (k : K) (v : V) (d : list (K * V)) : list (K * V) :=
  match d with
  | [] => [(k, v)]
  | (k', v') :: d' =>
      if eqb k' k then (k', v) :: d' else (k', v') :: dict_set k v d'
  end.

(** [d.get(k)] *)
Fixpoint dict_get (k : K) (d : list (K * V)) : option V :=
  match d with
  | [] => None
  | (k', v') :: d' => if eqb k' k then Some v' else dict_get k d'
  end.
End Dict.

End PyDict.

(* ===================================================================== *)
(** * espnet/tts/tts_utils.py: the callers of [make_batchset] *)
(* ===================================================================== *)

Module TtsSetup.
Import TtsUtils.

(** The attributes of [args] read by [make_args_batchset]. *)
Record BatchArgs : Type := mkBatchArgs {
  args_batch_size : Z;
  args_maxlen_in : Z;
  args_maxlen_out : Z;
  args_minibatches : Z;
  args_batch_sort_key : string;
  args_ngpu : Z;
  args_sortagrad : Z
}.

(** [make_args_batchset(data, args)] (lines 18-20). *)
Definition make_args_batchset (fuel : nat) (r : Rng) (data : list Item) (args : BatchArgs)
  : outcome (list (list Item)) :=
  make_batchset fuel r data (args_batch_size args) (args_maxlen_in args)
                (args_maxlen_out args) (args_minibatches args) (args_batch_sort_key args)
                (if args_ngpu args >? 1 then args_ngpu args else 1)
                (negb (args_sortagrad args =? 0)).

(** One entry of a record's ['input'] or ['output'] list, and a record of
    the validation json with all the entries [get_dimensions] can reach. *)
Record Entry : Type := mkEntry { shape : list Z }.

Record Utt : Type := mkUttJson {
  input : list Entry;
  output : list Entry
}.

(** The attributes of [args] read or written by [get_dimensions]; an
    attribute that is [None] or not set is [None]. *)
Record DimArgs : Type := mkDimArgs {
  args_use_cbhg : bool;
  args_use_speaker_embedding : bool;
  args_spc_dim : option Z;
  args_spk_embed_dim : option Z
}.

(** [get_dimensions(args)] (lines 102-119) on the loaded ['utts']
    dictionary; [valid_json[utts[0]]] is the first item. *)
Definition get_dimensions (valid_json : list (string * Utt)) (args : DimArgs)
  : outcome (Z * Z * DimArgs) :=
  let utts := map fst valid_json in
  _ <- getitem utts 0 ;;
  first <- getitem (map snd valid_json) 0 ;;
  o0 <- getitem (output first) 0 ;;
  idim <- getitem (shape o0) 1 ;;
  i0 <- getitem (input first) 0 ;;
  odim <- getitem (shape i0) 1 ;;
  spc_dim <-
    (if args_use_cbhg args then
       i1 <- getitem (input first) 1 ;;
       d <- getitem (shape i1) 1 ;;
       Returns (Some d)
     else Returns (args_spc_dim args)) ;;
  spk_embed_dim <-
    (if args_use_speaker_embedding args then
       i1 <- getitem (input first) 1 ;;
       d <- getitem (shape i1) 0 ;;
       Returns (Some d)
     else Returns None) ;;
  Returns (idim, odim,
           mkDimArgs (args_use_cbhg args) (args_use_speaker_embedding args)
                     spc_dim spk_embed_dim).

End TtsSetup.

(* ===================================================================== *)
(** * espnet/tts/tts_utils.py: the report keys of the trainer *)
(* ===================================================================== *)

Module TtsReport.

(** The lists of report keys are objects that are changed in place and
    handed on by reference: a store gives the content of every list made so
    far, and a list is known by its position in the store. *)
Definition Store : Type := list (list string).

Definition new_list (content : list string) (st : Store) : nat * Store :=
  (List.length st, st ++ [content]).

Definition content (id : nat) (st : Store) : list string := nth id st [].

Fixpoint set_content (id : nat) (l : list string) (st : Store) : Store :=
  match st, id with
  | [], _ => []
  | _ :: st', O => l :: st'
  | x :: st', S id' => x :: set_content id' l st'
  end.

(** The extensions of a trainer: the ones [prepare_asr_tts_trainer]
    installs, of a type [E] left open, and the three of
    [add_progress_report]; [PrintReport] keeps the list it is given. *)
Inductive extension (E : Type) : Type :=
| Common (e : E)
| LogReport
| PrintReport (entries : nat)
| ProgressBar.

Arguments Common {E} e.
Arguments LogReport {E}.
Arguments PrintReport {E} entries.
Arguments ProgressBar {E}.

(** [get_plot_report_keys(use_cbhg)] (lines 122-137).  The list
    [to_report] that the function also builds is not returned. *)
Definition get_plot_report_keys (use_cbhg : bool) (st : Store) : nat * Store :=
  let '(plot_keys, st) :=
    new_list ["main/loss"; "validation/main/loss";
              "main/l1_loss"; "validation/main/l1_loss";
              "main/mse_loss"; "validation/main/mse_loss";
              "main/bce_loss"; "validation/main/bce_loss"] st in
  let st :=
    if use_cbhg then
      set_content plot_keys
                  (content plot_keys st ++
                   ["main/cbhg_l1_loss"; "validation/main/cbhg_l1_loss";
                    "main/cbhg_mse_loss"; "validation/main/cbhg_mse_loss"]) st
    else st in
  (plot_keys, st).

Section Trainer.
Variable E : Type.

(** [add_progress_report(trainer, keys)] (lines 140-144); a trainer is the
    list of its extensions. *)
Definition add_progress_report (trainer : list (extension E)) (keys : nat) (st : Store)
  : list (extension E) * Store :=
  let trainer := trainer ++ [LogReport] in
  let st := set_content keys (["epoch"; "iteration"; "elapsed_time"] ++ content keys st) st in
  let trainer := trainer ++ [PrintReport keys] in
  let trainer := trainer ++ [ProgressBar] in
  (trainer, st).

(** [prepare_asr_tts_trainer(..., plot_keys, reverse_par=True)] of
    [espnet.utils.training.train_utils], given the list of plot keys. *)
Variable prepare_asr_tts_trainer : nat -> Store -> list (extension E) * Store.

(** [prepare_trainer(...)] (lines 147-165). *)
Definition prepare_trainer (use_cbhg : bool) (st : Store) : list (extension E) * Store :=
  let '(plot_keys, st) := get_plot_report_keys use_cbhg st in
  let '(trainer, st) := prepare_asr_tts_trainer plot_keys st in
  let '(copy, st) := new_list (content plot_keys st) st in
  add_progress_report trainer copy st.
End Trainer.

End TtsReport.

(* ===================================================================== *)
(** * espnet/nets/chainer_backend/e2e_asr.py: construction and decoding *)
(* ===================================================================== *)

Module E2ESetup.
Import E2EAsr Asr PyStr.

(** [x <= y] on floats. *)
Definition leb (x y : float) : bool := ltb x y || eqb x y.

(** The attributes of [args] that decide the values [__init__] computes. *)
Record InitArgs : Type := mkInitArgs {
  args_mtlalpha : float;
  args_etype : string;
  args_elayers : Z;
  args_subsample : string
}.

(** [subsample[j] = v] for an index within the array. *)
Fixpoint set_item {A : Type} (j : nat) (v : A) (l : list A) : list A :=
  match l, j with
  | [], _ => []
  | _ :: l', O => v :: l'
  | x :: l', S j' => x :: set_item j' v l'
  end.

Section Init.
(** The builtin [int] on a string: the number it denotes, or [ValueError]. *)
Variable py_int : string -> outcome Z.
(** What [init_scope] builds: encoder, CTC, attention and decoder. *)
Variable Params : Type.
Variable init_scope : InitArgs -> Z -> Z -> list Z -> Z -> Z -> Params.

(** Lines 46-47: [for j in js: subsample[j] = int(ss[j])]. *)
Fixpoint fill_subsample (js : list nat) (ss : list string) (subsample : list Z)
  : outcome (list Z) :=
  match js with
  | [] => Returns subsample
  | j :: js' =>
      s <- getitem ss (Z.of_nat j) ;;
      v <- py_int s ;;
      fill_subsample js' ss (set_item j v subsample)
  end.

(** Lines 43-52: the subsampling factor of the input and of every encoder
    layer. *)
Definition make_subsample (args : InitArgs) : outcome (list Z) :=
  let n := args_elayers args + 1 in
  if n <? 0 then Raises (ValueError "negative dimensions are not allowed")
  else
    let subsample := repeat 1 (Z.to_nat n) in
    if endswith (args_etype args) "p" && negb (startswith (args_etype args) "vgg") then
      let ss := split "_"%char (args_subsample args) in
      fill_subsample (seq 0 (Z.to_nat (Z.min n (len ss)))) ss subsample
    else Returns subsample.

(** The model object: the part that [__call__] uses, and the attributes
    the other methods and [train] read ([verbose], [char_list] and [outdir]
    only keep an argument and are left out). *)
Record Model : Type := mkModel {
  net : E2E Params;
  etype : string;
  sos : Z;
  eos : Z;
  subsample : list Z
}.

(** [E2E.__init__(idim, odim, args, flag_return)] (lines 27-73). *)
Definition E2E_init (idim odim : Z) (args : InitArgs) (flag_return : bool)
  : outcome Model :=
  let mtlalpha := args_mtlalpha args in
  if leb (of_Z 0) mtlalpha && leb mtlalpha (of_Z 1) then
    let sos := odim - 1 in
    let eos := odim - 1 in
    subsample <- make_subsample args ;;
    let params := init_scope args idim odim subsample sos eos in
    Returns (mkModel (mkE2E mtlalpha flag_return None None params)
                     (args_etype args) sos eos subsample)
  else Raises AssertionError.

(** Line 253 of [asr.py]: the converter [train] builds for a model. *)
Definition converter_for (model : Model) : outcome CustomConverter :=
  k <- getitem (subsample model) 0 ;;
  Returns (mkConverter k).
End Init.

Arguments mkModel {Params} _ _ _ _ _.
Arguments net {Params} _.
Arguments etype {Params} _.
Arguments sos {Params} _.
Arguments eos {Params} _.
Arguments subsample {Params} _.
Arguments converter_for {Params} _.

Section Recognize.
Variables Frame Frame32 : Type.
Variable astype_float32 : Frame -> Frame32.
(** The encoder on a list of utterances, the CTC log-softmax and the
    decoder's beam search (with [recog_args], [char_list] and [rnnlm]). *)
Variables H Lpz Hyp : Type.
Variable enc : list (list Frame32) -> list Z -> list H * list Z.
Variable log_softmax : list H -> list Lpz.
Variable recognize_beam : H -> option Lpz -> Hyp.

(** [x[::k, :]] for any step [k]: a negative step walks from the last row
    backwards, a zero step is an error. *)
Definition getitem_step (k : Z) (x : list Frame) : outcome (list Frame) :=
  if k =? 0 then Raises (ValueError "slice step cannot be zero")
  else if k >? 0 then Returns (stride Frame k x)
  else Returns (stride Frame (- k) (rev x)).

(** Lines 132-134: the frames and the length handed to the encoder. *)
Definition recognize_input (subsample : list Z) (x : list Frame)
  : outcome (list Frame32 * Z) :=
  k <- getitem subsample 0 ;;
  x <- getitem_step k x ;;
  let ilen := astype_int32 (len x) in
  let h := map astype_float32 x in
  Returns (h, ilen).

(** [E2E.recognize(x, recog_args, char_list, rnnlm)] (lines 122-151). *)
Definition recognize (subsample : list Z) (x : list Frame) (ctc_weight : float)
  : outcome Hyp :=
  '(h, ilen) <- recognize_input subsample x ;;
  let '(h, _) := enc [h] [ilen] in
  lpz <- (if ltb (of_Z 0) ctc_weight then
            l <- getitem (log_softmax h) 0 ;; Returns (Some l)
          else Returns None) ;;
  h0 <- getitem h 0 ;;
  Returns (recognize_beam h0 lpz).
End Recognize.

End E2ESetup.

(* ===================================================================== *)
(** * espnet/asr/chainer_backend/asr.py: the parallel updater and set-up *)
(* ===================================================================== *)

Module AsrSetup.
Import E2EAsr Asr PyStr PyDict.

(** ** [CustomParallelUpdater] *)
Section ParallelUpdater.
Variables Params Xs Ilens Ys Hs : Type.
Variable enc : Params -> Xs -> Ilens -> Hs * Ilens.
Variable ctc : Params -> Hs -> Ys -> float.
Variable dec : Params -> Hs -> Ys -> float * float.
Variables fadd fsub fmul : float -> float -> float.
Variable fsqrt : float -> float.
Variable Array : Type.
Variable device_of : option Array -> Z.
Variable dot : Array -> float.
Variable backward : Params -> Xs * Ilens * Ys -> list (option Array).
Variable OptState : Type.
Variable optimizer_update :
  OptState -> Params -> list (option Array) -> OptState * Params.
Variables Batch Iter : Type.
Variable next : Iter -> Batch * Iter.
Variable converter : Batch -> Z -> outcome (Xs * Ilens * Ys).

(** The NCCL communicator: [gather_grads], [comm.reduce(..., NCCL_SUM, 0)]
    and [scatter_grads] leave in the master's gradients their sum with the
    gradients of the workers. *)
Variable Comm : Type.
Variable reduce : Comm -> list (option Array) -> list (option Array).

(** What the master has sent to the workers, oldest first: the ['update']
    message through the pipes, and the parameters through [comm.bcast]. *)
Inductive sent : Type :=
| MsgUpdate
| Bcast (p : Params).

Record ParallelUpdater : Type := mkParallelUpdater {
  (** the master model, its optimizer, the iterator ['main'] and
      [_devices[0]], as in [CustomUpdater] *)
  master : Updater Params Array OptState Iter;
  comm : option Comm;
  traffic : list sent
}.

(** [CustomParallelUpdater.update_core()] (lines 113-157), on the master
    process.  [setup_workers()], which starts the worker processes at the
    first call, and the device context leave the master's state alone. *)
Definition parallel_update_core (self : ParallelUpdater) : outcome ParallelUpdater :=
  let traffic := traffic self ++ [MsgUpdate] in
  let m := master self in
  let '(batch, train_iter) := next (train_iter m) in
  x <- converter batch (device m) ;;
  let '(xs, ilens, ys) := x in
  '(res, target, w) <-
    E2E_call Params Xs Ilens Ys Hs enc ctc dec fadd fsub fmul
             (target m) (world m) xs ilens ys ;;
  match res with
  | LossTuple _ _ _ _ => Raises AttributeError
  | LossOnly _ =>
      let grads := backward (params target) x in
      let grads :=
        match comm self with
        | Some c => reduce c grads
        | None => grads
        end in
      let grad_norm := fsqrt (sum_sqnorm Array device_of dot fadd grads) in
      let w := log (InfoGradNorm grad_norm) w in
      let m' :=
        if isnan grad_norm then
          let w := log WarningGradNormNan w in
          mkUpdater target grads (optimizer m) train_iter (device m) w (update_calls m)
        else
          let '(opt, p) := optimizer_update (optimizer m) (params target) grads in
          mkUpdater (set_params target p) grads opt train_iter (device m) w
                    (S (update_calls m)) in
      let traffic :=
        match comm self with
        | Some _ => traffic ++ [Bcast (params (Asr.target m'))]
        | None => traffic
        end in
      Returns (mkParallelUpdater m' (comm self) traffic)
  end.
End ParallelUpdater.

Arguments MsgUpdate {Params}.
Arguments Bcast {Params} p.
Arguments mkParallelUpdater {Params Array OptState Iter Comm} _ _ _.
Arguments master {Params Array OptState Iter Comm} _.
Arguments comm {Params Array OptState Iter Comm} _.
Arguments traffic {Params Array OptState Iter Comm} _.

(** ** The set-up of [train] *)

(** Lines 223-240: [gpu_id], and [devices] where it is bound. *)
Definition set_gpu (ngpu : Z) : Z * option (list (string * Z)) :=
  if ngpu =? 1 then (0, None)
  else if ngpu >? 1 then
    let gpu_id := 0 in
    let devices := [("main", gpu_id)] in
    let devices :=
      fold_left (fun devices gid =>
                   dict_set String.eqb ("sub_" ++ format_d gid)%string (Z.of_nat gid) devices)
                (seq 1 (Z.to_nat ngpu - 1)) devices in
    (gpu_id, Some devices)
  else (-1, None).

(** Line 255. *)
Definition use_sortagrad (sortagrad : Z) : bool :=
  (sortagrad =? -1) || (sortagrad >? 0).

(** ** [recog] *)

(** Line 363: [{x: i for i, x in enumerate(char_list)}]. *)
Definition char_dict (char_list : list string) : list (string * nat) :=
  fold_left (fun d ix => dict_set String.eqb (snd ix) (fst ix) d)
            (enumerate_from 0 char_list) [].

End AsrSetup.

(* ===================================================================== *)
(** * Vocabulary of the statements *)
(* ===================================================================== *)

Module Spec.
Import TtsUtils E2EAsr Asr.

(** ** Orders *)
Definition ascending {A : Type} (key : A -> Z) (a b : A) : Prop := key a <= key b.
Definition descending {A : Type} (key : A -> Z) (a b : A) : Prop := key b <= key a.

(** ** Batch plans *)

(** The length that key ['input'] sorts by (the record's [output] shape) and
    the one that key ['output'] sorts by (its [input] shape). *)
Definition ilen (it : Item) : Z := output_shape0 (snd it).
Definition olen (it : Item) : Z := input_shape0 (snd it).

Definition valid_sort_key (k : string) : Prop :=
  k = "shuffle" \/ k = "input" \/ k = "output".

Definition length_sorted_key (k : string) : Prop := k = "input" \/ k = "output".

(** The length a length-sorted plan is ordered by. *)
Definition sort_length (k : string) (it : Item) : Z :=
  if String.eqb k "input" then ilen it else olen it.

Definition maybe_rev {A : Type} (b : bool) (l : list A) : list A :=
  if b then rev l else l.

Definition sort_key_error : exn :=
  ValueError "batch_sort_key should be selected from None, input, and output.".
Definition corpus_error : exn := ValueError "#utts is less than min_batch_size.".

(** [a] starts with an entry at least as long as the one [b] starts with. *)
Definition head_not_shorter (length_of : Item -> Z) (a b : list Item) : Prop :=
  exists x y, hd_error a = Some x /\ hd_error b = Some y /\ length_of y <= length_of x.

Section Plan.
Variables (batch_size max_length_in max_length_out : Z).
Variable batch_sort_key : string.
Variable min_batch_size : Z.
Variable shortest_first : bool.
Variable sorted_data : list Item.

(** [padding start window pad]: what is appended to a window that starts at
    [start]: nothing when the window has [min_batch_size] entries, and
    otherwise [min_batch_size - len % min_batch_size] entries of
    [sorted_data] taken at positions below [start] (in reverse order of
    the draws under [shortest_first]). *)
Definition padding (start : Z) (window pad : list Item) : Prop :=
  (min_batch_size <= len window /\ pad = []) \/
  (len window < min_batch_size /\
   exists idx drawn,
     len idx = min_batch_size - len window mod min_batch_size /\
     Forall (fun i => 0 <= i < start) idx /\
     Forall2 (fun i it => nth_error sorted_data (Z.to_nat i) = Some it) idx drawn /\
     pad = maybe_rev shortest_first drawn).

(** The minibatch of the window [start, end_): the window (reversed
    under [shortest_first]) followed by its padding. *)
Definition minibatch_of (start end_ : Z) (mb : list Item) : Prop :=
  exists pad,
    mb = maybe_rev shortest_first (slice sorted_data start end_) ++ pad /\
    padding start (slice sorted_data start end_) pad.

(** The plans the loop can build from position [start] on: a chain of
    windows, each ending where [window_end] says, up to the end of the
    corpus. *)
Inductive plan_from : Z -> list (list Item) -> Prop :=
| plan_last (start : Z) (mb : list Item) :
    window_end batch_size max_length_in max_length_out batch_sort_key sorted_data start
      = Returns (len sorted_data) ->
    minibatch_of start (len sorted_data) mb ->
    plan_from start [mb]
| plan_next (start end_ : Z) (mb : list Item) (rest : list (list Item)) :
    window_end batch_size max_length_in max_length_out batch_sort_key sorted_data start
      = Returns end_ ->
    end_ <> len sorted_data ->
    minibatch_of start end_ mb ->
    plan_from end_ rest ->
    plan_from start (mb :: rest).
End Plan.

(** ** Reports *)

(** What the reporter holds after a call whose loss passed the check. *)
Definition reported (w : World) (l : float) (loss_ctc loss_att acc : option float)
  : list (string * option float) :=
  reports w ++ [("loss_ctc", loss_ctc); ("loss_att", loss_att); ("acc", acc);
                ("loss", Some l)].

(** ** Shards *)

(** The entries of [l] whose key is [g]. *)
Definition group {A : Type} (f : A -> nat) (l : list A) (g : nat) : list A :=
  filter (fun y => (f y =? g)%nat) l.

(** [out] is [orig] repeated cyclically up to [n] entries. *)
Definition cyclic_extension (Minibatch : Type) (orig : list Minibatch) (n : nat)
           (out : list Minibatch) : Prop :=
  List.length out = n /\
  forall j, (j < n)%nat -> nth_error out j = nth_error orig (j mod List.length orig).

End Spec.

Import Spec.

(* ===================================================================== *)
(** * Concrete inputs *)
(* ===================================================================== *)

Module Examples.
Import TtsUtils.

Definition zero_rng : Rng := fun _ => 0.

(** The corpus [{u1: 100, u2: 50}] of the end-to-end example; [i1] and [i2]
    are the lengths the example leaves open. *)
Definition ex_u1 (i1 : Z) : Item := ("u1", mkUtt i1 100).
Definition ex_u2 (i2 : Z) : Item := ("u2", mkUtt i2 50).

Definition pad_a : Item := ("a", mkUtt 10 30).
Definition pad_b : Item := ("b", mkUtt 11 20).
Definition pad_c : Item := ("c", mkUtt 12 10).

Definition sort_a : Item := ("a", mkUtt 10 30).
Definition sort_b : Item := ("b", mkUtt 11 50).
Definition sort_c : Item := ("c", mkUtt 12 40).

Definition cx_a : Item := ("a", mkUtt 10 30).
Definition cx_b : Item := ("b", mkUtt 11 20).
Definition cx_c : Item := ("c", mkUtt 12 10).
Definition cx_d : Item := ("d", mkUtt 13 5).

Definition shard_json : list (string * Z) :=
  [("a", 1); ("b", 2); ("c", 3); ("d", 4); ("e", 5)].

(** One minibatch per utterance. *)
Definition shard_batches (data : list (string * Z)) : outcome (list (list string)) :=
  Returns (map (fun kv => [fst kv]) data).

End Examples.

Import Examples.

(** ** A small instance of the collaborators *)

Module Toy.
Import E2EAsr Asr.

(** Exact arithmetic on finite values; anything else gives NaN. *)
Definition lift2 (op : Q -> Q -> Q) (x y : float) : float :=
  match x, y with
  | Finite a, Finite b => Finite (op a b)
  | _, _ => NaN
  end.

Definition fadd : float -> float -> float := lift2 Qplus.
Definition fsub : float -> float -> float := lift2 Qminus.
Definition fmul : float -> float -> float := lift2 Qmult.

(** The loss of a batch is the batch's number; parameters are one integer. *)
Definition enc (p : Z) (xs : Z) (ilens : unit) : Z * unit := (xs, ilens).
Definition ctc (p : Z) (hs : Z) (ys : unit) : float := of_Z hs.
Definition dec (p : Z) (hs : Z) (ys : unit) : float * float := (of_Z hs, of_Z 1).

(** A model whose gradient is always NaN, and one whose gradient is finite. *)
Definition backward_nan (p : Z) (x : Z * unit * unit) : list (option float) := [Some NaN].
Definition backward_finite (p : Z) (x : Z * unit * unit) : list (option float) :=
  [Some (of_Z 3); None; Some (of_Z 4)].

Definition device_of (x : option float) : Z := -1.
Definition dot (a : float) : float := fmul a a.
Definition fsqrt (x : float) : float := x.

Definition optimizer_update (o : nat) (p : Z) (g : list (option float)) : nat * Z :=
  (S o, p - 1).

Definition next (it : list Z) : Z * list Z := (hd 0 it, tl it).
Definition converter (batch : Z) (device : Z) : outcome (Z * unit * unit) :=
  Returns (batch, tt, tt).

Definition update_core (backward : Z -> Z * unit * unit -> list (option float)) :=
  Asr.update_core Z Z unit unit Z enc ctc dec fadd fsub fmul fsqrt float device_of dot
                  backward nat optimizer_update Z (list Z) next converter.

Definition E2E_call := E2EAsr.E2E_call Z Z unit unit Z enc ctc dec fadd fsub fmul.

(** Attention-only model ([mtlalpha = 0]) with parameter 7, about to read a
    batch whose loss is 20000. *)
Definition model : E2E Z := mkE2E (of_Z 0) false None None 7.
Definition world0 : World := mkWorld [] [].
Definition updater : Updater Z float nat (list Z) :=
  mkUpdater model [] 0%nat [20000; 5] (-1) world0 0.

(** The updater after one step with the finite gradient. *)
Definition updater_after_finite : Updater Z float nat (list Z) :=
  mkUpdater
    (mkE2E (of_Z 0) false (Some (of_Z 1)) (Some (of_Z 20000)) 6)
    [Some (of_Z 3); None; Some (of_Z 4)] 1%nat [5] (-1)
    (mkWorld [] [WarningLossNotCorrect (of_Z 20000); InfoGradNorm (Finite (25 # 1))])
    1.

End Toy.

(* ===================================================================== *)
(** * Further vocabulary and inputs *)
(* ===================================================================== *)

Module Shape.
Import TtsUtils.

(** What links a window [w] of the ordered corpus to its minibatch [mb]:
    the window is [sorted_data[s:e]] with [e] the end computed for [s], and
    the minibatch is the window (reversed under [shortest_first]) followed
    by its padding. *)
Definition window_of (bs max_in max_out : Z) (key : string) (mbs : Z) (sf : bool)
           (sd : list Item) (w mb : list Item) : Prop :=
  exists s e pad,
    0 <= s <= e /\ e <= len sd /\
    window_end bs max_in max_out key sd s = Returns e /\
    w = slice sd s e /\
    mb = maybe_rev sf w ++ pad /\
    padding mbs sf sd s w pad.

(** A gradient entry whose square sum is NaN. *)
Definition has_nan_entry {Array : Type} (dot : Array -> float)
           (arr : list (option Array)) : Prop :=
  exists a, In (Some a) arr /\ isnan (dot a) = true.

(** An operation on floats that gives NaN whenever an operand is NaN. *)
Definition nan_absorbing (op : float -> float -> float) : Prop :=
  forall x y, isnan x = true \/ isnan y = true -> isnan (op x y) = true.

End Shape.

Import Shape.

(** ** Windows and their minibatches *)

Module Windows.
Import TtsUtils.

Section Chain.
Variables (batch_size max_length_in max_length_out : Z).
Variable batch_sort_key : string.
Variable min_batch_size : Z.
Variable shortest_first : bool.
Variable sorted_data : list Item.

(** [chain P start plan]: the minibatches of [plan] belong, in this order,
    to the consecutive windows of the ordered corpus from [start] on.  The
    first window starts at [start], each window ends where [window_end]
    says and the next one starts there, the last one ends at the end of
    the corpus; and [P s e mb] holds of every window [[s, e)] and its
    minibatch [mb]. *)
Inductive chain (P : Z -> Z -> list Item -> Prop) : Z -> list (list Item) -> Prop :=
| chain_last (start : Z) (mb : list Item) :
    window_end batch_size max_length_in max_length_out batch_sort_key sorted_data start
      = Returns (len sorted_data) ->
    P start (len sorted_data) mb ->
    chain P start [mb]
| chain_next (start end_ : Z) (mb : list Item) (rest : list (list Item)) :
    window_end batch_size max_length_in max_length_out batch_sort_key sorted_data start
      = Returns end_ ->
    end_ <> len sorted_data ->
    P start end_ mb ->
    chain P end_ rest ->
    chain P start (mb :: rest).

(** The indices that [np.random.randint(0, start, n)] reads off the tape. *)
Definition drawn_indices (start n : Z) (r : Rng) : list Z :=
  map (fun x => x mod start) (rng_take (Z.to_nat n) r).

(** [padded start window r mb r']: [mb] is the minibatch of the window that
    starts at [start], when the tape is [r] before and [r'] after.  A window
    of at least [min_batch_size] entries is the minibatch (reversed under
    [shortest_first]) and the tape is not read.  A shorter window, which
    needs [0 < start], is followed by the entries of the ordered corpus at
    [mod = min_batch_size - len % min_batch_size] positions read off the
    tape, every one of them below [start]; under [shortest_first] these
    entries are appended in the reverse order of the draws. *)
Definition padded (start : Z) (window : list Item) (r : Rng)
           (mb : list Item) (r' : Rng) : Prop :=
  (min_batch_size <= len window /\
   mb = maybe_rev shortest_first window /\ r' = r) \/
  (len window < min_batch_size /\ 0 < start /\
   let mod_ := min_batch_size - len window mod min_batch_size in
   let idx := drawn_indices start mod_ r in
   exists drawn,
     len idx = mod_ /\
     Forall (fun i => 0 <= i < start) idx /\
     map Some drawn = map (fun i => nth_error sorted_data (Z.to_nat i)) idx /\
     mb = maybe_rev shortest_first window ++ maybe_rev shortest_first drawn /\
     r' = rng_drop (Z.to_nat mod_) r).

(** The plans that the loop builds from position [start] and tape [r]:
    the chain of windows as above, the tape handed from each window to the
    next. *)
Inductive padded_plan : Z -> Rng -> list (list Item) -> Prop :=
| padded_last (start : Z) (r r' : Rng) (mb : list Item) :
    window_end batch_size max_length_in max_length_out batch_sort_key sorted_data start
      = Returns (len sorted_data) ->
    padded start (slice sorted_data start (len sorted_data)) r mb r' ->
    padded_plan start r [mb]
| padded_next (start end_ : Z) (r r' : Rng) (mb : list Item) (rest : list (list Item)) :
    window_end batch_size max_length_in max_length_out batch_sort_key sorted_data start
      = Returns end_ ->
    end_ <> len sorted_data ->
    padded start (slice sorted_data start end_) r mb r' ->
    padded_plan end_ r' rest ->
    padded_plan start r (mb :: rest).
End Chain.

(** The condition under which no window of a shuffled corpus of [n]
    utterances is shorter than [min_batch_size]. *)
Definition no_short_window (n batch_size min_batch_size : Z) : Prop :=
  min_batch_size <= batch_size /\
  (n mod batch_size = 0 \/ min_batch_size <= n mod batch_size).

End Windows.

Import Windows.

(** ** Further instances of the collaborators *)

Module Instances.
Import E2EAsr Asr E2ESetup TtsSetup.

(** A tape whose draws are 0, 1, 2, ... *)
Definition count_rng : Rng := fun i => Z.of_nat i.

Definition cx_e : TtsUtils.Item := ("e", TtsUtils.mkUtt 14 4).
Definition cx_f : TtsUtils.Item := ("f", TtsUtils.mkUtt 15 3).

(** [int] on a string of decimal digits. *)
Fixpoint digits (s : string) (acc : Z) : outcome Z :=
  match s with
  | EmptyString => Returns acc
  | String c s' =>
      let n := nat_of_ascii c in
      if ((48 <=? n) && (n <=? 57))%nat then digits s' (10 * acc + Z.of_nat (n - 48))
      else Raises (ValueError "invalid literal for int() with base 10")
  end.

Definition py_int (s : string) : outcome Z :=
  match s with
  | EmptyString => Raises (ValueError "invalid literal for int() with base 10")
  | _ => digits s 0
  end.

(** The networks that [init_scope] builds stand for nothing here. *)
Definition init_scope (args : InitArgs) (idim odim : Z) (subsample : list Z)
           (sos eos : Z) : unit := tt.

Definition E2E_init := E2ESetup.E2E_init py_int unit init_scope.

(** A pyramid BLSTM encoder of four layers and a VGG front end. *)
Definition blstmp_args : InitArgs := mkInitArgs (Finite (1 # 2)) "blstmp" 4 "1_2_2_1_1".
Definition vgg_args : InitArgs := mkInitArgs (Finite (1 # 2)) "vggblstmp" 4 "1_2_2_1_1".

(** A validation json of one utterance: 83-dimensional features, 52
    output symbols and a 512-dimensional second input. *)
Definition dim_json : list (string * Utt) :=
  [("utt1", mkUttJson [mkEntry [120; 83]; mkEntry [512; 1]] [mkEntry [14; 52]])].

(** The communicator of a master with one worker holds the worker's
    gradients; reducing adds them to the master's, entry by entry. *)
Definition reduce (worker grads : list (option float)) : list (option float) :=
  map (fun gw => match gw with
                 | (Some g, Some w) => Some (Toy.fadd g w)
                 | _ => None
                 end) (combine grads worker).

Definition parallel_update_core :=
  AsrSetup.parallel_update_core
    Z Z unit unit Z Toy.enc Toy.ctc Toy.dec Toy.fadd Toy.fsub Toy.fmul Toy.fsqrt
    float Toy.device_of Toy.dot Toy.backward_finite nat Toy.optimizer_update
    Z (list Z) Toy.next Toy.converter (list (option float)) reduce.

(** A master whose own gradient is finite, beside a worker whose gradient
    has a NaN. *)
Definition parallel_updater
  : AsrSetup.ParallelUpdater Z float nat (list Z) (list (option float)) :=
  AsrSetup.mkParallelUpdater Toy.updater (Some [Some NaN; None; Some (of_Z 1)]) [].

End Instances.


(* ===================================================================== *)
(** * Facts about the Python run-time notions *)
(* ===================================================================== *)

Module PyFacts.

Lemma bind_Returns {A B : Type} (m : outcome A) (k : A -> outcome B) (b : B) :
  bind m k = Returns b -> exists a, m = Returns a /\ k a = Returns b.
Proof.
  destruct m as [a| |]; simpl; intros H; try discriminate.
  exists a; split; [reflexivity | exact H].
Qed.

Lemma len_nonneg {A : Type} (l : list A) : 0 <= len l.
Proof. unfold len; lia. Qed.

Lemma len_app {A : Type} (l1 l2 : list A) : len (l1 ++ l2) = len l1 + len l2.
Proof. unfold len; rewrite length_app; lia. Qed.

Lemma len_rev {A : Type} (l : list A) : len (rev l) = len l.
Proof. unfold len; now rewrite length_rev. Qed.

(** ** Slices *)

Lemma slice_inside {A : Type} (l : list A) (lo hi : Z) :
  0 <= lo -> lo <= hi -> hi <= len l ->
  slice l lo hi = firstn (Z.to_nat (hi - lo)) (skipn (Z.to_nat lo) l).
Proof.
  intros H0 H1 H2. unfold slice, slice_bound.
  destruct (Z.ltb_spec lo 0); [lia|].
  destruct (Z.ltb_spec hi 0); [lia|].
  now rewrite !Z.min_l by lia.
Qed.

Lemma len_slice_inside {A : Type} (l : list A) (lo hi : Z) :
  0 <= lo -> lo <= hi -> hi <= len l -> len (slice l lo hi) = hi - lo.
Proof.
  intros H0 H1 H2. rewrite slice_inside by assumption.
  unfold len in *. rewrite length_firstn, length_skipn. lia.
Qed.

Lemma slice_prefix {A : Type} (l : list A) (hi : Z) :
  0 < hi -> slice l 0 hi = firstn (Z.to_nat hi) l.
Proof.
  intros H. unfold slice, slice_bound.
  destruct (Z.ltb_spec hi 0); [lia|].
  change (0 <? 0) with false. cbv iota.
  rewrite (Z.min_l 0 (len l)) by apply len_nonneg.
  change (Z.to_nat 0) with 0%nat. rewrite Z.sub_0_r. simpl skipn.
  destruct (Z.le_ge_cases hi (len l)).
  - now rewrite Z.min_l by assumption.
  - rewrite Z.min_r by assumption. unfold len in *.
  rewrite !firstn_all2; trivial; lia.
Qed.

Lemma incl_slice {A : Type} (l : list A) (lo hi : Z) : incl (slice l lo hi) l.
Proof.
  unfold slice. intros x Hx.
  set (n := Z.to_nat (slice_bound (len l) lo)) in *.
  set (m := Z.to_nat (slice_bound (len l) hi - slice_bound (len l) lo)) in *.
  rewrite <- (firstn_skipn n l). apply in_or_app. right.
  rewrite <- (firstn_skipn m (skipn n l)). apply in_or_app. now left.
Qed.

Lemma Forall_slice {A : Type} (P : A -> Prop) (l : list A) (lo hi : Z) :
  Forall P l -> Forall P (slice l lo hi).
Proof.
  intros H. apply Forall_forall. intros x Hx.
  rewrite Forall_forall in H. apply H. eapply incl_slice; eassumption.
Qed.

(** ** Indexing *)

Lemma getitem_Returns {A : Type} (l : list A) (i : Z) (x : A) :
  0 <= i -> getitem l i = Returns x -> nth_error l (Z.to_nat i) = Some x /\ i < len l.
Proof.
  intros Hi. unfold getitem.
  destruct (Z.ltb_spec i 0); [lia|].
  destruct (Z.ltb_spec i 0); [lia|].
  destruct (nth_error l (Z.to_nat i)) eqn:E; intros Hx; inversion Hx; subst.
  split; [reflexivity|].
  assert (Z.to_nat i < List.length l)%nat by (apply nth_error_Some; congruence).
  unfold len; lia.
Qed.

Lemma getitem_nth {A : Type} (l : list A) (i : Z) (x : A) :
  0 <= i -> nth_error l (Z.to_nat i) = Some x -> getitem l i = Returns x.
Proof.
  intros Hi H. unfold getitem.
  destruct (Z.ltb_spec i 0); [lia|].
  destruct (Z.ltb_spec i 0); [lia|].
  now rewrite H.
Qed.

Lemma getitem_inside {A : Type} (l : list A) (i : Z) :
  0 <= i < len l -> exists x, getitem l i = Returns x.
Proof.
  intros Hi.
  destruct (nth_error l (Z.to_nat i)) eqn:E.
  - exists a. apply getitem_nth; [lia | assumption].
  - apply nth_error_None in E. unfold len in Hi. lia.
Qed.

Lemma mapM_Returns {A B : Type} (f : A -> outcome B) (l : list A) (ys : list B) :
  mapM f l = Returns ys -> Forall2 (fun x y => f x = Returns y) l ys.
Proof.
  revert ys. induction l as [|x l IH]; simpl; intros ys H.
  - inversion H. constructor.
  - apply bind_Returns in H. destruct H as (y & Hy & H).
  apply bind_Returns in H. destruct H as (ys' & Hys & H).
  inversion H; subst. constructor; auto.
Qed.

Lemma mapM_total {A B : Type} (f : A -> outcome B) (l : list A) :
  Forall (fun x => exists y, f x = Returns y) l -> exists ys, mapM f l = Returns ys.
Proof.
  induction 1 as [|x l (y & Hy) _ (ys & Hys)]; simpl.
  - now exists [].
  - exists (y :: ys). now rewrite Hy, Hys.
Qed.

(** ** Integer division *)

Lemma int_truediv_floor (a b : Z) :
  0 <= a -> 0 < b -> int_truediv a b = Returns (a / b).
Proof.
  intros Ha Hb. unfold int_truediv.
  destruct (Z.eqb_spec b 0); [lia|].
  now rewrite Z.quot_div_nonneg by lia.
Qed.

Lemma int_truediv_nonzero (a b : Z) : b <> 0 -> int_truediv a b = Returns (Z.quot a b).
Proof. intros H. unfold int_truediv. destruct (Z.eqb_spec b 0); [contradiction | reflexivity]. Qed.

Lemma max1_quot_floor (a b : Z) : 0 < b -> Z.max 1 (Z.quot a b) = Z.max 1 (a / b).
Proof.
  intros Hb. destruct (Z.le_gt_cases 0 a) as [Ha|Ha].
  - now rewrite Z.quot_div_nonneg by lia.
  - assert (Hq : Z.quot a b <= 0) by (apply Z.quot_le_upper_bound; lia).
  assert (Hd : a / b < 0) by (apply Z.div_lt_upper_bound; lia).
  lia.
Qed.

(** ** Random draws *)

Lemma randint_Returns (low high size : Z) (r r' : Rng) (idx : list Z) :
  randint low high size r = Returns (idx, r') ->
  low < high /\ 0 <= size /\ len idx = size /\ Forall (fun i => low <= i < high) idx.
Proof.
  unfold randint.
  destruct (Z.leb_spec high low); [discriminate|].
  destruct (Z.ltb_spec size 0); [discriminate|].
  intros E; inversion E; subst; clear E.
  repeat split; try lia.
  - unfold len, rng_take. rewrite !length_map, length_seq. lia.
  - apply Forall_forall. intros i Hi. apply in_map_iff in Hi.
  destruct Hi as (x & <- & _).
  pose proof (Z.mod_pos_bound x (high - low)). lia.
Qed.

Lemma randint_empty (high size : Z) (r : Rng) :
  high <= 0 -> randint 0 high size r = Raises (ValueError "low >= high").
Proof.
  intros H. unfold randint. destruct (Z.leb_spec high 0); [reflexivity | lia].
Qed.

Lemma pick_Permutation {A : Type} (j : nat) (l rest : list A) (x : A) :
  pick j l = Some (x, rest) -> Permutation (x :: rest) l.
Proof.
  revert j rest x. induction l as [|y l IH]; intros [|j] rest x; simpl; try discriminate.
  - intros E; inversion E; subst. reflexivity.
  - destruct (pick j l) as [[z rest']|] eqn:E; [|discriminate].
  intros E'; inversion E'; subst.
  rewrite perm_swap. constructor. eauto.
Qed.

Lemma pick_inside {A : Type} (j : nat) (l : list A) :
  (j < List.length l)%nat -> exists x rest, pick j l = Some (x, rest).
Proof.
  revert j. induction l as [|y l IH]; intros [|j]; simpl; intros H; try lia.
  - eauto.
  - destruct (IH j) as (x & rest & E); [lia|]. rewrite E. eauto.
Qed.

(** [random.sample(l, len(l))] is a rearrangement of [l], whatever the tape. *)
Lemma random_sample_Permutation {A : Type} (l : list A) (r : Rng) :
  Permutation (random_sample (List.length l) l r) l.
Proof.
  remember (List.length l) as k eqn:Hk. revert l r Hk.
  induction k as [|k IH]; intros l r Hk; simpl.
  - destruct l; [constructor | discriminate].
  - destruct (pick_inside (Z.to_nat (r 0%nat mod len l)) l) as (x & rest & E).
  { pose proof (Z.mod_pos_bound (r 0%nat) (len l)). unfold len in *. lia. }
  rewrite E. pose proof (pick_Permutation _ _ _ _ E) as HP.
  rewrite <- HP. constructor. apply IH.
  apply Permutation_length in HP. simpl in HP. lia.
Qed.

Lemma random_sample_ext {A : Type} (k : nat) :
  forall (l : list A) (r1 r2 : Rng),
    (forall i, r1 i = r2 i) -> random_sample k l r1 = random_sample k l r2.
Proof.
  induction k as [|k IH]; intros l r1 r2 H; simpl; [reflexivity|].
  rewrite (H 0%nat). destruct (pick _ l) as [[x rest]|]; [|reflexivity].
  f_equal. apply IH. intros i. unfold rng_drop. apply H.
Qed.

Lemma pick_In {A : Type} (x : A) (l : list A) :
  In x l -> exists j rest, (j < List.length l)%nat /\ pick j l = Some (x, rest).
Proof.
  induction l as [|y l IH]; intros H; [contradiction|].
  destruct H as [->|H].
  - exists 0%nat, l. split; [simpl; lia | reflexivity].
  - destruct (IH H) as (j & rest & Hj & E).
    exists (S j), (y :: rest). split; [simpl; lia|]. simpl. now rewrite E.
Qed.

(** Conversely, every rearrangement of [l] is the sample of some tape: the
    tape model leaves out no outcome of [random.sample]. *)
Lemma random_sample_complete {A : Type} (p : list A) :
  forall l : list A, Permutation p l ->
                     exists r : Rng, random_sample (List.length l) l r = p.
Proof.
  induction p as [|x p IH]; intros l HP.
  - apply Permutation_nil in HP. subst. exists (fun _ => 0). reflexivity.
  - destruct (pick_In x l) as (j & rest & Hj & E).
    { eapply Permutation_in; [exact HP | now left]. }
    pose proof (pick_Permutation _ _ _ _ E) as HP'.
    assert (Hrest : Permutation p rest).
    { eapply Permutation_cons_inv. rewrite HP. symmetry. exact HP'. }
    destruct (IH rest Hrest) as (r' & Hr').
    exists (fun i => match i with O => Z.of_nat j | S i' => r' i' end).
    rewrite <- (Permutation_length HP'). simpl.
    rewrite Z.mod_small by (unfold len; lia). rewrite Nat2Z.id, E.
    f_equal. rewrite <- Hr'. apply random_sample_ext. reflexivity.
Qed.

Lemma map_nth_seq {A : Type} (l : list A) (d : A) :
  map (fun i => nth i l d) (seq 0 (List.length l)) = l.
Proof.
  induction l as [|x l IH]; [reflexivity|].
  simpl List.length. cbn [seq map nth]. f_equal.
  rewrite <- seq_shift, map_map. exact IH.
Qed.

(** Every list of integers in [low, high) is drawn by some tape. *)
Lemma randint_complete (low high : Z) (idx : list Z) :
  low < high -> Forall (fun i => low <= i < high) idx ->
  exists r : Rng, randint low high (len idx) r = Returns (idx, rng_drop (List.length idx) r).
Proof.
  intros Hlh Hidx. exists (fun i => nth i idx low - low).
  unfold randint.
  destruct (Z.leb_spec high low); [lia|].
  destruct (Z.ltb_spec (len idx) 0); [pose proof (len_nonneg idx); lia|].
  unfold len. rewrite Nat2Z.id. f_equal. f_equal.
  unfold rng_take. rewrite map_map.
  transitivity (map (fun i => nth i idx low) (seq 0 (List.length idx)));
    [|apply map_nth_seq].
  apply map_ext_in. intros i Hi. apply in_seq in Hi.
  rewrite Forall_forall in Hidx.
  assert (Hin : low <= nth i idx low < high) by (apply Hidx, nth_In; lia).
  rewrite Z.mod_small by lia. lia.
Qed.

(** ** Sorting *)

Section SortedFacts.
Context {A : Type} (key : A -> Z).

Local Abbreviation ascending := (ascending key).
Local Abbreviation descending := (descending key).

Lemma insert_asc_Permutation (x : A) (l : list A) :
  Permutation (insert_asc key x l) (x :: l).
Proof.
  induction l as [|y l IH]; simpl; [reflexivity|].
  destruct (key x <=? key y); [reflexivity|].
  rewrite IH. apply perm_swap.
Qed.

Lemma sort_asc_Permutation (l : list A) : Permutation (sort_asc key l) l.
Proof.
  induction l as [|x l IH]; simpl; [constructor|].
  rewrite insert_asc_Permutation. now constructor.
Qed.

Lemma sorted_Permutation (l : list A) (reverse : bool) :
  Permutation (sorted key l reverse) l.
Proof.
  unfold sorted. destruct reverse.
  - rewrite <- Permutation_rev, sort_asc_Permutation. symmetry. apply Permutation_rev.
  - apply sort_asc_Permutation.
Qed.

Lemma insert_asc_sorted (x : A) (l : list A) :
  StronglySorted ascending l -> StronglySorted ascending (insert_asc key x l).
Proof.
  induction 1 as [|y l Hs IH Hy]; simpl.
  - repeat constructor.
  - destruct (Z.leb_spec (key x) (key y)).
  + constructor; [constructor; assumption|].
    constructor; [assumption|].
    eapply Forall_impl; [|exact Hy]. unfold ascending; intros; lia.
  + constructor; [assumption|].
    apply Forall_forall. intros z Hz.
    apply (Permutation_in _ (insert_asc_Permutation x l)) in Hz.
    destruct Hz as [<-|Hz]; [unfold ascending; lia|].
    rewrite Forall_forall in Hy. now apply Hy.
Qed.

Lemma sort_asc_sorted (l : list A) : StronglySorted ascending (sort_asc key l).
Proof.
  induction l as [|x l IH]; simpl; [constructor | now apply insert_asc_sorted].
Qed.

Lemma StronglySorted_app_inv (R : A -> A -> Prop) (l1 l2 : list A) :
  StronglySorted R l1 -> StronglySorted R l2 ->
  (forall a b, In a l1 -> In b l2 -> R a b) ->
  StronglySorted R (l1 ++ l2).
Proof.
  induction 1 as [|x l1 Hs IH Hx]; simpl; intros H2 H12; [assumption|].
  constructor.
  - apply IH; [assumption|]. intros; apply H12; [now right | assumption].
  - apply Forall_app. split; [assumption|].
  apply Forall_forall. intros b Hb. apply H12; [now left | assumption].
Qed.

Lemma rev_ascending (l : list A) :
  StronglySorted ascending l -> StronglySorted descending (rev l).
Proof.
  induction 1 as [|x l Hs IH Hx]; simpl; [constructor|].
  apply StronglySorted_app_inv; [assumption | repeat constructor |].
  intros a b Ha [<-|[]]. apply in_rev in Ha.
  rewrite Forall_forall in Hx. now apply Hx.
Qed.

(** With [reverse=True] the result is in descending order of the key. *)
Lemma sorted_reverse_descending (l : list A) :
  StronglySorted descending (sorted key l true).
Proof. unfold sorted. apply rev_ascending, sort_asc_sorted. Qed.

Lemma sorted_ascending (l : list A) :
  StronglySorted ascending (sorted key l false).
Proof. unfold sorted. apply sort_asc_sorted. Qed.

Lemma StronglySorted_nth (R : A -> A -> Prop) (l : list A) (i j : nat) (x y : A) :
  StronglySorted R l -> (i < j)%nat ->
  nth_error l i = Some x -> nth_error l j = Some y -> R x y.
Proof.
  intros Hs. revert i j. induction Hs as [|z l Hs IH Hz]; intros i j Hij Hi Hj.
  - destruct i; discriminate.
  - destruct j as [|j]; [lia|]. simpl in Hj. destruct i as [|i]; simpl in Hi.
  + inversion Hi; subst. rewrite Forall_forall in Hz.
    apply Hz. eapply nth_error_In; eassumption.
  + eapply IH; [|eassumption|eassumption]. lia.
Qed.
End SortedFacts.

End PyFacts.

Import PyFacts.

(* ===================================================================== *)
(** * The batch plan of [make_batchset] *)
(* ===================================================================== *)

Module PlanFacts.
Import TtsUtils.

Lemma len_maybe_rev {A : Type} (b : bool) (l : list A) : len (maybe_rev b l) = len l.
Proof. destruct b; simpl; [apply len_rev | reflexivity]. Qed.

Lemma maybe_rev_Permutation {A : Type} (b : bool) (l : list A) :
  Permutation (maybe_rev b l) l.
Proof. destruct b; simpl; [symmetry; apply Permutation_rev | reflexivity]. Qed.

Section Plan.
Variables (batch_size max_length_in max_length_out : Z).
Variable batch_sort_key : string.
Variable min_batch_size : Z.
Variable shortest_first : bool.
Variable sorted_data : list Item.

Local Abbreviation window_end :=
  (window_end batch_size max_length_in max_length_out batch_sort_key sorted_data).
Local Abbreviation pad_minibatch := (pad_minibatch min_batch_size shortest_first sorted_data).
Local Abbreviation make_minibatch := (make_minibatch min_batch_size shortest_first sorted_data).
Local Abbreviation batch_loop :=
  (batch_loop batch_size max_length_in max_length_out batch_sort_key
              min_batch_size shortest_first sorted_data).
Local Abbreviation padding := (padding min_batch_size shortest_first sorted_data).
Local Abbreviation minibatch_of := (minibatch_of min_batch_size shortest_first sorted_data).
Local Abbreviation plan_from :=
  (plan_from batch_size max_length_in max_length_out batch_sort_key
             min_batch_size shortest_first sorted_data).

Lemma pad_minibatch_Returns (start : Z) (w mb : list Item) (r r' : Rng) :
  pad_minibatch start (maybe_rev shortest_first w) r = Returns (mb, r') ->
  exists pad, mb = maybe_rev shortest_first w ++ pad /\ padding start w pad.
Proof.
  unfold pad_minibatch. rewrite len_maybe_rev.
  destruct (Z.ltb_spec (len w) min_batch_size) as [Hlt|Hge].
  - intros H. apply bind_Returns in H. destruct H as ([idx r1] & Hr & H).
  apply bind_Returns in H. destruct H as (drawn & Hd & H).
  inversion H; subst; clear H.
  exists (maybe_rev shortest_first drawn). split; [reflexivity|].
  right. split; [assumption|].
  apply randint_Returns in Hr. destruct Hr as (Hs & _ & Hlen & Hidx).
  apply mapM_Returns in Hd.
  exists idx, drawn. repeat split; try assumption.
  clear - Hidx Hd. induction Hd as [|i it idx drawn Hi _ IH]; constructor.
  + inversion Hidx; subst. apply getitem_Returns in Hi; [tauto | lia].
  + inversion Hidx; subst. auto.
  - intros H. inversion H; subst. exists []. split.
  + now rewrite app_nil_r.
  + left. now split.
Qed.

Lemma make_minibatch_Returns (start end_ : Z) (mb : list Item) (r r' : Rng) :
  make_minibatch start end_ r = Returns (mb, r') -> minibatch_of start end_ mb.
Proof. unfold make_minibatch. apply pad_minibatch_Returns. Qed.

(** Whatever the loop returns is the plan accumulated so far followed by a
plan built from [start]. *)
Lemma batch_loop_Returns (fuel : nat) :
  forall (start : Z) (acc : list (list Item)) (r : Rng) (plan : list (list Item)),
  batch_loop fuel start acc r = Returns plan ->
  exists rest, plan = acc ++ rest /\ plan_from start rest.
Proof.
  induction fuel as [|fuel IH]; intros start acc r plan H; simpl in H; [discriminate|].
  apply bind_Returns in H. destruct H as (end_ & He & H).
  apply bind_Returns in H. destruct H as ([mb r'] & Hm & H).
  apply make_minibatch_Returns in Hm.
  destruct (Z.eqb_spec end_ (len sorted_data)) as [->|Hne].
  - inversion H; subst. exists [mb]. split; [reflexivity|]. now constructor.
  - apply IH in H. destruct H as (rest & -> & Hrest).
  exists (mb :: rest). split; [now rewrite <- app_assoc|].
  econstructor; eassumption.
Qed.

(** Every minibatch of a plan has at least [min_batch_size] entries. *)
Lemma minibatch_of_len (start end_ : Z) (mb : list Item) :
  minibatch_of start end_ mb -> min_batch_size <= len mb.
Proof.
  intros (pad & -> & [[Hge ->]|(Hlt & idx & drawn & Hlen & _ & Hd & ->)]).
  - rewrite app_nil_r, len_maybe_rev. assumption.
  - rewrite len_app, !len_maybe_rev.
  assert (len drawn = len idx) as ->.
  { unfold len. f_equal. symmetry. eapply Forall2_length; eassumption. }
  rewrite Hlen. pose proof (len_nonneg (slice sorted_data start end_)).
  rewrite Z.mod_small by lia. lia.
Qed.

Lemma plan_from_Forall (P : list Item -> Prop) :
  (forall start end_ mb, minibatch_of start end_ mb -> P mb) ->
  forall start plan, plan_from start plan -> Forall P plan.
Proof.
  intros HP. induction 1; constructor; eauto.
Qed.
End Plan.


(** ** The ordering step *)

Lemma sort_data_length_sorted (key : string) (sf : bool) (data : list Item) (r : Rng) :
  length_sorted_key key ->
  sort_data key sf data r = Returns (sorted (sort_length key) data (negb sf), r).
Proof.
  intros [-> | ->]; reflexivity.
Qed.

Lemma sort_data_shuffle (sf : bool) (data : list Item) (r : Rng) :
  sort_data "shuffle" sf data r =
  Returns (random_sample (List.length data) data r, rng_drop (List.length data) r).
Proof. reflexivity. Qed.

Lemma sort_data_invalid (key : string) (sf : bool) (data : list Item) (r : Rng) :
  ~ valid_sort_key key ->
  sort_data key sf data r =
  Raises (ValueError "batch_sort_key should be selected from None, input, and output.").
Proof.
  intros H. unfold sort_data.
  destruct (String.eqb_spec key "shuffle") as [->|_]; [exfalso; apply H; left; reflexivity|].
  destruct (String.eqb_spec key "input") as [->|_];
    [exfalso; apply H; right; left; reflexivity|].
  destruct (String.eqb_spec key "output") as [->|_];
    [exfalso; apply H; right; right; reflexivity|].
  reflexivity.
Qed.

Lemma sort_data_Returns (key : string) (sf : bool) (data sd : list Item) (r r1 : Rng) :
  sort_data key sf data r = Returns (sd, r1) ->
  valid_sort_key key /\ Permutation sd data.
Proof.
  unfold sort_data, valid_sort_key.
  destruct (String.eqb_spec key "shuffle") as [->|_].
  { intros H; inversion H; subst. split; [auto | apply random_sample_Permutation]. }
  destruct (String.eqb_spec key "input") as [->|_].
  { intros H; inversion H; subst. split; [auto | apply sorted_Permutation]. }
  destruct (String.eqb_spec key "output") as [->|_].
  { intros H; inversion H; subst. split; [auto | apply sorted_Permutation]. }
  discriminate.
Qed.

Lemma len_Permutation {A : Type} (l1 l2 : list A) : Permutation l1 l2 -> len l1 = len l2.
Proof. intros H. unfold len. now rewrite (Permutation_length H). Qed.

(** ** Windows of a length-sorted corpus *)

Lemma window_end_length_sorted (bs max_in max_out : Z) (key : string)
      (sd : list Item) (start : Z) (first : Item) :
  length_sorted_key key -> 0 <= start ->
  nth_error sd (Z.to_nat start) = Some first ->
  window_end bs max_in max_out key sd start =
    (qi <- int_truediv (ilen first) max_in ;;
     qo <- int_truediv (olen first) max_out ;;
     q <- int_truediv bs (1 + Z.max qi qo) ;;
     Returns (Z.min (len sd) (start + Z.max 1 q))).
Proof.
  intros Hk H0 Hn. unfold window_end.
  assert (String.eqb key "shuffle" = false) as -> by (destruct Hk as [-> | ->]; reflexivity).
  now rewrite (getitem_nth _ _ _ H0 Hn).
Qed.

(** In the length-sorted modes a window that starts inside the corpus ends
    strictly after its start and inside the corpus. *)
Lemma window_end_progress (bs max_in max_out : Z) (key : string)
      (sd : list Item) (start end_ : Z) :
  length_sorted_key key -> 0 <= start ->
  window_end bs max_in max_out key sd start = Returns end_ ->
  start < end_ <= len sd /\ exists first, nth_error sd (Z.to_nat start) = Some first.
Proof.
  intros Hk H0. unfold window_end.
  assert (String.eqb key "shuffle" = false) as -> by (destruct Hk as [-> | ->]; reflexivity).
  intros H. apply bind_Returns in H. destruct H as (first & Hf & H).
  apply getitem_Returns in Hf; [|assumption]. destruct Hf as [Hn Hlt].
  apply bind_Returns in H. destruct H as (qi & _ & H).
  apply bind_Returns in H. destruct H as (qo & _ & H).
  apply bind_Returns in H. destruct H as (q & _ & H).
  inversion H; subst. split; [lia | eauto].
Qed.

Lemma hd_error_skipn {A : Type} (l : list A) (n : nat) :
  hd_error (skipn n l) = nth_error l n.
Proof.
  revert l. induction n as [|n IH]; intros [|x l]; simpl; auto.
Qed.

Lemma hd_error_slice {A : Type} (l : list A) (lo hi : Z) :
  0 <= lo -> lo < hi -> hi <= len l ->
  hd_error (slice l lo hi) = nth_error l (Z.to_nat lo).
Proof.
  intros H0 H1 H2. rewrite slice_inside by lia.
  rewrite <- hd_error_skipn.
  destruct (Z.to_nat (hi - lo)) eqn:E; [lia|].
  destruct (skipn (Z.to_nat lo) l); reflexivity.
Qed.

Lemma StronglySorted_skipn {A : Type} (R : A -> A -> Prop) (l : list A) (n : nat) :
  StronglySorted R l -> StronglySorted R (skipn n l).
Proof.
  revert l. induction n as [|n IH]; intros l H; [assumption|].
  destruct H; simpl; [constructor | auto].
Qed.

Lemma StronglySorted_firstn {A : Type} (R : A -> A -> Prop) (l : list A) (n : nat) :
  StronglySorted R l -> StronglySorted R (firstn n l).
Proof.
  revert l. induction n as [|n IH]; intros l H; [constructor|].
  destruct H as [|x l Hs Hx]; simpl; [constructor|].
  constructor; [auto|].
  apply Forall_forall. intros y Hy. rewrite Forall_forall in Hx. apply Hx.
  rewrite <- (firstn_skipn n l). apply in_or_app. now left.
Qed.

Lemma StronglySorted_slice {A : Type} (R : A -> A -> Prop) (l : list A) (lo hi : Z) :
  StronglySorted R l -> StronglySorted R (slice l lo hi).
Proof.
  intros H. unfold slice. now apply StronglySorted_firstn, StronglySorted_skipn.
Qed.


End PlanFacts.

Import TtsUtils PlanFacts.

Lemma make_batchset_Returns (fuel : nat) (r : Rng) (data : list Item)
      (bs max_in max_out num : Z) (key : string) (mbs : Z) (sf : bool)
      (plan : list (list Item)) :
  make_batchset fuel r data bs max_in max_out num key mbs sf = Returns plan ->
  exists sd r1 full,
    sort_data key sf data r = Returns (sd, r1) /\
    mbs <= len sd /\
    plan_from bs max_in max_out key mbs sf sd 0 full /\
    plan = (if num >? 0 then slice full 0 num else full).
Proof.
  unfold make_batchset, make_batchset_body. intros H.
  apply bind_Returns in H. destruct H as ([sd r1] & Hs & H).
  destruct (Z.ltb_spec (len sd) mbs) as [|Hge]; [discriminate|].
  apply bind_Returns in H. destruct H as (full & Hl & H).
  apply batch_loop_Returns in Hl. destruct Hl as (rest & -> & Hp).
  inversion H; subst. simpl app. eauto 10.
Qed.

Section AdaptiveExample.
Variables (i1 i2 max_out : Z).

Local Abbreviation ex_u1 := (ex_u1 i1).
Local Abbreviation ex_u2 := (ex_u2 i2).


End AdaptiveExample.

(** The window of a length-sorted corpus, in terms of floor division. *)
Lemma adaptive_window (data sd : list Item) (r r1 : Rng) (key : string) (sf : bool)
      (bs max_in max_out start : Z) (first : Item) :
  length_sorted_key key -> 0 < max_in -> 0 < max_out ->
  Forall (fun it => 0 <= ilen it /\ 0 <= olen it) data ->
  sort_data key sf data r = Returns (sd, r1) ->
  0 <= start -> nth_error sd (Z.to_nat start) = Some first ->
  let factor := Z.max (ilen first / max_in) (olen first / max_out) in
  let size := Z.max 1 (bs / (1 + factor)) in
  let end_ := Z.min (len sd) (start + size) in
  window_end bs max_in max_out key sd start = Returns end_ /\
  hd_error (slice sd start end_) = Some first.
Proof.
  intros Hk Hin Hout Hwf Hs H0 Hn factor size end_.
  pose proof (sort_data_Returns _ _ _ _ _ _ Hs) as [_ HP].
  assert (Hfirst : 0 <= ilen first /\ 0 <= olen first).
  { rewrite Forall_forall in Hwf. apply Hwf.
    eapply Permutation_in; [exact HP|]. eapply nth_error_In; eassumption. }
  assert (Hlt : start < len sd).
  { assert (Z.to_nat start < List.length sd)%nat by (apply nth_error_Some; congruence).
    unfold len; lia. }
  assert (Hf : 0 <= factor).
  { unfold factor. pose proof (Z.div_pos (ilen first) max_in). lia. }
  assert (Hend : start < end_ <= len sd) by (unfold end_, size; lia).
  split.
  - rewrite (window_end_length_sorted _ _ _ _ _ _ first) by assumption.
    rewrite !int_truediv_floor by lia. cbn [bind].
    rewrite int_truediv_nonzero by (fold factor; lia). cbn [bind].
    fold factor. rewrite max1_quot_floor by lia. reflexivity.
  - rewrite hd_error_slice by lia. assumption.
Qed.



(** ** Padding *)

Lemma pad_minibatch_total (mbs : Z) (sf : bool) (sd w : list Item) (start : Z) (r : Rng) :
  0 < start <= len sd -> len w < mbs ->
  exists mb r', pad_minibatch mbs sf sd start w r = Returns (mb, r').
Proof.
  intros Hs Hw. unfold pad_minibatch.
  destruct (Z.ltb_spec (len w) mbs) as [_|]; [|lia].
  destruct (randint 0 start (mbs - len w mod mbs) r) as [[idx r']| |] eqn:E.
  - cbn [bind]. apply randint_Returns in E. destruct E as (_ & _ & _ & Hidx).
    destruct (mapM_total (getitem sd) idx) as (drawn & ->).
    { eapply Forall_impl; [|exact Hidx]. intros i Hi. cbv beta in Hi. apply getitem_inside. lia. }
    cbn [bind]. eauto.
  - exfalso. revert E. unfold randint.
    pose proof (len_nonneg w). rewrite Z.mod_small by lia.
    destruct (Z.leb_spec start 0); [lia|].
    destruct (Z.ltb_spec (mbs - len w) 0); [intros _; lia | discriminate].
  - exfalso. revert E. unfold randint.
    destruct (start <=? 0); [discriminate|].
    destruct (mbs - len w mod mbs <? 0); discriminate.
Qed.

(** ** Termination of the loop *)

Lemma bind_fuel {A B : Type} (m : outcome A) (k : A -> outcome B) :
  m <> OutOfFuel -> (forall a, m = Returns a -> k a <> OutOfFuel) ->
  bind m k <> OutOfFuel.
Proof.
  destruct m; simpl; intros Hm Hk; [now apply Hk | discriminate | contradiction].
Qed.

Lemma getitem_fuel {A : Type} (l : list A) (i : Z) : getitem l i <> OutOfFuel.
Proof.
  unfold getitem. destruct (_ <? 0); [discriminate|].
  destruct (nth_error _ _); discriminate.
Qed.

Lemma int_truediv_fuel (a b : Z) : int_truediv a b <> OutOfFuel.
Proof. unfold int_truediv. destruct (b =? 0); discriminate. Qed.

Lemma mapM_fuel {A B : Type} (f : A -> outcome B) (l : list A) :
  (forall x, f x <> OutOfFuel) -> mapM f l <> OutOfFuel.
Proof.
  intros Hf. induction l as [|x l IH]; simpl; [discriminate|].
  apply bind_fuel; [apply Hf|]. intros y _.
  apply bind_fuel; [exact IH|]. discriminate.
Qed.

Lemma window_end_fuel (bs max_in max_out : Z) (key : string) (sd : list Item) (start : Z) :
  window_end bs max_in max_out key sd start <> OutOfFuel.
Proof.
  unfold window_end. destruct (String.eqb key "shuffle"); [discriminate|].
  apply bind_fuel; [apply getitem_fuel|]. intros first _.
  apply bind_fuel; [apply int_truediv_fuel|]. intros qi _.
  apply bind_fuel; [apply int_truediv_fuel|]. intros qo _.
  apply bind_fuel; [apply int_truediv_fuel|]. discriminate.
Qed.

Lemma make_minibatch_fuel (mbs : Z) (sf : bool) (sd : list Item) (start end_ : Z) (r : Rng) :
  make_minibatch mbs sf sd start end_ r <> OutOfFuel.
Proof.
  unfold make_minibatch, pad_minibatch.
  destruct (_ <? mbs); [|discriminate].
  apply bind_fuel.
  - unfold randint. destruct (_ <=? _); [discriminate|]. destruct (_ <? _); discriminate.
  - intros [idx r'] _. apply bind_fuel; [apply mapM_fuel; intros; apply getitem_fuel|].
    discriminate.
Qed.

(** More fuel does not change an answer. *)
Lemma batch_loop_fuel_mono (bs max_in max_out : Z) (key : string) (mbs : Z)
      (sf : bool) (sd : list Item) (fuel : nat) :
  forall (fuel' : nat) (start : Z) (acc : list (list Item)) (r : Rng),
    (fuel <= fuel')%nat ->
    batch_loop bs max_in max_out key mbs sf sd fuel start acc r <> OutOfFuel ->
    batch_loop bs max_in max_out key mbs sf sd fuel' start acc r
    = batch_loop bs max_in max_out key mbs sf sd fuel start acc r.
Proof.
  induction fuel as [|fuel IH]; intros fuel' start acc r Hle H; [now contradiction H|].
  destruct fuel' as [|fuel']; [lia|]. cbn [batch_loop] in *.
  destruct (window_end bs max_in max_out key sd start) as [end_| |]; cbn [bind] in *;
    try reflexivity.
  destruct (make_minibatch mbs sf sd start end_ r) as [[mb r']| |]; cbn [bind] in *;
    try reflexivity.
  destruct (end_ =? len sd); [reflexivity|].
  apply IH; [lia | exact H].
Qed.

Lemma make_batchset_fuel_mono (fuel fuel' : nat) (r : Rng) (data : list Item)
      (bs max_in max_out num : Z) (key : string) (mbs : Z) (sf : bool) :
  (fuel <= fuel')%nat ->
  make_batchset fuel r data bs max_in max_out num key mbs sf <> OutOfFuel ->
  make_batchset fuel' r data bs max_in max_out num key mbs sf
  = make_batchset fuel r data bs max_in max_out num key mbs sf.
Proof.
  intros Hle. unfold make_batchset, make_batchset_body.
  destruct (sort_data key sf data r) as [[sd r1]| |]; cbn [bind]; try reflexivity.
  destruct (len sd <? mbs); [reflexivity|]. intros H.
  rewrite (batch_loop_fuel_mono _ _ _ _ _ _ _ fuel fuel'); [reflexivity | exact Hle |].
  intros E. apply H. now rewrite E.
Qed.

(** In the length-sorted modes the loop ends (with a plan or an exception)
    within as many iterations as entries remain. *)
Lemma batch_loop_fuel_length_sorted (bs max_in max_out : Z) (key : string) (mbs : Z)
      (sf : bool) (sd : list Item) (fuel : nat) :
  length_sorted_key key ->
  forall (start : Z) (acc : list (list Item)) (r : Rng),
    0 <= start -> len sd - start <= Z.of_nat fuel -> (0 < fuel)%nat ->
    batch_loop bs max_in max_out key mbs sf sd fuel start acc r <> OutOfFuel.
Proof.
  intros Hk. induction fuel as [|fuel IH]; intros start acc r H0 Hf Hpos; [lia|].
  cbn [batch_loop].
  apply bind_fuel; [apply window_end_fuel|]. intros end_ He.
  apply bind_fuel; [apply make_minibatch_fuel|]. intros [mb r'] _.
  destruct (Z.eqb_spec end_ (len sd)); [discriminate|].
  apply window_end_progress in He; [|assumption|assumption].
  apply IH; lia.
Qed.

Lemma make_batchset_fuel_length_sorted (fuel : nat) (r : Rng) (data : list Item)
      (bs max_in max_out num : Z) (key : string) (mbs : Z) (sf : bool) :
  length_sorted_key key -> (List.length data < fuel)%nat ->
  make_batchset fuel r data bs max_in max_out num key mbs sf <> OutOfFuel.
Proof.
  intros Hk Hf. unfold make_batchset, make_batchset_body.
  rewrite sort_data_length_sorted by assumption. cbn [bind].
  destruct (_ <? mbs); [discriminate|].
  apply bind_fuel; [|discriminate].
  apply batch_loop_fuel_length_sorted; try assumption; try lia.
  rewrite (len_Permutation _ _ (sorted_Permutation _ _ _)). unfold len. lia.
Qed.

(** ** First entries of the minibatches of a length-sorted plan *)

Lemma hd_error_app_nonempty {A : Type} (l1 l2 : list A) (x : A) :
  hd_error l1 = Some x -> hd_error (l1 ++ l2) = Some x.
Proof. destruct l1; [discriminate | auto]. Qed.

Lemma minibatch_of_head (bs max_in max_out : Z) (key : string) (mbs : Z)
      (sd : list Item) (start end_ : Z) (mb : list Item) :
  length_sorted_key key -> 0 <= start ->
  window_end bs max_in max_out key sd start = Returns end_ ->
  minibatch_of mbs false sd start end_ mb ->
  start < end_ <= len sd /\
  exists x, nth_error sd (Z.to_nat start) = Some x /\ hd_error mb = Some x.
Proof.
  intros Hk H0 He (pad & -> & _).
  apply window_end_progress in He; [|assumption|assumption].
  destruct He as (Hlt & first & Hn). split; [assumption|].
  exists first. split; [assumption|].
  apply hd_error_app_nonempty. unfold maybe_rev.
  rewrite hd_error_slice by lia. assumption.
Qed.

Lemma plan_from_heads (bs max_in max_out : Z) (key : string) (mbs : Z)
      (length_of : Item -> Z) (sd : list Item) (start : Z) (plan : list (list Item)) :
  length_sorted_key key ->
  StronglySorted (descending length_of) sd ->
  plan_from bs max_in max_out key mbs false sd start plan -> 0 <= start ->
  Forall (fun mb => exists s x, start <= s /\ nth_error sd (Z.to_nat s) = Some x /\
                                hd_error mb = Some x) plan /\
  StronglySorted (head_not_shorter length_of) plan.
Proof.
  intros Hk Hs. induction 1 as [start mb He Hmb | start end_ mb rest He Hne Hmb Hrest IH];
    intros H0.
  - destruct (minibatch_of_head _ _ _ _ _ _ _ _ _ Hk H0 He Hmb) as (_ & x & Hn & Hh).
    split; repeat constructor. exists start, x. repeat split; [lia | assumption..].
  - destruct (minibatch_of_head _ _ _ _ _ _ _ _ _ Hk H0 He Hmb) as (Hlt & x & Hn & Hh).
    destruct IH as [IHf IHs]; [lia|].
    split; constructor.
    + exists start, x. repeat split; [lia | assumption..].
    + eapply Forall_impl; [|exact IHf].
      intros b (s & y & Hsy & Hy & Hb). exists s, y. repeat split; [lia | assumption..].
    + assumption.
    + eapply Forall_impl; [|exact IHf].
      intros b (s & y & Hsy & Hy & Hb). exists x, y. repeat split; try assumption.
      apply (StronglySorted_nth _ _ (Z.to_nat start) (Z.to_nat s) x y Hs); [lia|assumption..].
Qed.

(** C5.  With key ['input'] (respectively ['output']) and
    [shortest_first = False], in every returned plan the first utterance of
    minibatch [i] is at least as long as the first utterance of minibatch
    [i+1], the length being the one the key sorts by: the record's [output]
    shape for ['input'] and its [input] shape for ['output'].  With more fuel
    than utterances the call ends with a plan or an exception. *)
Theorem first_utterances_descend :
  forall (fuel : nat) (r : Rng) (data : list Item) (bs max_in max_out num mbs : Z),
    (forall plan i a b,
        make_batchset fuel r data bs max_in max_out num "input" mbs false = Returns plan ->
        nth_error plan i = Some a -> nth_error plan (S i) = Some b ->
        head_not_shorter (fun it => output_shape0 (snd it)) a b) /\
    (forall plan i a b,
        make_batchset fuel r data bs max_in max_out num "output" mbs false = Returns plan ->
        nth_error plan i = Some a -> nth_error plan (S i) = Some b ->
        head_not_shorter (fun it => input_shape0 (snd it)) a b) /\
    (forall key, length_sorted_key key -> (List.length data < fuel)%nat ->
        make_batchset fuel r data bs max_in max_out num key mbs false <> OutOfFuel).
Proof.
  intros fuel r data bs max_in max_out num mbs.
  assert (Hgen : forall key plan i a b,
             length_sorted_key key ->
             make_batchset fuel r data bs max_in max_out num key mbs false = Returns plan ->
             nth_error plan i = Some a -> nth_error plan (S i) = Some b ->
             head_not_shorter (sort_length key) a b).
  { intros key plan i a b Hk H Ha Hb.
    apply make_batchset_Returns in H. destruct H as (sd & r1 & full & Hs & _ & Hp & ->).
    rewrite sort_data_length_sorted in Hs by assumption. inversion Hs; subst; clear Hs.
    eapply plan_from_heads in Hp;
      [|assumption|apply (sorted_reverse_descending (sort_length key))|lia].
    destruct Hp as [_ Hsorted].
    assert (Hsorted' : StronglySorted (head_not_shorter (sort_length key))
                         (if num >? 0 then slice full 0 num else full)).
    { destruct (num >? 0); [now apply StronglySorted_slice | assumption]. }
    eapply StronglySorted_nth; [exact Hsorted'| |eassumption|eassumption]. lia. }
  split; [|split].
  - intros plan i a b. apply (Hgen "input"). now left.
  - intros plan i a b. apply (Hgen "output"). now right.
  - intros key Hk Hf. now apply make_batchset_fuel_length_sorted.
Qed.

Lemma first_utterances_descend_witness :
  head_not_shorter (fun it => output_shape0 (snd it)) [sort_b; sort_c] [sort_a].
Proof.
  apply (proj1 (first_utterances_descend 4%nat zero_rng [sort_a; sort_b; sort_c]
                                         2 800 150 0 1)
               [[sort_b; sort_c]; [sort_a]] 0%nat); reflexivity.
Defined.

(** ** Shuffled plans *)

Lemma window_end_shuffle (bs max_in max_out : Z) (sd : list Item) (start : Z) :
  window_end bs max_in max_out "shuffle" sd start = Returns (Z.min (len sd) (start + bs)).
Proof. reflexivity. Qed.

Lemma make_minibatch_full (mbs : Z) (sf : bool) (sd : list Item) (start end_ : Z) (r : Rng) :
  mbs <= len (slice sd start end_) ->
  make_minibatch mbs sf sd start end_ r
  = Returns (maybe_rev sf (slice sd start end_), r).
Proof.
  intros H. unfold make_minibatch, pad_minibatch.
  change (if sf then rev (slice sd start end_) else slice sd start end_)
    with (maybe_rev sf (slice sd start end_)).
  rewrite len_maybe_rev.
  destruct (Z.ltb_spec (len (slice sd start end_)) mbs); [lia | reflexivity].
Qed.

Lemma slice_suffix {A : Type} (l : list A) (lo : Z) :
  0 <= lo <= len l -> slice l lo (len l) = skipn (Z.to_nat lo) l.
Proof.
  intros H. rewrite slice_inside by lia.
  apply firstn_all2. rewrite length_skipn. unfold len. lia.
Qed.

Lemma skipn_add {A : Type} (l : list A) (n m : nat) :
  skipn (n + m) l = skipn m (skipn n l).
Proof.
  revert l. induction n as [|n IH]; intros l; [reflexivity|].
  destruct l; simpl; [now rewrite skipn_nil | apply IH].
Qed.

(** When every window has at least [min_batch_size] entries, the shuffled
    loop cuts the remaining entries into consecutive windows. *)
Lemma batch_loop_shuffle (bs max_in max_out mbs : Z) (sf : bool) (sd : list Item)
      (fuel : nat) :
  0 < bs -> mbs <= bs -> (len sd mod bs = 0 \/ mbs <= len sd mod bs) ->
  forall (start : Z) (acc : list (list Item)) (r : Rng),
    0 <= start < len sd -> start mod bs = 0 -> len sd - start <= Z.of_nat fuel ->
    exists chunks,
      batch_loop bs max_in max_out "shuffle" mbs sf sd fuel start acc r
      = Returns (acc ++ chunks) /\
      Permutation (List.concat chunks) (skipn (Z.to_nat start) sd).
Proof.
  intros Hbs Hmbs Hrem.
  induction fuel as [|fuel IH]; intros start acc r Hs Hmod Hf; [lia|].
  cbn [batch_loop]. rewrite window_end_shuffle. cbn [bind].
  set (end_ := Z.min (len sd) (start + bs)).
  assert (Hend : start < end_ <= len sd) by (unfold end_; lia).
  assert (Hlen : len (slice sd start end_) = end_ - start)
    by (apply len_slice_inside; lia).
  assert (Hfull : mbs <= len (slice sd start end_)).
  { rewrite Hlen. unfold end_.
    destruct (Z.le_gt_cases (start + bs) (len sd)) as [Hle|Hgt].
    - rewrite Z.min_r by lia. lia.
    - rewrite Z.min_l by lia.
      assert (Hsmall : len sd mod bs = len sd - start).
      { apply Z.mod_divide in Hmod; [|lia]. destruct Hmod as [k ->].
        symmetry. apply (Z.mod_unique_pos _ _ k); lia. }
      lia. }
  rewrite make_minibatch_full by assumption. cbn [bind].
  destruct (Z.eqb_spec end_ (len sd)) as [He|Hne].
  - exists [maybe_rev sf (slice sd start end_)]. split; [reflexivity|].
    cbn [List.concat]. rewrite app_nil_r, maybe_rev_Permutation, He.
    rewrite slice_suffix by lia. reflexivity.
  - assert (He : end_ = start + bs) by (unfold end_ in *; lia).
    destruct (IH end_ (acc ++ [maybe_rev sf (slice sd start end_)]) r) as (chunks & -> & HP).
    + lia.
    + rewrite He. rewrite <- Zplus_mod_idemp_l, Hmod. simpl. apply Z.mod_same. lia.
    + lia.
    + exists (maybe_rev sf (slice sd start end_) :: chunks). split.
      * now rewrite <- app_assoc.
      * cbn [List.concat]. rewrite maybe_rev_Permutation, HP.
        rewrite slice_inside by lia.
        replace (Z.to_nat end_) with (Z.to_nat start + Z.to_nat (end_ - start))%nat by lia.
        rewrite skipn_add. rewrite firstn_skipn. reflexivity.
Qed.

Lemma multiples_leave_full_windows (n bs mbs : Z) :
  0 < mbs -> 0 < bs -> bs mod mbs = 0 -> n mod mbs = 0 ->
  mbs <= bs /\ (n mod bs = 0 \/ mbs <= n mod bs).
Proof.
  intros Hm Hb Hbm Hnm.
  apply Z.mod_divide in Hbm; [|lia]. destruct Hbm as [b ->].
  apply Z.mod_divide in Hnm; [|lia]. destruct Hnm as [a ->].
  assert (0 < b) by nia.
  split; [nia|].
  rewrite Z.mul_mod_distr_r by lia.
  pose proof (Z.mod_pos_bound a b). 
  destruct (Z.eq_dec (a mod b) 0) as [->|]; [left; reflexivity | right; nia].
Qed.

(** A shuffled plan whose windows all have [min_batch_size] entries holds
    every entry of the corpus exactly once. *)
Lemma make_batchset_shuffle_partition (fuel : nat) (r : Rng) (data : list Item)
      (bs max_in max_out num mbs : Z) (sf : bool) :
  0 < bs -> mbs <= bs -> (len data mod bs = 0 \/ mbs <= len data mod bs) ->
  0 < len data -> num <= 0 -> (List.length data <= fuel)%nat ->
  exists plan,
    make_batchset fuel r data bs max_in max_out num "shuffle" mbs sf = Returns plan /\
    Permutation (List.concat plan) data.
Proof.
  intros Hbs Hmbs Hrem Hn Hnum Hf.
  unfold make_batchset, make_batchset_body. rewrite sort_data_shuffle. cbn [bind].
  set (sd := random_sample (List.length data) data r).
  assert (HP : Permutation sd data) by apply random_sample_Permutation.
  assert (Hlen : len sd = len data) by now apply len_Permutation.
  assert (Hge : mbs <= len data).
  { destruct Hrem as [H0|Hr].
    - apply Z.mod_divide in H0; [|lia]. destruct H0 as [k Hk].
      assert (0 < k) by (apply (Z.mul_pos_cancel_r k bs); lia). nia.
    - pose proof (Z.mod_le (len data) bs). lia. }
  destruct (Z.ltb_spec (len sd) mbs); [lia|].
  destruct (batch_loop_shuffle bs max_in max_out mbs sf sd fuel Hbs Hmbs)
    with (start := 0) (acc := @nil (list Item)) (r := rng_drop (List.length data) r)
    as (chunks & -> & HPc).
  - now rewrite Hlen.
  - lia.
  - reflexivity.
  - unfold len in *. lia.
  - cbn [bind app]. destruct (Z.gtb_spec num 0); [lia|].
    exists chunks. split; [reflexivity|]. now rewrite HPc.
Qed.

(** Four utterances, [min_batch_size = 2] (which divides four) and
    [batch_size = 3]: the windows are [sorted_data[0:3]] and
    [sorted_data[3:4]]; the second is one entry short and is padded with an
    entry of the first, so the plan holds five entries, one utterance twice,
    whatever the random draws are. *)
Lemma shuffle_partition_counterexample :
  len [cx_a; cx_b; cx_c; cx_d] mod 2 = 0 /\
  make_batchset 4 zero_rng [cx_a; cx_b; cx_c; cx_d] 3 800 150 0 "shuffle" 2 false
    = Returns [[cx_a; cx_b; cx_c]; [cx_d; cx_a]] /\
  ~ Permutation (map utt_id (List.concat [[cx_a; cx_b; cx_c]; [cx_d; cx_a]]))
                (map utt_id [cx_a; cx_b; cx_c; cx_d]) /\
  ~ NoDup (map utt_id (List.concat [[cx_a; cx_b; cx_c]; [cx_d; cx_a]])) /\
  (forall r : Rng, exists plan,
      make_batchset 4 r [cx_a; cx_b; cx_c; cx_d] 3 800 150 0 "shuffle" 2 false
      = Returns plan /\
      List.length (List.concat plan) = 5%nat).
Proof.
  split; [reflexivity|]. split; [reflexivity|]. split; [|split].
  - intros HP. apply Permutation_length in HP. discriminate.
  - intros Hnd. simpl in Hnd. inversion Hnd as [|x l Hnotin _]; subst.
    apply Hnotin. simpl. tauto.
  - intros r. unfold make_batchset, make_batchset_body.
    rewrite sort_data_shuffle. cbn [bind].
    pose proof (random_sample_Permutation [cx_a; cx_b; cx_c; cx_d] r) as HP.
    apply Permutation_length in HP.
    set (r1 := rng_drop _ r). clearbody r1.
    destruct (random_sample _ _ r) as [|x1 [|x2 [|x3 [|x4 [|x5 sd]]]]]; try discriminate.
    clear HP.
    change (len [x1; x2; x3; x4] <? 2) with false. cbv iota.
    cbn [batch_loop]. rewrite window_end_shuffle. cbn [bind].
    change (Z.min (len [x1; x2; x3; x4]) (0 + 3)) with 3.
    change (make_minibatch 2 false [x1; x2; x3; x4] 0 3 r1)
      with (Returns ([x1; x2; x3], r1)).
    cbn [bind]. change (3 =? len [x1; x2; x3; x4]) with false. cbv iota.
    rewrite window_end_shuffle. cbn [bind].
    change (Z.min (len [x1; x2; x3; x4]) (3 + 3)) with 4.
    unfold make_minibatch, pad_minibatch.
    change (slice [x1; x2; x3; x4] 3 4) with [x4].
    change (len [x4] <? 2) with true. cbv iota.
    change (2 - len [x4] mod 2) with 1.
    unfold randint. change (3 <=? 0) with false. change (1 <? 0) with false. cbv iota.
    cbn [bind]. change (rng_take (Z.to_nat 1) r1) with [r1 0%nat]. cbn [map mapM].
    destruct (getitem_inside [x1; x2; x3; x4] (0 + r1 0%nat mod (3 - 0))) as (y & ->).
    { pose proof (Z.mod_pos_bound (r1 0%nat) (3 - 0)).
      change (len [x1; x2; x3; x4]) with 4. lia. }
    cbn [bind]. change (4 =? len [x1; x2; x3; x4]) with true. cbv iota.
    eexists. split; reflexivity.
Qed.

(** ** The first window *)

Lemma make_minibatch_at_zero (mbs : Z) (sf : bool) (sd : list Item) (end_ : Z) (r : Rng) :
  len (slice sd 0 end_) < mbs ->
  make_minibatch mbs sf sd 0 end_ r = Raises (ValueError "low >= high").
Proof.
  intros H. unfold make_minibatch, pad_minibatch.
  change (if sf then rev (slice sd 0 end_) else slice sd 0 end_)
    with (maybe_rev sf (slice sd 0 end_)).
  rewrite len_maybe_rev.
  destruct (Z.ltb_spec (len (slice sd 0 end_)) mbs); [|lia].
  rewrite randint_empty by lia. reflexivity.
Qed.

Lemma first_window_short (fuel : nat) (r r1 : Rng) (data sd : list Item)
      (bs max_in max_out num : Z) (key : string) (mbs : Z) (sf : bool) (end_ : Z) :
  (0 < fuel)%nat ->
  sort_data key sf data r = Returns (sd, r1) ->
  mbs <= len sd ->
  window_end bs max_in max_out key sd 0 = Returns end_ ->
  len (slice sd 0 end_) < mbs ->
  make_batchset fuel r data bs max_in max_out num key mbs sf
  = Raises (ValueError "low >= high").
Proof.
  intros Hf Hs Hge He Hshort. unfold make_batchset, make_batchset_body.
  rewrite Hs. cbn [bind].
  destruct (Z.ltb_spec (len sd) mbs); [lia|].
  destruct fuel as [|fuel]; [lia|]. cbn [batch_loop].
  rewrite He. cbn [bind]. rewrite make_minibatch_at_zero by assumption. reflexivity.
Qed.

Lemma len_slice_from_zero {A : Type} (l : list A) (hi : Z) :
  len (slice l 0 hi) = slice_bound (len l) hi.
Proof.
  unfold slice. change (slice_bound (len l) 0) with (Z.min 0 (len l)).
  pose proof (len_nonneg l) as Hn. rewrite (Z.min_l 0 (len l)) by assumption.
  change (Z.to_nat 0) with 0%nat. cbn [skipn]. rewrite Z.sub_0_r.
  assert (Hb : 0 <= slice_bound (len l) hi <= len l).
  { unfold slice_bound. destruct (hi <? 0) eqn:E; [apply Z.ltb_lt in E | apply Z.ltb_ge in E]; lia. }
  unfold len in *. rewrite length_firstn. lia.
Qed.

(** C10.  When the window that starts at offset 0 has fewer than
    [min_batch_size] entries, [make_batchset] returns no plan: the padding
    step draws from the empty range [[0, 0)] and the call ends with the
    [ValueError] of [numpy.random.randint].  With key ['shuffle'] this
    happens whenever [0 <= batch_size < min_batch_size] (and for a negative
    [batch_size] whenever dropping that many entries from the end leaves
    fewer than [min_batch_size]); so for every [batch_size < min_batch_size]
    a corpus of exactly [min_batch_size] utterances reaches it.  With the
    length-sorted keys it happens whenever the adaptive size
    [max(1, floor(batch_size/(1+factor)))] of the first window is below
    [min_batch_size], in particular whenever [0 < batch_size < min_batch_size]. *)
Theorem first_window_padding_raises :
  (forall (fuel : nat) (r r1 : Rng) (data sd : list Item) (bs max_in max_out num : Z)
          (key : string) (mbs : Z) (sf : bool) (end_ : Z),
      (0 < fuel)%nat ->
      sort_data key sf data r = Returns (sd, r1) ->
      mbs <= len sd ->
      window_end bs max_in max_out key sd 0 = Returns end_ ->
      len (slice sd 0 end_) < mbs ->
      make_batchset fuel r data bs max_in max_out num key mbs sf
      = Raises (ValueError "low >= high")) /\
  (forall (fuel : nat) (r : Rng) (data : list Item) (bs max_in max_out num mbs : Z)
          (sf : bool),
      (0 < fuel)%nat -> bs < mbs -> mbs <= len data ->
      (0 <= bs \/ Z.max 0 (len data + bs) < mbs) ->
      make_batchset fuel r data bs max_in max_out num "shuffle" mbs sf
      = Raises (ValueError "low >= high")) /\
  (forall (fuel : nat) (r : Rng) (data : list Item) (bs max_in max_out num mbs : Z)
          (sf : bool),
      (0 < fuel)%nat -> bs < mbs -> 1 <= mbs -> len data = mbs ->
      make_batchset fuel r data bs max_in max_out num "shuffle" mbs sf
      = Raises (ValueError "low >= high")) /\
  (forall (fuel : nat) (r r1 : Rng) (data sd : list Item) (bs max_in max_out num : Z)
          (key : string) (mbs : Z) (sf : bool) (first : Item),
      (0 < fuel)%nat -> length_sorted_key key ->
      Forall (fun it => 0 <= ilen it /\ 0 <= olen it) data ->
      0 < max_in -> 0 < max_out -> mbs <= len data ->
      sort_data key sf data r = Returns (sd, r1) ->
      hd_error sd = Some first ->
      (Z.max 1 (bs / (1 + Z.max (ilen first / max_in) (olen first / max_out))) < mbs \/
       0 < bs < mbs) ->
      make_batchset fuel r data bs max_in max_out num key mbs sf
      = Raises (ValueError "low >= high")).
Proof.
  assert (Hshuffle : forall (fuel : nat) (r : Rng) (data : list Item)
                            (bs max_in max_out num mbs : Z) (sf : bool),
             (0 < fuel)%nat -> bs < mbs -> mbs <= len data ->
             (0 <= bs \/ Z.max 0 (len data + bs) < mbs) ->
             make_batchset fuel r data bs max_in max_out num "shuffle" mbs sf
             = Raises (ValueError "low >= high")).
  { intros fuel r data bs max_in max_out num mbs sf Hf Hbs Hge Hshort.
    pose proof (sort_data_shuffle sf data r) as Hs.
    pose proof (sort_data_Returns _ _ _ _ _ _ Hs) as [_ HP].
    apply len_Permutation in HP.
    eapply first_window_short; [assumption | exact Hs | lia | apply window_end_shuffle |].
    rewrite len_slice_from_zero, HP. unfold slice_bound.
    pose proof (len_nonneg data).
    destruct (Z.ltb_spec (Z.min (len data) (0 + bs)) 0); lia. }
  split; [|split; [|split]].
  - intros. eapply first_window_short; eassumption.
  - exact Hshuffle.
  - intros fuel r data bs max_in max_out num mbs sf Hf Hbs Hm Hlen.
    apply Hshuffle; try assumption; lia.
  - intros fuel r r1 data sd bs max_in max_out num key mbs sf first
           Hf Hk Hwf Hin Hout Hge Hs Hfirst Hsize.
    pose proof (sort_data_Returns _ _ _ _ _ _ Hs) as [_ HP].
    pose proof (len_Permutation _ _ HP) as Hlen.
    assert (Hn : nth_error sd (Z.to_nat 0) = Some first) by (destruct sd; exact Hfirst).
    destruct adaptive_window with (1 := Hk) (2 := Hin) (3 := Hout) (4 := Hwf) (5 := Hs)
                                 (6 := Z.le_refl 0) (7 := Hn) (bs := bs) as [He Hf0].
    eapply first_window_short; [assumption | exact Hs | lia | exact He |].
    assert (Hfac : 0 <= Z.max (ilen first / max_in) (olen first / max_out)).
    { assert (0 <= ilen first).
      { rewrite Forall_forall in Hwf. apply Hwf.
        eapply Permutation_in; [exact HP|]. eapply nth_error_In; eassumption. }
      pose proof (Z.div_pos (ilen first) max_in). lia. }
    assert (Hsz : Z.max 1 (bs / (1 + Z.max (ilen first / max_in) (olen first / max_out)))
                  < mbs).
    { destruct Hsize as [|Hb]; [assumption|].
      assert (bs / (1 + Z.max (ilen first / max_in) (olen first / max_out)) <= bs).
      { apply Z.div_le_upper_bound; nia. }
      lia. }
    rewrite len_slice_inside; lia.
Qed.

Lemma first_window_padding_raises_witness :
  make_batchset 3 zero_rng [cx_a; cx_b] 1 800 150 0 "shuffle" 2 false
    = Raises (ValueError "low >= high") /\
  make_batchset 3 zero_rng [cx_a; cx_b] (-1) 800 150 0 "shuffle" 2 false
    = Raises (ValueError "low >= high") /\
  make_batchset 3 zero_rng [ex_u1 7; ex_u2 5] 2 40 1000 0 "input" 2 false
    = Raises (ValueError "low >= high").
Proof.
  destruct first_window_padding_raises as (_ & Hshuffle & Hexact & Hsorted).
  split; [|split].
  - apply Hshuffle; [lia | lia | unfold len; simpl; lia | left; lia].
  - apply Hexact; [lia | lia | lia | reflexivity].
  - apply (Hsorted 3%nat zero_rng zero_rng [ex_u1 7; ex_u2 5] [ex_u1 7; ex_u2 5]
                   2 40 1000 0 "input" 2 false (ex_u1 7)).
    + lia.
    + left; reflexivity.
    + repeat constructor; discriminate.
    + lia.
    + lia.
    + unfold len; simpl; lia.
    + reflexivity.
    + reflexivity.
    + left. reflexivity.
Defined.

(** ** The two checked errors *)

Lemma make_batchset_invalid_key (fuel : nat) (r : Rng) (data : list Item)
      (bs max_in max_out num : Z) (key : string) (mbs : Z) (sf : bool) :
  ~ valid_sort_key key ->
  make_batchset fuel r data bs max_in max_out num key mbs sf = Raises sort_key_error.
Proof.
  intros H. unfold make_batchset, make_batchset_body.
  now rewrite sort_data_invalid.
Qed.

Lemma make_batchset_small_corpus (fuel : nat) (r : Rng) (data : list Item)
      (bs max_in max_out num : Z) (key : string) (mbs : Z) (sf : bool) :
  valid_sort_key key -> len data < mbs ->
  make_batchset fuel r data bs max_in max_out num key mbs sf = Raises corpus_error.
Proof.
  intros Hk Hlt. unfold make_batchset, make_batchset_body.
  assert (Hs : exists sd r1, sort_data key sf data r = Returns (sd, r1)).
  { destruct Hk as [->|Hk].
    - rewrite sort_data_shuffle. eauto.
    - rewrite sort_data_length_sorted by exact Hk. eauto. }
  destruct Hs as (sd & r1 & Hs). rewrite Hs. cbn [bind].
  apply sort_data_Returns in Hs. destruct Hs as [_ HP]. apply len_Permutation in HP.
  destruct (Z.ltb_spec (len sd) mbs); [reflexivity | lia].
Qed.

(** C6.  An unknown sort key raises the sort-key error, before the size of
    the corpus is looked at; with a known key, a corpus of fewer than
    [min_batch_size] utterances raises the corpus error.  These are not the
    only exceptions: with key ['input'], [batch_size = 2],
    [min_batch_size = 2], [max_length_in = 40] and the two utterances of
    lengths 100 and 50, the key is known and the corpus is large enough, yet
    the call ends with the [ValueError] of [numpy.random.randint]. *)
Theorem checked_errors_and_padding_failure :
  (forall (fuel : nat) (r : Rng) (data : list Item) (bs max_in max_out num : Z)
          (key : string) (mbs : Z) (sf : bool),
      (~ valid_sort_key key ->
       make_batchset fuel r data bs max_in max_out num key mbs sf = Raises sort_key_error) /\
      (valid_sort_key key -> len data < mbs ->
       make_batchset fuel r data bs max_in max_out num key mbs sf = Raises corpus_error)) /\
  (valid_sort_key "input" /\ 2 <= len [ex_u1 7; ex_u2 5] /\
   forall (fuel : nat) (r : Rng) (sf : bool),
     make_batchset (S fuel) r [ex_u1 7; ex_u2 5] 2 40 1000 0 "input" 2 sf
     = Raises (ValueError "low >= high")).
Proof.
  split.
  - intros. split; [apply make_batchset_invalid_key | apply make_batchset_small_corpus].
  - split; [right; left; reflexivity|]. split; [unfold len; simpl; lia|].
    intros fuel r [|]; reflexivity.
Qed.

(** One utterance and [min_batch_size = 2]: an unknown key raises the
    sort-key error although the corpus is too small as well; a known key
    raises the corpus error. *)
Lemma checked_errors_and_padding_failure_witness :
  make_batchset 0 zero_rng [cx_a] 2 800 150 0 "length" 2 false = Raises sort_key_error /\
  make_batchset 0 zero_rng [cx_a] 2 800 150 0 "input" 2 false = Raises corpus_error.
Proof.
  destruct (proj1 checked_errors_and_padding_failure 0%nat zero_rng [cx_a]
                  2 800 150 0 "length" 2 false) as [Hkey _].
  destruct (proj1 checked_errors_and_padding_failure 0%nat zero_rng [cx_a]
                  2 800 150 0 "input" 2 false) as [_ Hcorpus].
  split.
  - apply Hkey. intros [H|[H|H]]; discriminate.
  - apply Hcorpus; [right; left; reflexivity | reflexivity].
Defined.


(* ===================================================================== *)
(** * The forward pass and the update step *)
(* ===================================================================== *)

Module UpdateFacts.
Import E2EAsr Asr.

Lemma Qltb_asym (a b : Q) : Qltb a b = true -> Qltb b a = false.
Proof.
  unfold Qltb. intros H. apply Z.ltb_lt in H. apply Z.ltb_ge. lia.
Qed.

(** A value above [y] is not below [y]. *)
Lemma ltb_asym (x y : float) : ltb y x = true -> ltb x y = false.
Proof.
  destruct x as [|[|]|a], y as [|[|]|b]; simpl; try reflexivity; try discriminate.
  apply Qltb_asym.
Qed.

Lemma ltb_nan (y : float) : ltb NaN y = false.
Proof. reflexivity. Qed.

Lemma eqb_0_1 (x : float) : eqb x (of_Z 0) = true -> eqb x (of_Z 1) = false.
Proof.
  destruct x as [| |q]; simpl; try discriminate.
  unfold of_Z. intros H. apply Qeq_bool_iff in H.
  destruct (Qeq_bool q (inject_Z 1)) eqn:E; [|reflexivity].
  apply Qeq_bool_iff in E. rewrite H in E. discriminate.
Qed.

Section E2EFacts.
Variables Params Xs Ilens Ys Hs : Type.
Variable enc : Params -> Xs -> Ilens -> Hs * Ilens.
Variable ctc : Params -> Hs -> Ys -> float.
Variable dec : Params -> Hs -> Ys -> float * float.
Variables fadd fsub fmul : float -> float -> float.

Local Abbreviation E2E := (E2E Params).
Local Abbreviation forward := (forward Params Xs Ilens Ys Hs enc ctc dec fadd fsub fmul).
Local Abbreviation E2E_call := (E2E_call Params Xs Ilens Ys Hs enc ctc dec fadd fsub fmul).

(** The forward pass always yields a loss. *)
Lemma forward_total (self : E2E) (xs : Xs) (ilens : Ilens) (ys : Ys) :
  exists l loss_ctc loss_att acc,
    forward self xs ilens ys = Returns (Some l, loss_ctc, loss_att, acc).
Proof.
  unfold E2EAsr.forward.
  destruct (enc (params self) xs ilens) as [hs il].
  destruct (dec (params self) hs ys) as [la a].
  destruct (eqb (mtlalpha self) (of_Z 0)) eqn:E0.
  - rewrite (eqb_0_1 _ E0). cbn [bind]. eauto.
  - destruct (eqb (mtlalpha self) (of_Z 1)) eqn:E1; cbn [bind]; eauto.
Qed.

Lemma E2E_call_Returns (self self' : E2E) (w w' : World) (xs : Xs) (ilens : Ilens)
      (ys : Ys) (res : call_result) :
  E2E_call self w xs ilens ys = Returns (res, self', w') ->
  exists l loss_ctc loss_att a,
    forward self xs ilens ys = Returns (Some l, loss_ctc, loss_att, a) /\
    res = (if flag_return self then LossTuple l loss_ctc loss_att a else LossOnly l) /\
    self' = mkE2E (mtlalpha self) (flag_return self) a (Some l) (params self) /\
    (ltb l (of_Z CTC_LOSS_THRESHOLD) && negb (isnan l) = true ->
     reports w' = reported w l loss_ctc loss_att a /\
     logs w' = logs w ++ [InfoMtlLoss l]) /\
    (ltb l (of_Z CTC_LOSS_THRESHOLD) && negb (isnan l) = false ->
     reports w' = reports w /\
     logs w' = logs w ++ [WarningLossNotCorrect l]).
Proof.
  unfold E2EAsr.E2E_call.
  destruct (forward_total self xs ilens ys) as (l & lc & la & a & ->).
  cbn [bind flag_return]. intros H.
  exists l, lc, la, a. split; [reflexivity|].
  destruct (ltb l (of_Z CTC_LOSS_THRESHOLD) && negb (isnan l)) eqn:Echeck;
    destruct (flag_return self); inversion H; subst; clear H;
    repeat split; try discriminate; try reflexivity.
  all: unfold reported; cbn [report log reports logs];
    rewrite <- ?app_assoc; reflexivity.
Qed.

Lemma E2E_call_total (self : E2E) (w : World) (xs : Xs) (ilens : Ilens) (ys : Ys) :
  exists res self' w', E2E_call self w xs ilens ys = Returns (res, self', w').
Proof.
  unfold E2EAsr.E2E_call.
  destruct (forward_total self xs ilens ys) as (l & lc & la & a & ->).
  cbn [bind flag_return]. destruct (flag_return self); eauto.
Qed.

Section UpdaterFacts.
Variable fsqrt : float -> float.
Variable Array : Type.
Variable device_of : option Array -> Z.
Variable dot : Array -> float.
Variable backward : Params -> Xs * Ilens * Ys -> list (option Array).
Variable OptState : Type.
Variable optimizer_update :
  OptState -> Params -> list (option Array) -> OptState * Params.
Variables Batch Iter : Type.
Variable next : Iter -> Batch * Iter.
Variable converter : Batch -> Z -> outcome (Xs * Ilens * Ys).

Local Abbreviation Updater := (Updater Params Array OptState Iter).
Local Abbreviation update_core :=
  (update_core Params Xs Ilens Ys Hs enc ctc dec fadd fsub fmul fsqrt Array device_of dot
               backward OptState optimizer_update Batch Iter next converter).
Local Abbreviation grad_norm_of :=
  (grad_norm_of Params Xs Ilens Ys fadd fsqrt Array device_of dot backward).

(** One step, taken apart. *)
Lemma update_core_Returns (self self' : Updater) :
  update_core self = Returns self' ->
  exists xs ilens ys res m w,
    converter (fst (next (train_iter self))) (device self)
      = Returns (xs, ilens, ys) /\
    E2E_call (target self) (world self) xs ilens ys = Returns (res, m, w) /\
    params m = params (target self) /\
    let p := params (target self) in
    let g := grad_norm_of p (xs, ilens, ys) in
    (isnan g = true ->
     params (target self') = p /\
     optimizer self' = optimizer self /\
     update_calls self' = update_calls self /\
     reports (world self') = reports w) /\
    (isnan g = false ->
     (optimizer self', params (target self'))
       = optimizer_update (optimizer self) p (backward p (xs, ilens, ys)) /\
     update_calls self' = S (update_calls self) /\
     reports (world self') = reports w).
Proof.
  unfold Asr.update_core.
  destruct (next (train_iter self)) as [batch it] eqn:En. cbn [fst].
  intros H. apply bind_Returns in H. destruct H as ([[xs ilens] ys] & Hc & H).
  apply bind_Returns in H. destruct H as ([[res m] w] & Hcall & H).
  exists xs, ilens, ys, res, m, w. split; [assumption|]. split; [assumption|].
  pose proof (E2E_call_Returns _ _ _ _ _ _ _ _ Hcall) as (l & lc & la & a & _ & _ & Hm & _).
  assert (Hp : params m = params (target self)) by (subst m; reflexivity).
  split; [assumption|].
  destruct res as [l'|l' c' a' acc']; [|discriminate].
  unfold Asr.grad_norm_of. rewrite <- Hp.
  destruct (isnan (fsqrt (sum_sqnorm Array device_of dot fadd (backward (params m) (xs, ilens, ys)))))
    eqn:Enan.
  - inversion H; subst self'; clear H. split; [|discriminate].
    intros _. cbn. repeat split; reflexivity.
  - destruct (optimizer_update (optimizer self) (params m)
                               (backward (params m) (xs, ilens, ys))) as [opt p'] eqn:Eo.
    inversion H; subst self'; clear H. split; [discriminate|].
    intros _. cbn. repeat split; reflexivity.
Qed.

Lemma update_core_total (self : Updater) (x : Xs * Ilens * Ys) :
  converter (fst (next (train_iter self))) (device self) = Returns x ->
  flag_return (target self) = false ->
  exists self', update_core self = Returns self'.
Proof.
  intros Hc Hflag. unfold Asr.update_core.
  destruct (next (train_iter self)) as [batch it]. cbn [fst] in Hc.
  rewrite Hc. cbn [bind]. destruct x as [[xs ilens] ys].
  destruct (E2E_call_total (target self) (world self) xs ilens ys)
    as (res & m & w & Hcall).
  rewrite Hcall. cbn [bind].
  pose proof (E2E_call_Returns _ _ _ _ _ _ _ _ Hcall) as (l & lc & la & a & _ & Hres & _).
  rewrite Hflag in Hres. subst res.
  destruct (isnan _); [eauto|].
  destruct (optimizer_update _ _ _); eauto.
Qed.
End UpdaterFacts.
End E2EFacts.

End UpdateFacts.

Import E2EAsr Asr UpdateFacts.

Section UpdateClaims.
Variables Params Xs Ilens Ys Hs : Type.
Variable enc : Params -> Xs -> Ilens -> Hs * Ilens.
Variable ctc : Params -> Hs -> Ys -> float.
Variable dec : Params -> Hs -> Ys -> float * float.
Variables fadd fsub fmul : float -> float -> float.
Variable fsqrt : float -> float.
Variable Array : Type.
Variable device_of : option Array -> Z.
Variable dot : Array -> float.
Variable backward : Params -> Xs * Ilens * Ys -> list (option Array).
Variable OptState : Type.
Variable optimizer_update :
  OptState -> Params -> list (option Array) -> OptState * Params.
Variables Batch Iter : Type.
Variable next : Iter -> Batch * Iter.
Variable converter : Batch -> Z -> outcome (Xs * Ilens * Ys).

Local Abbreviation forward := (forward Params Xs Ilens Ys Hs enc ctc dec fadd fsub fmul).
Local Abbreviation E2E_call := (E2E_call Params Xs Ilens Ys Hs enc ctc dec fadd fsub fmul).
Local Abbreviation update_core :=
  (update_core Params Xs Ilens Ys Hs enc ctc dec fadd fsub fmul fsqrt Array device_of dot
               backward OptState optimizer_update Batch Iter next converter).
Local Abbreviation grad_norm_of :=
  (grad_norm_of Params Xs Ilens Ys fadd fsqrt Array device_of dot backward).

(** C3.  One call of [CustomUpdater.update_core] that returns has converted
    one batch [x]; with [g] the gradient norm computed after backward on the
    current parameters: if [g] is NaN the parameters and the optimizer are
    exactly what they were and [optimizer.update()] was not invoked; if [g]
    is not NaN, [optimizer.update()] was invoked exactly once, on those
    parameters and gradients.  The call returns whenever the converter does
    and the model returns its loss alone. *)
Theorem nan_gradient_skips_update :
  (forall self self' : Updater Params Array OptState Iter,
      update_core self = Returns self' ->
      exists x,
        converter (fst (next (train_iter self))) (device self) = Returns x /\
        let p := params (target self) in
        let g := grad_norm_of p x in
        (isnan g = true ->
         params (target self') = p /\
         optimizer self' = optimizer self /\
         update_calls self' = update_calls self) /\
        (isnan g = false ->
         update_calls self' = S (update_calls self) /\
         (optimizer self', params (target self'))
           = optimizer_update (optimizer self) p (backward p x))) /\
  (forall (self : Updater Params Array OptState Iter) (x : Xs * Ilens * Ys),
      converter (fst (next (train_iter self))) (device self) = Returns x ->
      flag_return (target self) = false ->
      exists self', update_core self = Returns self').
Proof.
  split.
  - intros self self' H.
    apply update_core_Returns in H.
    destruct H as (xs & ilens & ys & res & m & w & Hc & _ & _ & Hnan & Hok).
    exists (xs, ilens, ys). split; [assumption|]. cbv zeta. split.
    + intros Hg. destruct (Hnan Hg) as (Hp & Ho & Hu & _). auto.
    + intros Hg. destruct (Hok Hg) as (Ho & Hu & _). auto.
  - intros self x. apply update_core_total.
Qed.

(** C7.  [E2E.__call__] always returns, and the loss it returns (and stores
    in [self.loss]) is the loss the forward pass computed; the parameters are
    untouched.  When that loss is above [CTC_LOSS_THRESHOLD = 10000] or is NaN,
    nothing is reported (none of [loss_ctc], [loss_att], [acc], [loss]);
    when it is below the threshold and not NaN, exactly these four values are
    reported.  In [update_core], whether [optimizer.update()] is invoked is
    decided by the gradient norm alone: it is skipped if and only if the norm
    is NaN, and the reporter is left as [__call__] left it. *)
Theorem loss_check_gates_reporting_only :
  (forall (self : E2E Params) (w : World) (xs : Xs) (ilens : Ilens) (ys : Ys),
      exists res self' w' l loss_ctc loss_att a,
        E2E_call self w xs ilens ys = Returns (res, self', w') /\
        forward self xs ilens ys = Returns (Some l, loss_ctc, loss_att, a) /\
        res = (if flag_return self then LossTuple l loss_ctc loss_att a else LossOnly l) /\
        loss_of res = l /\ loss self' = Some l /\ params self' = params self /\
        (ltb (of_Z CTC_LOSS_THRESHOLD) l = true \/ isnan l = true ->
         reports w' = reports w) /\
        (ltb l (of_Z CTC_LOSS_THRESHOLD) = true -> isnan l = false ->
         reports w' = reported w l loss_ctc loss_att a)) /\
  (forall self self' : Updater Params Array OptState Iter,
      update_core self = Returns self' ->
      exists xs ilens ys res m w,
        converter (fst (next (train_iter self))) (device self)
          = Returns (xs, ilens, ys) /\
        E2E_call (target self) (world self) xs ilens ys
          = Returns (res, m, w) /\
        reports (world self') = reports w /\
        let g := grad_norm_of (params (target self)) (xs, ilens, ys) in
        (isnan g = true <-> update_calls self' = update_calls self) /\
        (isnan g = false <-> update_calls self' = S (update_calls self))).
Proof.
  split.
  - intros self w xs ilens ys.
    destruct (E2E_call_total _ _ _ _ _ enc ctc dec fadd fsub fmul self w xs ilens ys)
      as (res & self' & w' & Hcall).
    pose proof (E2E_call_Returns _ _ _ _ _ _ _ _ _ _ _ _ _ _ _ _ _ _ _ Hcall)
      as (l & lc & la & a & Hf & Hres & Hself & Hrep & Hsup).
    exists res, self', w', l, lc, la, a.
    split; [assumption|]. split; [assumption|]. split; [assumption|].
    split; [subst res; destruct (flag_return self); reflexivity|].
    split; [subst self'; reflexivity|]. split; [subst self'; reflexivity|].
    split.
    + intros Habove. apply Hsup.
      destruct Habove as [Hgt|Hnan].
      * now rewrite (ltb_asym _ _ Hgt).
      * rewrite Hnan. apply andb_false_r.
    + intros Hlt Hnan. apply Hrep. now rewrite Hlt, Hnan.
  - intros self self' H.
    apply update_core_Returns in H.
    destruct H as (xs & ilens & ys & res & m & w & Hc & Hcall & _ & Hnan & Hok).
    exists xs, ilens, ys, res, m, w.
    split; [assumption|]. split; [assumption|]. cbv zeta in *.
    destruct (isnan (grad_norm_of (params (target self)) (xs, ilens, ys))) eqn:Eg.
    + destruct (Hnan eq_refl) as (_ & _ & Hu & Hr).
      split; [assumption|]. split; split; intros; try reflexivity; try assumption.
      * discriminate.
      * rewrite Hu in *. exfalso. eapply n_Sn. eassumption.
    + destruct (Hok eq_refl) as (_ & Hu & Hr).
      split; [assumption|]. split; split; intros; try reflexivity; try assumption.
      * discriminate.
      * rewrite Hu in *. exfalso. eapply n_Sn. symmetry. eassumption.
Qed.
End UpdateClaims.

Lemma nan_gradient_skips_update_witness :
  (exists self',
      Toy.update_core Toy.backward_nan Toy.updater = Returns self' /\
      params (target self') = 7 /\
      optimizer self' = 0%nat /\
      update_calls self' = 0%nat) /\
  (exists self',
      Toy.update_core Toy.backward_finite Toy.updater = Returns self' /\
      update_calls self' = 1%nat /\
      (optimizer self', params (target self')) = (1%nat, 6)).
Proof.
  split.
  - destruct (nan_gradient_skips_update
                Z Z unit unit Z Toy.enc Toy.ctc Toy.dec Toy.fadd Toy.fsub Toy.fmul
                Toy.fsqrt float Toy.device_of Toy.dot Toy.backward_nan nat
                Toy.optimizer_update Z (list Z) Toy.next Toy.converter)
      as [Hstep Htotal].
    destruct (Htotal Toy.updater (20000, tt, tt) eq_refl eq_refl) as [self' Hs].
    exists self'. split; [exact Hs|].
    destruct (Hstep _ _ Hs) as (x & Hx & Hnan & _).
    injection Hx as <-.
    exact (Hnan eq_refl).
  - destruct (nan_gradient_skips_update
                Z Z unit unit Z Toy.enc Toy.ctc Toy.dec Toy.fadd Toy.fsub Toy.fmul
                Toy.fsqrt float Toy.device_of Toy.dot Toy.backward_finite nat
                Toy.optimizer_update Z (list Z) Toy.next Toy.converter)
      as [Hstep Htotal].
    destruct (Htotal Toy.updater (20000, tt, tt) eq_refl eq_refl) as [self' Hs].
    exists self'. split; [exact Hs|].
    destruct (Hstep _ _ Hs) as (x & Hx & _ & Hok).
    injection Hx as <-.
    exact (Hok eq_refl).
Defined.

(** A loss of 20000 with a finite gradient norm: nothing is reported and
    the optimizer is still stepped; the same model on a batch of loss 5
    reports its four values. *)
Lemma loss_check_gates_reporting_only_witness :
  (exists self',
      Toy.update_core Toy.backward_finite Toy.updater = Returns self' /\
      reports (world self') = [] /\
      update_calls self' = 1%nat) /\
  (exists res self' w',
      Toy.E2E_call Toy.model Toy.world0 5 tt tt = Returns (res, self', w') /\
      loss_of res = of_Z 5 /\
      reports w' = [("loss_ctc", None); ("loss_att", Some (of_Z 5));
                    ("acc", Some (of_Z 1)); ("loss", Some (of_Z 5))]).
Proof.
  destruct (loss_check_gates_reporting_only
              Z Z unit unit Z Toy.enc Toy.ctc Toy.dec Toy.fadd Toy.fsub Toy.fmul
              Toy.fsqrt float Toy.device_of Toy.dot Toy.backward_finite nat
              Toy.optimizer_update Z (list Z) Toy.next Toy.converter)
    as [Hcall Hstep].
  split.
  - exists (Toy.updater_after_finite). split; [reflexivity|].
    destruct (Hstep Toy.updater Toy.updater_after_finite eq_refl)
      as (xs & ilens & ys & res & m & w & Hx & Hc & Hrep & _ & Hok).
    injection Hx as <- <- <-.
    destruct (Hcall Toy.model Toy.world0 20000 tt tt)
      as (res' & m' & w' & l & lc & la & a & Hc' & Hf & _ & _ & _ & _ & Hsup & _).
    injection Hf as <- <- <- <-.
    assert (Hw : w' = w).
    { change (Toy.E2E_call Toy.model Toy.world0 20000 tt tt = Returns (res, m, w)) in Hc.
      change (Toy.E2E_call Toy.model Toy.world0 20000 tt tt = Returns (res', m', w')) in Hc'.
      rewrite Hc in Hc'. now injection Hc' as _ _ <-. }
    subst w'. split.
    + rewrite Hrep. apply Hsup. left. reflexivity.
    + apply Hok. reflexivity.
  - destruct (Hcall Toy.model Toy.world0 5 tt tt)
      as (res & m & w & l & lc & la & a & Hc & Hf & _ & Hl & _ & _ & _ & Hrep).
    injection Hf as <- <- <- <-.
    exists res, m, w. split; [exact Hc|]. split; [exact Hl|].
    apply Hrep; reflexivity.
Defined.

(* ===================================================================== *)
(** * The converter *)
(* ===================================================================== *)

Module ConverterFacts.
Import Asr.

Lemma astype_int32_inside (z : Z) : - 2 ^ 31 <= z < 2 ^ 31 -> astype_int32 z = z.
Proof.
  intros H. unfold astype_int32. rewrite Z.mod_small; lia.
Qed.

Section Stride.
Variable Frame : Type.

(** Row [j] of [x[::k, :]] is row [j * k] of [x]. *)
Lemma every_kth_nth (k : nat) (x : list Frame) :
  (0 < k)%nat ->
  forall skip j : nat,
    (skip < k)%nat ->
    nth_error (every_kth Frame k skip x) j = nth_error x (skip + j * k).
Proof.
  intros Hk. induction x as [|row rest IH]; intros skip j Hs.
  - simpl. now rewrite !nth_error_nil.
  - destruct skip as [|skip]; simpl.
    + destruct j as [|j]; [reflexivity|]. simpl.
      rewrite IH by lia.
      replace (k + j * k)%nat with (S (k - 1 + j * k)) by lia. reflexivity.
    + apply IH. lia.
Qed.

Lemma every_kth_length (k : nat) (x : list Frame) :
  (0 < k)%nat ->
  forall skip : nat,
    (skip < k)%nat ->
    List.length (every_kth Frame k skip x) = ((List.length x + (k - 1 - skip)) / k)%nat.
Proof.
  intros Hk. induction x as [|row rest IH]; intros skip Hs.
  - simpl. symmetry. apply Nat.div_small. lia.
  - destruct skip as [|skip]; simpl List.length.
    + rewrite IH by lia.
      replace (S (List.length rest) + (k - 1 - 0))%nat
        with (List.length rest + (k - 1 - (k - 1)) + 1 * k)%nat by lia.
      rewrite Nat.div_add by lia. lia.
    + rewrite IH by lia. f_equal. lia.
Qed.

Lemma stride_nth (k : Z) (x : list Frame) (j : nat) :
  0 < k -> nth_error (stride Frame k x) j = nth_error x (j * Z.to_nat k).
Proof.
  intros Hk. unfold stride. rewrite every_kth_nth by lia. reflexivity.
Qed.

(** [x[::k, :]] has [ceil(T / k)] rows. *)
Lemma stride_len (k : Z) (x : list Frame) :
  0 < k -> len (stride Frame k x) = (len x + k - 1) / k.
Proof.
  intros Hk. unfold stride, len. rewrite every_kth_length by lia.
  rewrite Nat2Z.inj_div, Nat2Z.inj_add, Nat.sub_0_r, Nat2Z.inj_sub by lia.
  rewrite Z2Nat.id by lia. f_equal. lia.
Qed.

(** [(T + k - 1) / k] is the ceiling of [T / k]. *)
Lemma ceiling_spec (t k : Z) :
  0 < k -> let c := (t + k - 1) / k in k * (c - 1) < t <= k * c.
Proof.
  intros Hk c. unfold c.
  pose proof (Z.div_mod (t + k - 1) k). pose proof (Z.mod_pos_bound (t + k - 1) k). lia.
Qed.
End Stride.

End ConverterFacts.

Import ConverterFacts.

(** C9.  [CustomConverter.__call__] raises [AssertionError] unless the batch
    wrapper holds exactly one element [(xs, ys)].  With
    [subsampling_factor = k > 1] it returns, for each input [x] of [T] rows,
    the rows [0, k, 2k, ...] of [x] themselves (cast to [float32]), that is
    [ceil(T / k)] rows, and [ilens] holds that row count for each input
    (as an [int32], exact below [2^31]).  With [subsampling_factor <= 1] the
    inputs are returned whole. *)
Theorem converter_subsamples_by_stride :
  forall (Frame Frame32 : Type) (astype_float32 : Frame -> Frame32)
         (self : CustomConverter)
         (batch : list (list (list Frame) * list (list Z))) (device : Z),
    (List.length batch <> 1%nat ->
     converter_call Frame Frame32 astype_float32 self batch device = Raises AssertionError) /\
    (forall xs ys,
        batch = [(xs, ys)] -> 1 < subsampling_factor self ->
        let k := subsampling_factor self in
        exists xs' ilens ys',
          converter_call Frame Frame32 astype_float32 self batch device
            = Returns (xs', ilens, ys') /\
          Forall2 (fun x x' =>
                     (forall j, nth_error x' j
                                = option_map astype_float32 (nth_error x (j * Z.to_nat k))) /\
                     len x' = (len x + k - 1) / k /\
                     k * (len x' - 1) < len x <= k * len x')
                  xs xs' /\
          Forall2 (fun x' n => len x' < 2 ^ 31 -> n = len x') xs' ilens) /\
    (forall xs ys,
        batch = [(xs, ys)] -> subsampling_factor self <= 1 ->
        converter_call Frame Frame32 astype_float32 self batch device
        = Returns (map (map astype_float32) xs,
                   map (fun x => astype_int32 (len x)) xs,
                   map (map astype_int32) ys)).
Proof.
  intros Frame Frame32 astype_float32 self batch device. split; [|split].
  - intros Hlen. unfold converter_call.
    destruct batch as [|[xs ys] [|b batch]]; simpl in Hlen; try reflexivity. congruence.
  - intros xs ys -> Hk k. unfold converter_call.
    destruct (Z.gtb_spec (subsampling_factor self) 1) as [_|]; [|lia]. fold k.
    eexists _, _, _. split; [reflexivity|]. split.
    + induction xs as [|x xs IH]; simpl; constructor; [|exact IH].
      assert (Hlen : len (map astype_float32 (stride Frame k x)) = (len x + k - 1) / k).
      { unfold len at 1. rewrite length_map. apply stride_len. lia. }
      split; [|split].
      * intros j. rewrite nth_error_map, stride_nth by lia. reflexivity.
      * exact Hlen.
      * rewrite Hlen. apply ceiling_spec. lia.
    + induction xs as [|x xs IH]; simpl; constructor; [|exact IH].
      intros Hsmall. unfold len in Hsmall at 1. rewrite length_map in Hsmall.
      unfold len at 2. rewrite length_map.
      apply astype_int32_inside. pose proof (len_nonneg (stride Frame k x)).
      unfold len in *. lia.
  - intros xs ys -> Hk. unfold converter_call.
    destruct (Z.gtb_spec (subsampling_factor self) 1) as [|_]; [lia|].
    now rewrite map_map.
Qed.

Lemma converter_subsamples_by_stride_witness :
  exists xs' ilens ys',
    converter_call Z Z (fun f => f) (mkConverter 3)
                   [([[10; 11; 12; 13; 14; 15; 16]; [20; 21; 22]], [[1; 2]; [3]])] (-1)
      = Returns (xs', ilens, ys') /\
    Forall2 (fun x x' =>
               (forall j, nth_error x' j
                          = option_map (fun f => f) (nth_error x (j * Z.to_nat 3))) /\
               len x' = (len x + 3 - 1) / 3 /\
               3 * (len x' - 1) < len x <= 3 * len x')
            [[10; 11; 12; 13; 14; 15; 16]; [20; 21; 22]] xs' /\
    Forall2 (fun x' n => len x' < 2 ^ 31 -> n = len x') xs' ilens.
Proof.
  apply (proj1 (proj2 (converter_subsamples_by_stride Z Z (fun f => f) (mkConverter 3)
                  [([[10; 11; 12; 13; 14; 15; 16]; [20; 21; 22]], [[1; 2]; [3]])] (-1)))
               [[10; 11; 12; 13; 14; 15; 16]; [20; 21; 22]] [[1; 2]; [3]]).
  - reflexivity.
  - simpl. lia.
Defined.

(* ===================================================================== *)
(** * Shards of the multi-GPU set-up *)
(* ===================================================================== *)

Module ShardFacts.
Import Asr.

Lemma mapM_Forall2 {A B : Type} (f : A -> outcome B) (R : A -> B -> Prop) (l : list A) :
  Forall (fun x => exists y, f x = Returns y /\ R x y) l ->
  exists ys, mapM f l = Returns ys /\ Forall2 R l ys.
Proof.
  induction 1 as [|x l (y & Hy & HR) _ (ys & Hys & HF)]; simpl.
  - exists []. split; [reflexivity | constructor].
  - exists (y :: ys). rewrite Hy, Hys. split; [reflexivity | now constructor].
Qed.

Section Shards.
Variables Key Value : Type.

Lemma enumerate_from_nth (l : list (Key * Value)) (i0 i : nat) (kv : Key * Value) :
  nth_error l i = Some kv -> In (i0 + i, kv)%nat (enumerate_from i0 l).
Proof.
  revert i0 i. induction l as [|x l IH]; intros i0 [|i] H; simpl in *; try discriminate.
  - inversion H; subst. left. f_equal. lia.
  - right. replace (i0 + S i)%nat with (S i0 + i)%nat by lia. now apply IH.
Qed.

Lemma enumerate_from_In (l : list (Key * Value)) (i0 j : nat) (kv : Key * Value) :
  In (j, kv) (enumerate_from i0 l) ->
  (i0 <= j)%nat /\ nth_error l (j - i0) = Some kv.
Proof.
  revert i0. induction l as [|x l IH]; intros i0 H; simpl in H; [contradiction|].
  destruct H as [H|H].
  - inversion H; subst. rewrite Nat.sub_diag. split; [lia | reflexivity].
  - apply IH in H. destruct H as [Hle Hn]. split; [lia|].
    replace (j - i0)%nat with (S (j - S i0)) by lia. exact Hn.
Qed.

(** The utterance at enumeration index [i] belongs to device [i mod ngpu]. *)
Lemma subset_of_index (ngpu : nat) (train_json : list (Key * Value)) (i : nat)
      (kv : Key * Value) :
  nth_error train_json i = Some kv ->
  In kv (train_json_subset Key Value ngpu (i mod ngpu) train_json).
Proof.
  intros H. unfold train_json_subset. apply in_map_iff.
  exists (i, kv). split; [reflexivity|]. apply filter_In. split.
  - apply (enumerate_from_nth _ 0 i). exact H.
  - simpl. apply Nat.eqb_refl.
Qed.

(** A device holds only utterances whose index is its own modulo [ngpu]. *)
Lemma subset_In (ngpu gid : nat) (train_json : list (Key * Value)) (kv : Key * Value) :
  In kv (train_json_subset Key Value ngpu gid train_json) ->
  exists i, nth_error train_json i = Some kv /\ (i mod ngpu = gid)%nat.
Proof.
  unfold train_json_subset. intros H. apply in_map_iff in H.
  destruct H as ([j kv'] & Hkv & H). simpl in Hkv. subst kv'.
  apply filter_In in H. destruct H as [H Hmod]. simpl in Hmod.
  apply Nat.eqb_eq in Hmod. apply enumerate_from_In in H.
  destruct H as [_ H]. rewrite Nat.sub_0_r in H. eauto.
Qed.

Lemma subsets_disjoint (ngpu g1 g2 : nat) (train_json : list (Key * Value))
      (kv1 kv2 : Key * Value) :
  NoDup (map fst train_json) -> g1 <> g2 ->
  In kv1 (train_json_subset Key Value ngpu g1 train_json) ->
  In kv2 (train_json_subset Key Value ngpu g2 train_json) ->
  fst kv1 <> fst kv2.
Proof.
  intros Hnd Hg H1 H2 Heq.
  apply subset_In in H1. destruct H1 as (i1 & Hn1 & Hm1).
  apply subset_In in H2. destruct H2 as (i2 & Hn2 & Hm2).
  assert (i1 = i2).
  { rewrite NoDup_nth_error in Hnd. apply Hnd.
    - rewrite length_map. apply nth_error_Some. congruence.
    - rewrite !nth_error_map, Hn1, Hn2. simpl. now f_equal. }
  subst. contradiction.
Qed.

Section Grouping.
Context {A : Type} (f : A -> nat).

Local Abbreviation group := (group f).

Lemma groups_cons_other (x : A) (l : list A) (gs : list nat) :
  ~ In (f x) gs ->
  List.concat (map (group (x :: l)) gs) = List.concat (map (group l) gs).
Proof.
  induction gs as [|g gs IH]; intros Hn; [reflexivity|].
  cbn [map List.concat]. rewrite IH by (intros H; apply Hn; now right).
  f_equal. unfold group. simpl filter.
  destruct (Nat.eqb_spec (f x) g) as [Heq|]; [|reflexivity].
  exfalso. apply Hn. left. now symmetry.
Qed.

Lemma groups_cons_one (x : A) (l : list A) (gs : list nat) :
  NoDup gs -> In (f x) gs ->
  Permutation (List.concat (map (group (x :: l)) gs))
              (x :: List.concat (map (group l) gs)).
Proof.
  induction 1 as [|g gs Hnotin Hnd IH]; intros Hin; [contradiction|].
  cbn [map List.concat]. unfold group at 1. simpl filter.
  destruct (Nat.eqb_spec (f x) g) as [Heq|Hne].
  - rewrite groups_cons_other by (rewrite Heq; exact Hnotin). reflexivity.
  - destruct Hin as [Hin|Hin]; [congruence|].
    rewrite (IH Hin). fold (group l g). symmetry. apply Permutation_middle.
Qed.

(** Grouping by a key whose values lie among [gs] rearranges the list. *)
Lemma group_Permutation (gs : list nat) (l : list A) :
  NoDup gs -> Forall (fun x => In (f x) gs) l ->
  Permutation (List.concat (map (group l) gs)) l.
Proof.
  intros Hgs. induction 1 as [|x l Hx _ IH].
  - replace (List.concat (map (group []) gs)) with (@nil A); [constructor|].
    clear Hgs. induction gs as [|g gs IHg]; [reflexivity | exact IHg].
  - rewrite groups_cons_one by assumption. now constructor.
Qed.
End Grouping.

Lemma enumerate_from_snd (l : list (Key * Value)) (i0 : nat) :
  map snd (enumerate_from i0 l) = l.
Proof.
  revert i0. induction l as [|x l IH]; intros i0; simpl; [reflexivity | now rewrite IH].
Qed.

Lemma map_concat {A B : Type} (h : A -> B) (ls : list (list A)) :
  map h (List.concat ls) = List.concat (map (map h) ls).
Proof.
  induction ls as [|l ls IH]; simpl; [reflexivity | now rewrite map_app, IH].
Qed.

(** The shards taken together are the whole corpus. *)
Lemma subsets_cover (ngpu : nat) (train_json : list (Key * Value)) :
  (0 < ngpu)%nat ->
  Permutation
    (List.concat (map (fun gid => train_json_subset Key Value ngpu gid train_json)
                      (seq 0 ngpu)))
    train_json.
Proof.
  intros Hn. unfold train_json_subset.
  apply Permutation_trans with (map snd (enumerate_from 0 train_json));
    [|now rewrite enumerate_from_snd].
  set (f := fun iv : nat * (Key * Value) => (fst iv mod ngpu)%nat).
  change (Permutation
            (List.concat (map (fun gid => map snd (group f (enumerate_from 0 train_json) gid))
                              (seq 0 ngpu)))
            (map snd (enumerate_from 0 train_json))).
  rewrite <- (map_map (group f (enumerate_from 0 train_json)) (map snd)).
  rewrite <- map_concat. apply Permutation_map.
  apply group_Permutation.
  - apply seq_NoDup.
  - apply Forall_forall. intros iv _. apply in_seq.
    pose proof (Nat.mod_upper_bound (fst iv) ngpu). unfold f. lia.
Qed.
End Shards.

(** ** Equalising the shards *)
Section Equalize.
Variable Minibatch : Type.

Local Abbreviation cyclic_extension := (cyclic_extension Minibatch).

Lemma extend_subset_cyclic (orig : list Minibatch) :
  orig <> [] ->
  forall (n i : nat) (ts : list Minibatch),
    cyclic_extension orig (List.length orig + i) ts ->
    exists out, extend_subset Minibatch n i ts = Returns out /\
                cyclic_extension orig (List.length orig + i + n) out.
Proof.
  intros Hne. assert (HL : (0 < List.length orig)%nat) by (destruct orig; simpl; [congruence | lia]).
  induction n as [|n IH]; intros i ts [Hlen Hnth]; simpl.
  - exists ts. split; [reflexivity|]. rewrite Nat.add_0_r. now split.
  - destruct (nth_error ts i) as [b|] eqn:Eb.
    + destruct (IH (S i) (ts ++ [b])) as (out & Hout & Hcyc).
      * split; [rewrite length_app; simpl; lia|].
        intros j Hj. destruct (Nat.eq_dec j (List.length orig + i)) as [->|Hneq].
        -- rewrite nth_error_app2 by lia. rewrite Hlen, Nat.sub_diag. simpl.
           rewrite <- Eb, Hnth by lia.
           f_equal.
           replace (List.length orig + i)%nat with (i + 1 * List.length orig)%nat by lia.
           now rewrite Nat.Div0.mod_add.
        -- rewrite nth_error_app1 by lia. apply Hnth. lia.
      * exists out. split; [exact Hout|].
        now replace (List.length orig + i + S n)%nat with (List.length orig + S i + n)%nat by lia.
    + exfalso. apply nth_error_None in Eb. lia.
Qed.

Lemma equalize_step (maxlen : nat) (ts : list Minibatch) :
  ts <> [] -> (List.length ts <= maxlen)%nat ->
  exists out,
    (if (maxlen =? List.length ts)%nat then Returns ts
     else extend_subset Minibatch (maxlen - List.length ts) 0 ts) = Returns out /\
    cyclic_extension ts maxlen out.
Proof.
  intros Hts Hle.
  destruct (Nat.eqb_spec maxlen (List.length ts)) as [Heq|Hneq].
  - exists ts. split; [reflexivity|]. split; [now symmetry|].
    intros j Hj. rewrite Nat.mod_small by lia. reflexivity.
  - destruct (extend_subset_cyclic ts Hts (maxlen - List.length ts) 0 ts) as (out & Ho & Hc).
    + split; [lia|]. intros j Hj. rewrite Nat.mod_small by lia. reflexivity.
    + exists out. split; [exact Ho|].
      now replace (List.length ts + 0 + (maxlen - List.length ts))%nat with maxlen in Hc by lia.
Qed.

(** Every shard is extended to the length of the longest one by repeating
    its own entries from the first on. *)
Lemma equalize_cyclic (train_subsets : list (list Minibatch)) :
  train_subsets <> [] -> Forall (fun ts => ts <> []) train_subsets ->
  exists out,
    equalize Minibatch train_subsets = Returns out /\
    Forall2 (fun ts ts' =>
               cyclic_extension ts (list_max (map (@List.length Minibatch) train_subsets)) ts')
            train_subsets out.
Proof.
  intros Hne Hall.
  set (maxlen := list_max (map (@List.length Minibatch) train_subsets)).
  assert (Hmax : Forall (fun ts => (List.length ts <= maxlen)%nat) train_subsets).
  { apply Forall_forall. intros ts Hin.
    pose proof (list_max_le (map (@List.length Minibatch) train_subsets) maxlen) as [Hle _].
    specialize (Hle (Nat.le_refl _)). rewrite Forall_forall in Hle.
    apply Hle. now apply in_map. }
  assert (Hbody : exists out,
             mapM (fun train_subset =>
                     if (maxlen =? List.length train_subset)%nat then Returns train_subset
                     else extend_subset Minibatch (maxlen - List.length train_subset) 0
                                        train_subset) train_subsets = Returns out /\
             Forall2 (fun ts ts' => cyclic_extension ts maxlen ts') train_subsets out).
  { apply mapM_Forall2. clearbody maxlen. clear Hne.
    induction Hall as [|ts l Hts _ IH]; [constructor|].
    inversion Hmax; subst. constructor; [now apply equalize_step | now apply IH]. }
  unfold equalize. destruct train_subsets; [congruence | exact Hbody].
Qed.
Lemma extend_subset_length (n i : nat) (ts out : list Minibatch) :
  extend_subset Minibatch n i ts = Returns out ->
  List.length out = (List.length ts + n)%nat.
Proof.
  revert i ts. induction n as [|n IH]; intros i ts H; simpl in H.
  - inversion H; subst. lia.
  - destruct (nth_error ts i) as [b|]; [|discriminate].
    apply IH in H. rewrite length_app in H. simpl in H. lia.
Qed.

(** Whenever the equalising step returns, all shards have the length of the
    longest one. *)
Lemma equalize_lengths (train_subsets out : list (list Minibatch)) :
  equalize Minibatch train_subsets = Returns out ->
  Forall (fun ts' => List.length ts' = list_max (map (@List.length Minibatch) train_subsets))
         out.
Proof.
  unfold equalize. destruct train_subsets as [|t0 rest] eqn:E; [discriminate|].
  rewrite <- E. clear E t0 rest.
  set (maxlen := list_max (map (@List.length Minibatch) train_subsets)).
  assert (Hmax : Forall (fun ts => (List.length ts <= maxlen)%nat) train_subsets).
  { apply Forall_forall. intros ts Hin.
    pose proof (list_max_le (map (@List.length Minibatch) train_subsets) maxlen) as [Hle _].
    specialize (Hle (Nat.le_refl _)). rewrite Forall_forall in Hle.
    apply Hle. now apply in_map. }
  clearbody maxlen. intros H. apply mapM_Returns in H.
  induction H as [|ts ts' l l' Hts _ IH]; constructor.
  - inversion Hmax; subst.
    destruct (Nat.eqb_spec maxlen (List.length ts)) as [Heq|Hneq].
    + inversion Hts; subst. now symmetry.
    + apply extend_subset_length in Hts. lia.
  - apply IH. now inversion Hmax.
Qed.
End Equalize.

End ShardFacts.

Import ShardFacts.

(** C8.  For [ngpu > 1]: the utterance at enumeration index [i] is in the
    subset of device [i mod ngpu]; subsets of different devices share no
    utterance id; the subsets together are the whole corpus.  Each device's
    batch list is what [make_batchset] returns for its subset, and when none
    of these lists is empty each one is extended to the length of the longest
    by repeating its own minibatches from index 0 on, cyclically, so that all
    devices end with the same number of minibatches.  Whenever the set-up
    returns at all, every device's list has the length of the longest one. *)
Theorem multi_gpu_shards :
  forall (Key Value Minibatch : Type)
         (make_batchset : list (Key * Value) -> outcome (list Minibatch))
         (ngpu : nat) (train_json : list (Key * Value)),
    (1 < ngpu)%nat ->
    (forall i kv, nth_error train_json i = Some kv ->
                  In kv (train_json_subset Key Value ngpu (i mod ngpu) train_json)) /\
    (NoDup (map fst train_json) ->
     forall g1 g2 kv1 kv2,
       g1 <> g2 ->
       In kv1 (train_json_subset Key Value ngpu g1 train_json) ->
       In kv2 (train_json_subset Key Value ngpu g2 train_json) ->
       fst kv1 <> fst kv2) /\
    Permutation
      (List.concat (map (fun gid => train_json_subset Key Value ngpu gid train_json)
                        (seq 0 ngpu)))
      train_json /\
    (forall train_subsets,
        make_train_subsets Key Value Minibatch make_batchset ngpu train_json
          = Returns train_subsets ->
        Forall2 (fun gid ts =>
                   make_batchset (train_json_subset Key Value ngpu gid train_json) = Returns ts)
                (seq 0 ngpu) train_subsets /\
        (Forall (fun ts => ts <> []) train_subsets ->
         let maxlen := list_max (map (@List.length Minibatch) train_subsets) in
         exists out,
           multi_gpu_subsets Key Value Minibatch make_batchset ngpu train_json = Returns out /\
           Forall2 (fun ts ts' => cyclic_extension Minibatch ts maxlen ts') train_subsets out /\
           Forall (fun ts' => List.length ts' = maxlen) out)) /\
    (forall out,
        multi_gpu_subsets Key Value Minibatch make_batchset ngpu train_json = Returns out ->
        exists train_subsets,
          make_train_subsets Key Value Minibatch make_batchset ngpu train_json
            = Returns train_subsets /\
          Forall (fun ts' =>
                    List.length ts' = list_max (map (@List.length Minibatch) train_subsets))
                 out).
Proof.
  intros Key Value Minibatch make_batchset ngpu train_json Hn.
  split; [|split; [|split; [|split]]];
    [| | | |
     intros out H; unfold multi_gpu_subsets in H;
     apply bind_Returns in H; destruct H as (train_subsets & Hsub & Heq);
     exists train_subsets; split; [exact Hsub | now apply equalize_lengths]].
  - intros i kv. apply subset_of_index.
  - intros Hnd g1 g2 kv1 kv2. now apply subsets_disjoint.
  - apply subsets_cover. lia.
  - intros train_subsets Hsub.
    pose proof (mapM_Returns _ _ _ Hsub) as HF. split; [exact HF|].
    intros Hall maxlen.
    assert (Hne : train_subsets <> []).
    { apply Forall2_length in HF. rewrite length_seq in HF.
      destruct train_subsets; [simpl in HF; lia | discriminate]. }
    destruct (equalize_cyclic Minibatch train_subsets Hne Hall) as (out & Heq & Hcyc).
    exists out. split; [|split].
    + unfold multi_gpu_subsets. rewrite Hsub. exact Heq.
    + exact Hcyc.
    + fold maxlen in Hcyc. clearbody maxlen. clear - Hcyc.
      induction Hcyc as [|ts ts' l l' [Hlen _] _ IH]; constructor; assumption.
Qed.

Lemma multi_gpu_shards_witness :
  Permutation
    (List.concat (map (fun gid => train_json_subset string Z 2 gid shard_json) (seq 0 2)))
    shard_json /\
  exists out,
    multi_gpu_subsets string Z (list string) shard_batches 2 shard_json = Returns out /\
    Forall2 (fun ts ts' => cyclic_extension (list string) ts 3 ts')
            [[["a"]; ["c"]; ["e"]]; [["b"]; ["d"]]] out /\
    Forall (fun ts' => List.length ts' = 3%nat) out.
Proof.
  destruct (multi_gpu_shards string Z (list string) shard_batches 2 shard_json)
    as (_ & _ & Hcover & Hbatches & _); [lia|].
  split; [exact Hcover|].
  destruct (Hbatches [[["a"]; ["c"]; ["e"]]; [["b"]; ["d"]]] eq_refl) as [_ Hpad].
  apply Hpad. repeat constructor; discriminate.
Defined.

(* ===================================================================== *)
(** * More about the batch plan *)
(* ===================================================================== *)

Module TileFacts.

Lemma slice_app_skipn {A : Type} (l : list A) (s e : Z) :
  0 <= s -> s <= e -> e <= len l ->
  slice l s e ++ skipn (Z.to_nat e) l = skipn (Z.to_nat s) l.
Proof.
  intros Hs Hse He. rewrite slice_inside by lia.
  replace (Z.to_nat e) with (Z.to_nat s + Z.to_nat (e - s))%nat by lia.
  rewrite skipn_add. apply firstn_skipn.
Qed.

(** A plan cuts the ordered corpus into consecutive windows: minibatch
    number [i] is window number [i], reversed under [shortest_first] and
    followed by its padding. *)
Lemma plan_from_tiles (bs max_in max_out : Z) (key : string) (mbs : Z) (sf : bool)
      (sd : list Item) :
  (forall s e, 0 <= s <= len sd ->
               window_end bs max_in max_out key sd s = Returns e -> s <= e <= len sd) ->
  forall (start : Z) (plan : list (list Item)),
    plan_from bs max_in max_out key mbs sf sd start plan ->
    0 <= start <= len sd ->
    exists ws,
      List.concat ws = skipn (Z.to_nat start) sd /\
      Forall2 (fun w mb =>
                 exists s e pad,
                   0 <= s <= e /\ e <= len sd /\
                   window_end bs max_in max_out key sd s = Returns e /\
                   w = slice sd s e /\
                   mb = maybe_rev sf w ++ pad /\
                   padding mbs sf sd s w pad) ws plan.
Proof.
  intros Hprog start plan Hplan.
  induction Hplan as [start mb Hw Hmb | start end_ mb rest Hw Hne Hmb Hrest IH];
    intros Hstart.
  - destruct Hmb as (pad & -> & Hpad).
    exists [slice sd start (len sd)]. split.
    + cbn [List.concat]. rewrite app_nil_r. apply slice_suffix. lia.
    + constructor; [|constructor].
      exists start, (len sd), pad. repeat split; try lia; assumption.
  - pose proof (Hprog _ _ Hstart Hw) as He.
    destruct IH as (ws & Hcat & Hall); [lia|].
    destruct Hmb as (pad & -> & Hpad).
    exists (slice sd start end_ :: ws). split.
    + cbn [List.concat]. rewrite Hcat. apply slice_app_skipn; lia.
    + constructor; [|exact Hall].
      exists start, end_, pad. repeat split; try lia; assumption.
Qed.

Lemma window_end_bounds (bs max_in max_out : Z) (key : string) (sd : list Item)
      (s e : Z) :
  (key = "shuffle" /\ 0 <= bs) \/ length_sorted_key key ->
  0 <= s <= len sd ->
  window_end bs max_in max_out key sd s = Returns e -> s <= e <= len sd.
Proof.
  intros [[-> Hbs] | Hkey] Hs Hw.
  - rewrite window_end_shuffle in Hw. inversion Hw; subst. lia.
  - destruct (window_end_progress _ _ _ _ _ _ _ Hkey (proj1 Hs) Hw) as [H _]. lia.
Qed.

Lemma padding_none (mbs : Z) (sf : bool) (sd : list Item) (s : Z) (w pad : list Item) :
  padding mbs sf sd s w pad -> mbs <= len w -> pad = [].
Proof. intros [[_ H] | [H _]] Hle; [exact H | lia]. Qed.

Lemma padding_len (mbs : Z) (sf : bool) (sd : list Item) (s : Z) (w pad : list Item) :
  padding mbs sf sd s w pad -> len (w ++ pad) = Z.max (len w) mbs.
Proof.
  intros [[Hle ->] | [Hlt (idx & drawn & Hlen & _ & Hall & ->)]].
  - rewrite app_nil_r. lia.
  - rewrite len_app, len_maybe_rev.
    assert (len drawn = len idx) as ->.
    { unfold len. f_equal. symmetry. eapply Forall2_length. exact Hall. }
    rewrite Hlen. pose proof (len_nonneg w).
    rewrite Z.mod_small by lia. lia.
Qed.

Lemma StronglySorted_app_l {A : Type} (R : A -> A -> Prop) (l1 l2 : list A) :
  StronglySorted R (l1 ++ l2) -> StronglySorted R l1.
Proof.
  induction l1 as [|x l1 IH]; intros H; [constructor|].
  cbn in H. apply StronglySorted_inv in H. destruct H as [H1 H2].
  constructor; [auto|]. apply Forall_app in H2. tauto.
Qed.

Lemma StronglySorted_app_r {A : Type} (R : A -> A -> Prop) (l1 l2 : list A) :
  StronglySorted R (l1 ++ l2) -> StronglySorted R l2.
Proof.
  induction l1 as [|x l1 IH]; intros H; [exact H|].
  cbn in H. apply StronglySorted_inv in H. tauto.
Qed.

Lemma StronglySorted_app_cross {A : Type} (R : A -> A -> Prop) (l1 l2 : list A) :
  StronglySorted R (l1 ++ l2) -> forall a b, In a l1 -> In b l2 -> R a b.
Proof.
  induction l1 as [|x l1 IH]; intros H a b Ha Hb; [contradiction|].
  cbn in H. apply StronglySorted_inv in H. destruct H as [H1 H2].
  destruct Ha as [->|Ha]; [|eauto].
  rewrite Forall_forall in H2. apply H2, in_or_app. now right.
Qed.

Lemma sort_data_sorted (key : string) (sf : bool) (data sd : list Item) (r r1 : Rng) :
  length_sorted_key key ->
  sort_data key sf data r = Returns (sd, r1) ->
  sd = sorted (sort_length key) data (negb sf) /\
  StronglySorted (descending (sort_length key)) (maybe_rev sf sd) /\
  (if sf then StronglySorted (ascending (sort_length key)) sd
   else StronglySorted (descending (sort_length key)) sd).
Proof.
  intros Hkey Hsd. rewrite sort_data_length_sorted in Hsd by assumption.
  inversion Hsd; subst; clear Hsd.
  split; [reflexivity|].
  destruct sf; cbn [negb maybe_rev].
  - split; [apply rev_ascending|]; apply sorted_ascending.
  - split; apply sorted_reverse_descending.
Qed.

End TileFacts.

Import TileFacts.

(** ** The plan is never empty *)

Lemma make_batchset_nonempty (fuel : nat) (r : Rng) (data : list Item)
      (bs max_in max_out num : Z) (key : string) (mbs : Z) (sf : bool)
      (plan : list (list Item)) :
  make_batchset fuel r data bs max_in max_out num key mbs sf = Returns plan ->
  plan <> [] /\ Forall (fun mb => mbs <= len mb) plan.
Proof.
  intros H.
  destruct (make_batchset_Returns _ _ _ _ _ _ _ _ _ _ _ H)
    as (sd & r1 & full & Hsd & Hlen & Hplan & ->).
  assert (Hfull : full <> []) by (inversion Hplan; discriminate).
  assert (Hmb : Forall (fun mb : list Item => mbs <= len mb) full).
  { eapply plan_from_Forall; [|exact Hplan].
    intros s e mb Hof. eapply minibatch_of_len. exact Hof. }
  destruct (Z.gtb_spec num 0) as [Hnum|Hnum]; [|split; assumption].
  split.
  - intros Hnil. apply (f_equal len) in Hnil.
    rewrite len_slice_from_zero in Hnil. unfold slice_bound in Hnil.
    destruct (Z.ltb_spec num 0); [lia|].
    destruct full; [congruence|]. unfold len in Hnil. cbn in Hnil. lia.
  - apply Forall_slice. exact Hmb.
Qed.

Lemma Forall_len_nonempty {A : Type} (n : Z) (l : list (list A)) :
  1 <= n -> Forall (fun x => n <= len x) l -> Forall (fun x => x <> []) l.
Proof.
  intros Hn H. eapply Forall_impl; [|exact H].
  intros x Hx ->. unfold len in Hx. cbn in Hx. lia.
Qed.

(** X1. [make_batchset] never returns an empty plan, also when
    [num_batches] truncates it; and with [min_batch_size >= 1] none of the
    minibatches is empty.  (With [min_batch_size <= 0] an empty corpus under
    key ['shuffle'] gives the plan [[[]]], one empty minibatch.) *)
Theorem plan_never_empty :
  (forall (fuel : nat) (r : Rng) (data : list Item) (bs max_in max_out num : Z)
          (key : string) (mbs : Z) (sf : bool) (plan : list (list Item)),
      make_batchset fuel r data bs max_in max_out num key mbs sf = Returns plan ->
      plan <> [] /\ (1 <= mbs -> Forall (fun mb => mb <> []) plan)) /\
  (forall (fuel : nat) (r : Rng) (bs max_in max_out num mbs : Z) (sf : bool),
      0 <= bs -> mbs <= 0 ->
      make_batchset (S fuel) r [] bs max_in max_out num "shuffle" mbs sf = Returns [[]]).
Proof.
  split.
  - intros fuel r data bs max_in max_out num key mbs sf plan H.
    destruct (make_batchset_nonempty _ _ _ _ _ _ _ _ _ _ _ H) as [Hne Hall].
    split; [exact Hne|].
    intros Hmbs. eapply Forall_len_nonempty; eassumption.
  - intros fuel r bs max_in max_out num mbs sf Hbs Hmbs.
    unfold make_batchset, make_batchset_body.
    rewrite sort_data_shuffle. cbn [List.length random_sample bind].
    destruct (Z.ltb_spec (len (@nil Item)) mbs) as [Hlt|_];
      [unfold len in Hlt; cbn in Hlt; lia|].
    cbn [batch_loop]. rewrite window_end_shuffle. cbn [bind].
    replace (Z.min (len (@nil Item)) (0 + bs)) with 0
      by (unfold len; cbn; lia).
    rewrite make_minibatch_full by (unfold slice, len; cbn; lia).
    cbn [bind app]. unfold slice at 1. cbn.
    destruct sf; cbn; destruct (Z.gtb_spec num 0); try reflexivity;
      unfold slice, slice_bound, len; cbn;
      destruct (Z.ltb_spec num 0); try lia;
      replace (Z.to_nat (Z.min num 1 - 0)) with 1%nat by lia; reflexivity.
Qed.

Lemma plan_never_empty_witness :
  ([[pad_a; pad_b]; [pad_c; pad_a]] <> [] /\
   (1 <= 2 -> Forall (fun mb : list Item => mb <> []) [[pad_a; pad_b]; [pad_c; pad_a]])) /\
  make_batchset 1 zero_rng [] 2 800 150 0 "shuffle" 0 false = Returns [[]].
Proof.
  split.
  - apply (proj1 plan_never_empty 2%nat zero_rng [pad_a; pad_b; pad_c] 2 800 150 0
                 "shuffle" 2 false).
    reflexivity.
  - apply (proj2 plan_never_empty 0%nat zero_rng 2 800 150 0 0 false); lia.
Defined.

(** ** Windows of a returned plan *)

Module WindowFacts.

Lemma make_batchset_windows (fuel : nat) (r : Rng) (data : list Item)
      (bs max_in max_out num : Z) (key : string) (mbs : Z) (sf : bool)
      (plan : list (list Item)) :
  make_batchset fuel r data bs max_in max_out num key mbs sf = Returns plan ->
  (key = "shuffle" /\ 0 <= bs) \/ length_sorted_key key ->
  exists sd r1 ws full,
    sort_data key sf data r = Returns (sd, r1) /\
    List.concat ws = sd /\
    Forall2 (window_of bs max_in max_out key mbs sf sd) ws full /\
    plan = (if num >? 0 then slice full 0 num else full).
Proof.
  intros H Hkey.
  destruct (make_batchset_Returns _ _ _ _ _ _ _ _ _ _ _ H)
    as (sd & r1 & full & Hsd & Hlen & Hplan & ->).
  destruct (plan_from_tiles bs max_in max_out key mbs sf sd) with (start := 0) (plan := full)
    as (ws & Hcat & Hall).
  - intros s e. apply window_end_bounds. exact Hkey.
  - exact Hplan.
  - pose proof (len_nonneg sd). lia.
  - exists sd, r1, ws, full. repeat split; assumption.
Qed.


Lemma Forall2_In_r {A B : Type} (R : A -> B -> Prop) (l1 : list A) (l2 : list B) (b : B) :
  Forall2 R l1 l2 -> In b l2 -> exists a, In a l1 /\ R a b.
Proof.
  induction 1 as [|a b' l1 l2 HR _ IH]; intros Hin; [contradiction|].
  destruct Hin as [->|Hin].
  - exists a. split; [now left | exact HR].
  - destruct (IH Hin) as (a' & Ha' & HR'). exists a'. split; [now right | exact HR'].
Qed.

Lemma In_concat_piece {A : Type} (ws : list (list A)) (w : list A) (x : A) :
  In w ws -> In x w -> In x (List.concat ws).
Proof. intros Hw Hx. apply in_concat. eauto. Qed.

Lemma concat_maybe_rev_Permutation {A : Type} (b : bool) (ws : list (list A)) :
  Permutation (List.concat (map (maybe_rev b) ws)) (List.concat ws).
Proof.
  induction ws as [|w ws IH]; [constructor|].
  cbn [map List.concat]. apply Permutation_app; [apply maybe_rev_Permutation | exact IH].
Qed.

(** A window of a length-sorted corpus is not empty. *)
Lemma window_of_nonempty (bs max_in max_out : Z) (key : string) (mbs : Z) (sf : bool)
      (sd w mb : list Item) :
  length_sorted_key key ->
  window_of bs max_in max_out key mbs sf sd w mb -> 1 <= len w.
Proof.
  intros Hkey (s & e & pad & Hs & He & Hw & -> & _ & _).
  destruct (window_end_progress _ _ _ _ _ _ _ Hkey (proj1 Hs) Hw) as [H _].
  rewrite len_slice_inside by lia. lia.
Qed.

Lemma len_pos_nonempty {A : Type} (l : list A) : 1 <= len l -> l <> [].
Proof. intros H ->. unfold len in H. cbn in H. lia. Qed.

(** The loop on a length-sorted corpus when no window needs padding. *)
Lemma batch_loop_unpadded_total (bs max_in max_out : Z) (key : string) (mbs : Z)
      (sf : bool) (sd : list Item) :
  length_sorted_key key -> mbs <= 1 ->
  (forall s, 0 <= s < len sd ->
             exists e, window_end bs max_in max_out key sd s = Returns e) ->
  forall (fuel : nat) (start : Z) (acc : list (list Item)) (r : Rng),
    0 <= start < len sd -> len sd - start <= Z.of_nat fuel ->
    exists plan,
      batch_loop bs max_in max_out key mbs sf sd fuel start acc r = Returns plan.
Proof.
  intros Hkey Hmbs Hwin fuel.
  induction fuel as [|fuel IH]; intros start acc r Hstart Hfuel; [lia|].
  destruct (Hwin start Hstart) as (e & He).
  destruct (window_end_progress _ _ _ _ _ _ _ Hkey (proj1 Hstart) He) as [Hp _].
  cbn [batch_loop]. rewrite He. cbn [bind].
  rewrite make_minibatch_full by (rewrite len_slice_inside by lia; lia).
  cbn [bind].
  destruct (Z.eqb_spec e (len sd)); [eauto|].
  apply IH; lia.
Qed.

(** With lengths that are not negative, positive maxima and
    [min_batch_size <= 1], a length-sorted corpus that is not empty is cut
    into non-empty windows, none of them padded. *)
Lemma make_batchset_length_sorted_tiles (fuel : nat) (r : Rng) (data : list Item)
      (bs max_in max_out num : Z) (key : string) (mbs : Z) (sf : bool) :
  length_sorted_key key -> mbs <= 1 -> 0 < max_in -> 0 < max_out ->
  Forall (fun it => 0 <= ilen it /\ 0 <= olen it) data ->
  0 < len data -> num <= 0 -> (List.length data <= fuel)%nat ->
  exists windows,
    make_batchset fuel r data bs max_in max_out num key mbs sf
    = Returns (map (maybe_rev sf) windows) /\
    List.concat windows = sorted (sort_length key) data (negb sf) /\
    Forall (fun w => w <> []) windows.
Proof.
  intros Hkey Hmbs Hin Hout Hwf Hne Hnum Hfuel.
  pose proof (sort_data_length_sorted key sf data r Hkey) as Hsd.
  set (sd := sorted (sort_length key) data (negb sf)) in *.
  assert (Hlen : len sd = len data)
    by (apply len_Permutation, sorted_Permutation).
  destruct (batch_loop_unpadded_total bs max_in max_out key mbs sf sd Hkey Hmbs)
    with (fuel := fuel) (start := 0) (acc := @nil (list Item)) (r := r)
    as (full & Hfull).
  - intros s Hs.
    destruct (nth_error sd (Z.to_nat s)) as [first|] eqn:Hnth.
    + destruct (adaptive_window data sd r r key sf bs max_in max_out s first)
        as [Hw _]; try assumption; try lia.
      eexists. exact Hw.
    + apply nth_error_None in Hnth. unfold len in Hs. lia.
  - lia.
  - unfold len in *. lia.
  - assert (H : make_batchset fuel r data bs max_in max_out num key mbs sf = Returns full).
    { unfold make_batchset, make_batchset_body. rewrite Hsd. cbn [bind].
      destruct (Z.ltb_spec (len sd) mbs); [lia|].
      rewrite Hfull. cbn [bind].
      destruct (Z.gtb_spec num 0); [lia | reflexivity]. }
    destruct (make_batchset_windows _ _ _ _ _ _ _ _ _ _ _ H (or_intror Hkey))
      as (sd' & r1 & ws & full' & Hsd' & Hcat & Hall & Hplan).
    assert (Esd : sd' = sd) by congruence.
    rewrite Esd in Hcat, Hall. clear Esd Hsd'.
    destruct (Z.gtb_spec num 0); [lia|]. subst full'.
    exists ws. split; [|split].
    + rewrite H. f_equal.
      clear - Hall Hkey Hmbs.
      induction Hall as [|w mb ws' full' Hw _ IH]; [reflexivity|].
      cbn [map]. f_equal; [|exact IH].
      pose proof (window_of_nonempty _ _ _ _ _ _ _ _ _ Hkey Hw) as Hpos.
      destruct Hw as (s & e & pad & _ & _ & _ & _ & -> & Hpad).
      rewrite (padding_none _ _ _ _ _ _ Hpad) by lia.
      apply app_nil_r.
    + exact Hcat.
    + clear - Hall Hkey.
      induction Hall as [|w mb ws' full' Hw _ IH]; constructor; [|exact IH].
      apply len_pos_nonempty. eapply window_of_nonempty; eassumption.
Qed.

End WindowFacts.

Import WindowFacts.

(** X2. For the length-sorted keys, with lengths that are not negative,
    positive maximum lengths, [min_batch_size <= 1] and a corpus that is
    not empty, [make_batchset] returns (once the fuel covers the corpus) a
    plan that cuts the sorted corpus into consecutive non-empty windows:
    undoing the reversal of [shortest_first] and concatenating the
    minibatches gives back [sorted(data, key, reverse=not shortest_first)],
    so the plan holds every utterance exactly once. *)
Theorem length_sorted_plan_tiles_corpus :
  forall (fuel : nat) (r : Rng) (data : list Item) (bs max_in max_out num : Z)
         (key : string) (mbs : Z) (sf : bool),
    length_sorted_key key -> mbs <= 1 -> 0 < max_in -> 0 < max_out ->
    Forall (fun it => 0 <= ilen it /\ 0 <= olen it) data ->
    0 < len data -> num <= 0 -> (List.length data <= fuel)%nat ->
    exists windows,
      make_batchset fuel r data bs max_in max_out num key mbs sf
      = Returns (map (maybe_rev sf) windows) /\
      List.concat windows = sorted (sort_length key) data (negb sf) /\
      Forall (fun w => w <> []) windows /\
      Permutation (List.concat (map (maybe_rev sf) windows)) data.
Proof.
  intros fuel r data bs max_in max_out num key mbs sf
         Hkey Hmbs Hin Hout Hwf Hne Hnum Hfuel.
  destruct (make_batchset_length_sorted_tiles fuel r data bs max_in max_out num key mbs sf)
    as (ws & H & Hcat & Hnonempty); try assumption.
  exists ws. repeat split; try assumption.
  rewrite concat_maybe_rev_Permutation, Hcat. apply sorted_Permutation.
Qed.

Lemma length_sorted_plan_tiles_corpus_witness :
  exists windows,
    make_batchset 3 zero_rng [sort_a; sort_b; sort_c] 2 800 150 0 "input" 1 true
    = Returns (map (maybe_rev true) windows) /\
    List.concat windows = sorted (sort_length "input") [sort_a; sort_b; sort_c] (negb true) /\
    Forall (fun w => w <> []) windows /\
    Permutation (List.concat (map (maybe_rev true) windows)) [sort_a; sort_b; sort_c].
Proof.
  apply (length_sorted_plan_tiles_corpus 3 zero_rng [sort_a; sort_b; sort_c] 2 800 150 0
                                         "input" 1 true).
  - left; reflexivity.
  - lia.
  - lia.
  - lia.
  - repeat constructor; cbn; lia.
  - reflexivity.
  - lia.
  - cbn; lia.
Defined.

Module ChainFacts.

Lemma firstn_len_app {A : Type} (l l' : list A) (n : Z) :
  n = len l -> firstn (Z.to_nat n) (l ++ l') = l.
Proof.
  intros ->. unfold len. rewrite Nat2Z.id, firstn_app, Nat.sub_diag, firstn_all.
  cbn. apply app_nil_r.
Qed.

Lemma plan_from_chain (bs max_in max_out : Z) (key : string) (mbs : Z) (sf : bool)
      (sd : list Item) (P : Z -> Z -> list Item -> Prop) :
  length_sorted_key key ->
  (forall s e mb, 0 <= s < e -> e <= len sd ->
                  minibatch_of mbs sf sd s e mb -> P s e mb) ->
  forall (start : Z) (plan : list (list Item)),
    plan_from bs max_in max_out key mbs sf sd start plan -> 0 <= start ->
    chain bs max_in max_out key sd P start plan.
Proof.
  intros Hkey HP start plan Hplan.
  induction Hplan as [start mb Hw Hmb | start e mb rest Hw Hne Hmb Hrest IH];
    intros Hstart;
    destruct (window_end_progress _ _ _ _ _ _ _ Hkey Hstart Hw) as [Hp _].
  - apply chain_last; [exact Hw|]. apply HP; [lia | lia | exact Hmb].
  - eapply chain_next; [exact Hw | exact Hne | |].
    + apply HP; [lia | lia | exact Hmb].
    + apply IH. lia.
Qed.

Lemma chain_Forall (bs max_in max_out : Z) (key : string) (sd : list Item)
      (P : Z -> Z -> list Item -> Prop) (Q : list Item -> Prop) :
  (forall s e mb, P s e mb -> Q mb) ->
  forall start plan, chain bs max_in max_out key sd P start plan -> Forall Q plan.
Proof.
  intros HPQ start plan H.
  induction H; constructor; eauto.
Qed.

End ChainFacts.

Import ChainFacts.

(** X3. For the length-sorted keys a returned plan follows the chain of
    windows from position 0 of the sorted corpus, and each minibatch starts
    with its own window [sorted_data[s:e]], which is not empty and runs
    from the longest utterance to the shortest, under [shortest_first] too
    (there the corpus is sorted in ascending order and each window is
    reversed).  A window of at least [min_batch_size] entries is the whole
    minibatch; so for [min_batch_size <= 1] every minibatch of the plan is
    ordered from the longest utterance to the shortest. *)
Theorem minibatches_run_longest_first :
  forall (fuel : nat) (r : Rng) (data : list Item) (bs max_in max_out num : Z)
         (key : string) (mbs : Z) (sf : bool) (plan : list (list Item)),
    length_sorted_key key ->
    make_batchset fuel r data bs max_in max_out num key mbs sf = Returns plan ->
    exists sd r1 full,
      sort_data key sf data r = Returns (sd, r1) /\
      plan = (if num >? 0 then slice full 0 num else full) /\
      chain bs max_in max_out key sd
            (fun s e mb =>
               0 <= s < e /\ e <= len sd /\
               firstn (Z.to_nat (e - s)) mb = maybe_rev sf (slice sd s e) /\
               StronglySorted (descending (sort_length key))
                              (firstn (Z.to_nat (e - s)) mb) /\
               (mbs <= e - s -> mb = maybe_rev sf (slice sd s e)))
            0 full /\
      (mbs <= 1 -> Forall (StronglySorted (descending (sort_length key))) plan).
Proof.
  intros fuel r data bs max_in max_out num key mbs sf plan Hkey H.
  destruct (make_batchset_Returns _ _ _ _ _ _ _ _ _ _ _ H)
    as (sd & r1 & full & Hsd & _ & Hplan & ->).
  destruct (sort_data_sorted _ _ _ _ _ _ Hkey Hsd) as (_ & _ & Hsorted).
  assert (Hwin : forall s e, StronglySorted (descending (sort_length key))
                                            (maybe_rev sf (slice sd s e))).
  { intros s e. destruct sf; cbn [maybe_rev].
    - apply rev_ascending. apply StronglySorted_slice. exact Hsorted.
    - apply StronglySorted_slice. exact Hsorted. }
  assert (Hchain :
    chain bs max_in max_out key sd
          (fun s e mb =>
             0 <= s < e /\ e <= len sd /\
             firstn (Z.to_nat (e - s)) mb = maybe_rev sf (slice sd s e) /\
             StronglySorted (descending (sort_length key))
                            (firstn (Z.to_nat (e - s)) mb) /\
             (mbs <= e - s -> mb = maybe_rev sf (slice sd s e)))
          0 full).
  { eapply plan_from_chain; [exact Hkey | | exact Hplan | lia].
    intros s e mb Hs He (pad & -> & Hpad).
    assert (Hlen : e - s = len (maybe_rev sf (slice sd s e)))
      by (rewrite len_maybe_rev, len_slice_inside; lia).
    rewrite (firstn_len_app _ _ _ Hlen).
    repeat split; try lia; try apply Hwin.
    intros Hmbs. rewrite (padding_none _ _ _ _ _ _ Hpad).
    - apply app_nil_r.
    - rewrite len_slice_inside; lia. }
  exists sd, r1, full. split; [exact Hsd|]. split; [reflexivity|].
  split; [exact Hchain|].
  intros Hmbs.
  assert (Hfull : Forall (StronglySorted (descending (sort_length key))) full).
  { eapply chain_Forall; [|exact Hchain].
    cbv beta. intros s e mb (Hs & He & _ & _ & Hmb).
    rewrite Hmb by lia. apply Hwin. }
  destruct (num >? 0); [apply Forall_slice|]; exact Hfull.
Qed.

Lemma minibatches_run_longest_first_witness :
  make_batchset 3 zero_rng [sort_a; sort_b; sort_c] 2 800 150 0 "input" 1 true
  = Returns [[sort_c; sort_a]; [sort_b]] /\
  exists sd r1 full,
    sort_data "input" true [sort_a; sort_b; sort_c] zero_rng = Returns (sd, r1) /\
    [[sort_c; sort_a]; [sort_b]] = (if 0 >? 0 then slice full 0 0 else full) /\
    chain 2 800 150 "input" sd
          (fun s e mb =>
             0 <= s < e /\ e <= len sd /\
             firstn (Z.to_nat (e - s)) mb = maybe_rev true (slice sd s e) /\
             StronglySorted (descending (sort_length "input"))
                            (firstn (Z.to_nat (e - s)) mb) /\
             (1 <= e - s -> mb = maybe_rev true (slice sd s e)))
          0 full /\
    (1 <= 1 -> Forall (StronglySorted (descending (sort_length "input")))
                      [[sort_c; sort_a]; [sort_b]]).
Proof.
  split; [reflexivity|].
  apply (minibatches_run_longest_first 3 zero_rng [sort_a; sort_b; sort_c] 2 800 150 0
                                       "input" 1 true).
  - left; reflexivity.
  - reflexivity.
Defined.

(** ** Shortest first *)

Module AscendFacts.

Lemma hd_rev_app_In {A : Type} (w pad : list A) :
  w <> [] -> exists x, hd_error (rev w ++ pad) = Some x /\ In x w.
Proof.
  intros Hw. destruct (rev w) as [|x l] eqn:E.
  - apply (f_equal (@rev A)) in E. rewrite rev_involutive in E. contradiction.
  - exists x. split; [reflexivity|].
    apply in_rev. rewrite E. now left.
Qed.

Lemma tiles_heads_ascend (bs max_in max_out : Z) (key : string) (mbs : Z)
      (length_of : Item -> Z) (sd : list Item)
      (ws : list (list Item)) (full : list (list Item)) :
  length_sorted_key key ->
  Forall2 (window_of bs max_in max_out key mbs true sd) ws full ->
  StronglySorted (ascending length_of) (List.concat ws) ->
  StronglySorted (fun a b => head_not_shorter length_of b a) full.
Proof.
  intros Hkey Hall. induction Hall as [|w mb ws' full' Hw Hall' IH]; intros Hs.
  - constructor.
  - cbn [List.concat] in Hs. constructor.
    + apply IH. eapply StronglySorted_app_r. exact Hs.
    + apply Forall_forall. intros mb' Hin.
      destruct (Forall2_In_r _ _ _ _ Hall' Hin) as (w' & Hw'in & Hw').
      pose proof (window_of_nonempty _ _ _ _ _ _ _ _ _ Hkey Hw) as Hpos.
      pose proof (window_of_nonempty _ _ _ _ _ _ _ _ _ Hkey Hw') as Hpos'.
      destruct Hw as (s & e & pad & _ & _ & _ & _ & -> & _).
      destruct Hw' as (s' & e' & pad' & _ & _ & _ & _ & -> & _).
      cbn [maybe_rev].
      destruct (hd_rev_app_In w pad (len_pos_nonempty _ Hpos)) as (y & Hy & Hyin).
      destruct (hd_rev_app_In w' pad' (len_pos_nonempty _ Hpos')) as (x & Hx & Hxin).
      exists x, y. split; [exact Hx|]. split; [exact Hy|].
      apply (StronglySorted_app_cross _ _ _ Hs y x Hyin).
      eapply In_concat_piece; eassumption.
Qed.

End AscendFacts.

Import AscendFacts.

(** X4. Under [shortest_first=True] and a length-sorted key, the first
    entries of consecutive minibatches of a returned plan never get
    shorter: key ['input'] orders them by the record's [output] shape, key
    ['output'] by its [input] shape. *)
Theorem shortest_first_heads_ascend :
  forall (fuel : nat) (r : Rng) (data : list Item) (bs max_in max_out num : Z)
         (key : string) (mbs : Z) (plan : list (list Item)) (i : nat)
         (a b : list Item),
    length_sorted_key key ->
    make_batchset fuel r data bs max_in max_out num key mbs true = Returns plan ->
    nth_error plan i = Some a -> nth_error plan (S i) = Some b ->
    head_not_shorter (sort_length key) b a /\
    (key = "input" -> head_not_shorter (fun it => output_shape0 (snd it)) b a) /\
    (key = "output" -> head_not_shorter (fun it => input_shape0 (snd it)) b a).
Proof.
  intros fuel r data bs max_in max_out num key mbs plan i a b Hkey H Ha Hb.
  assert (Hmain : head_not_shorter (sort_length key) b a).
  { destruct (make_batchset_windows _ _ _ _ _ _ _ _ _ _ _ H (or_intror Hkey))
      as (sd & r1 & ws & full & Hsd & Hcat & Hall & ->).
    destruct (sort_data_sorted _ _ _ _ _ _ Hkey Hsd) as (_ & _ & Hsorted).
    cbn in Hsorted. rewrite <- Hcat in Hsorted.
    rewrite <- Hcat in Hall.
    pose proof (tiles_heads_ascend _ _ _ _ _ _ _ _ _ Hkey Hall Hsorted) as Hfull.
    assert (Hplan : StronglySorted (fun a b => head_not_shorter (sort_length key) b a)
                                   (if num >? 0 then slice full 0 num else full)).
    { destruct (num >? 0); [apply StronglySorted_slice|]; exact Hfull. }
    apply (StronglySorted_nth (fun a b => head_not_shorter (sort_length key) b a)
                              _ i (S i) a b Hplan); [lia | exact Ha | exact Hb]. }
  split; [exact Hmain|].
  split; intros ->; exact Hmain.
Qed.

Lemma shortest_first_heads_ascend_witness :
  head_not_shorter (sort_length "input") [sort_b] [sort_c; sort_a] /\
  ("input" = "input" ->
   head_not_shorter (fun it => output_shape0 (snd it)) [sort_b] [sort_c; sort_a]) /\
  ("input" = "output" ->
   head_not_shorter (fun it => input_shape0 (snd it)) [sort_b] [sort_c; sort_a]).
Proof.
  apply (shortest_first_heads_ascend 3 zero_rng [sort_a; sort_b; sort_c] 2 800 150 0
                                     "input" 1 [[sort_c; sort_a]; [sort_b]] 0).
  - left; reflexivity.
  - reflexivity.
  - reflexivity.
  - reflexivity.
Defined.

(** ** Sizes *)

Module SizeFacts.


End SizeFacts.

Import SizeFacts.



(** ** Truncation *)

(** X6. [num_batches > 0] only cuts the finished plan: the call runs the
    same loop over the whole corpus, raises what the untruncated call
    raises, and otherwise returns the first [num_batches] minibatches of the
    untruncated plan. *)
Theorem num_batches_keeps_prefix :
  forall (fuel : nat) (r : Rng) (data : list Item) (bs max_in max_out num num0 : Z)
         (key : string) (mbs : Z) (sf : bool),
    0 < num -> num0 <= 0 ->
    make_batchset fuel r data bs max_in max_out num key mbs sf =
    (full <- make_batchset fuel r data bs max_in max_out num0 key mbs sf ;;
     Returns (firstn (Z.to_nat num) full)).
Proof.
  intros fuel r data bs max_in max_out num num0 key mbs sf Hnum Hnum0.
  unfold make_batchset, make_batchset_body.
  destruct (sort_data key sf data r) as [[sd r1]| |]; cbn [bind]; try reflexivity.
  destruct (len sd <? mbs); cbn [bind]; [reflexivity|].
  destruct (batch_loop _ _ _ _ _ _ _ _ _ _ _) as [full| |]; cbn [bind]; try reflexivity.
  destruct (Z.gtb_spec num 0); [|lia].
  destruct (Z.gtb_spec num0 0); [lia|].
  now rewrite slice_prefix.
Qed.

Lemma num_batches_keeps_prefix_witness :
  make_batchset 4 zero_rng [cx_a; cx_b; cx_c; cx_d] 3 800 150 1 "shuffle" 2 false =
  (full <- make_batchset 4 zero_rng [cx_a; cx_b; cx_c; cx_d] 3 800 150 0 "shuffle" 2 false ;;
   Returns (firstn (Z.to_nat 1) full)).
Proof.
  apply (num_batches_keeps_prefix 4 zero_rng [cx_a; cx_b; cx_c; cx_d] 3 800 150 1 0
                                  "shuffle" 2 false); lia.
Defined.

(** ** Randomness and errors of the length-sorted plans *)

Module SortedRunFacts.

Lemma batch_loop_ignores_tape (bs max_in max_out : Z) (key : string) (mbs : Z)
      (sf : bool) (sd : list Item) :
  length_sorted_key key -> mbs <= 1 ->
  forall (fuel : nat) (start : Z) (acc : list (list Item)) (r r' : Rng),
    0 <= start ->
    batch_loop bs max_in max_out key mbs sf sd fuel start acc r
    = batch_loop bs max_in max_out key mbs sf sd fuel start acc r'.
Proof.
  intros Hkey Hmbs fuel.
  induction fuel as [|fuel IH]; intros start acc r r' Hstart; [reflexivity|].
  cbn [batch_loop].
  destruct (window_end bs max_in max_out key sd start) as [e| |] eqn:He;
    cbn [bind]; try reflexivity.
  destruct (window_end_progress _ _ _ _ _ _ _ Hkey Hstart He) as [Hp _].
  rewrite !make_minibatch_full by (rewrite len_slice_inside by lia; lia).
  cbn [bind]. destruct (e =? len sd); [reflexivity|].
  apply IH. lia.
Qed.

Lemma window_end_zero_maximum (bs max_in max_out : Z) (key : string) (sd : list Item)
      (start : Z) :
  length_sorted_key key -> 0 <= start < len sd ->
  max_in = 0 \/ max_out = 0 ->
  window_end bs max_in max_out key sd start = Raises ZeroDivisionError.
Proof.
  intros Hkey Hstart Hzero.
  destruct (nth_error sd (Z.to_nat start)) as [first|] eqn:Hnth.
  - rewrite (window_end_length_sorted _ _ _ _ _ _ first Hkey (proj1 Hstart) Hnth).
    unfold int_truediv.
    destruct (Z.eqb_spec max_in 0); [reflexivity|]. cbn [bind].
    destruct (Z.eqb_spec max_out 0); [reflexivity | lia].
  - apply nth_error_None in Hnth. unfold len in Hstart. lia.
Qed.

End SortedRunFacts.

Import SortedRunFacts.

(** X7. With a length-sorted key and [min_batch_size <= 1] the random
    sources are never consulted: the call gives the same result, plan or
    exception, for any two random tapes. *)
Theorem length_sorted_plan_is_not_random :
  forall (fuel : nat) (r r' : Rng) (data : list Item) (bs max_in max_out num : Z)
         (key : string) (mbs : Z) (sf : bool),
    length_sorted_key key -> mbs <= 1 ->
    make_batchset fuel r data bs max_in max_out num key mbs sf
    = make_batchset fuel r' data bs max_in max_out num key mbs sf.
Proof.
  intros fuel r r' data bs max_in max_out num key mbs sf Hkey Hmbs.
  unfold make_batchset, make_batchset_body.
  rewrite !sort_data_length_sorted by assumption. cbn [bind].
  destruct (len _ <? mbs); [reflexivity|].
  rewrite (batch_loop_ignores_tape _ _ _ _ _ _ _ Hkey Hmbs fuel 0 [] r r') by lia.
  reflexivity.
Qed.

Lemma length_sorted_plan_is_not_random_witness :
  make_batchset 3 zero_rng [sort_a; sort_b; sort_c] 2 800 150 0 "input" 1 false
  = make_batchset 3 (fun i => Z.of_nat i + 1) [sort_a; sort_b; sort_c] 2 800 150 0
                  "input" 1 false.
Proof.
  apply (length_sorted_plan_is_not_random 3 zero_rng (fun i => Z.of_nat i + 1)
                                          [sort_a; sort_b; sort_c] 2 800 150 0
                                          "input" 1 false).
  - left; reflexivity.
  - lia.
Defined.

(** X8. Errors of the length-sorted keys that [make_batchset] does not
    check for: on a corpus that is not empty and has at least
    [min_batch_size] utterances, [max_length_in = 0] or [max_length_out = 0]
    raises [ZeroDivisionError] at the first window; and an empty corpus
    with [min_batch_size <= 0] raises [IndexError] at [sorted_data[0]]. *)
Theorem length_sorted_unchecked_errors :
  forall (fuel : nat) (r : Rng) (data : list Item) (bs max_in max_out num : Z)
         (key : string) (mbs : Z) (sf : bool),
    length_sorted_key key -> mbs <= len data ->
    (0 < len data -> max_in = 0 \/ max_out = 0 ->
     make_batchset (S fuel) r data bs max_in max_out num key mbs sf
     = Raises ZeroDivisionError) /\
    (data = [] ->
     make_batchset (S fuel) r data bs max_in max_out num key mbs sf = Raises IndexError).
Proof.
  intros fuel r data bs max_in max_out num key mbs sf Hkey Hmbs.
  unfold make_batchset, make_batchset_body.
  rewrite sort_data_length_sorted by assumption. cbn [bind].
  assert (Hlen : len (sorted (sort_length key) data (negb sf)) = len data)
    by (apply len_Permutation, sorted_Permutation).
  destruct (Z.ltb_spec (len (sorted (sort_length key) data (negb sf))) mbs); [lia|].
  split.
  - intros Hne Hzero. cbn [batch_loop].
    rewrite window_end_zero_maximum; [reflexivity | assumption | lia | assumption].
  - intros ->. cbn [batch_loop]. unfold window_end.
    destruct Hkey as [-> | ->]; destruct sf; reflexivity.
Qed.

Lemma length_sorted_unchecked_errors_witness :
  make_batchset 1 zero_rng [sort_a; sort_b; sort_c] 2 0 150 0 "input" 1 false
  = Raises ZeroDivisionError /\
  make_batchset 1 zero_rng [] 2 800 150 0 "output" 0 false = Raises IndexError.
Proof.
  split.
  - apply (proj1 (length_sorted_unchecked_errors 0 zero_rng [sort_a; sort_b; sort_c]
                    2 0 150 0 "input" 1 false ltac:(left; reflexivity)
                    ltac:(cbn; lia))).
    + reflexivity.
    + now left.
  - apply (proj2 (length_sorted_unchecked_errors 0 zero_rng [] 2 800 150 0 "output" 0 false
                    ltac:(right; reflexivity) ltac:(cbn; lia))).
    reflexivity.
Defined.

(** ** What a plan holds *)

Module CoverFacts.

Lemma Forall2_In_l {A B : Type} (R : A -> B -> Prop) (l1 : list A) (l2 : list B) (a : A) :
  Forall2 R l1 l2 -> In a l1 -> exists b, In b l2 /\ R a b.
Proof.
  induction 1 as [|a' b l1 l2 HR _ IH]; intros Hin; [contradiction|].
  destruct Hin as [->|Hin].
  - exists b. split; [now left | exact HR].
  - destruct (IH Hin) as (b' & Hb' & HR'). exists b'. split; [now right | exact HR'].
Qed.

Lemma maybe_rev_In {A : Type} (b : bool) (l : list A) (x : A) :
  In x (maybe_rev b l) <-> In x l.
Proof. destruct b; cbn; [symmetry; apply in_rev | tauto]. Qed.

Lemma padding_incl (mbs : Z) (sf : bool) (sd : list Item) (s : Z) (w pad : list Item) :
  padding mbs sf sd s w pad -> incl pad sd.
Proof.
  intros [[_ ->] | [_ (idx & drawn & _ & _ & Hall & ->)]]; [intros x []|].
  intros x Hx. apply maybe_rev_In in Hx.
  destruct (Forall2_In_r _ _ _ _ Hall Hx) as (i & _ & Hi).
  eapply nth_error_In. exact Hi.
Qed.

Lemma minibatch_of_incl (mbs : Z) (sf : bool) (sd : list Item) (s e : Z) (mb : list Item) :
  minibatch_of mbs sf sd s e mb -> incl mb sd.
Proof.
  intros (pad & -> & Hpad) x Hx. apply in_app_or in Hx. destruct Hx as [Hx|Hx].
  - apply maybe_rev_In in Hx. eapply incl_slice. exact Hx.
  - eapply padding_incl; eassumption.
Qed.

End CoverFacts.

Import CoverFacts.

(** X9. A returned plan holds nothing but utterances of the corpus, the
    padding included.  When [num_batches] does not truncate it (key
    ['shuffle'] with [batch_size >= 0], or a length-sorted key), it also
    loses none: every utterance of the corpus is in some minibatch, though
    the padding may repeat some. *)
Theorem plan_covers_corpus :
  forall (fuel : nat) (r : Rng) (data : list Item) (bs max_in max_out num : Z)
         (key : string) (mbs : Z) (sf : bool) (plan : list (list Item)),
    make_batchset fuel r data bs max_in max_out num key mbs sf = Returns plan ->
    Forall (fun mb => incl mb data) plan /\
    ((key = "shuffle" /\ 0 <= bs) \/ length_sorted_key key -> num <= 0 ->
     forall it, In it data -> exists mb, In mb plan /\ In it mb).
Proof.
  intros fuel r data bs max_in max_out num key mbs sf plan H. split.
  - destruct (make_batchset_Returns _ _ _ _ _ _ _ _ _ _ _ H)
      as (sd & r1 & full & Hsd & _ & Hplan & ->).
    destruct (sort_data_Returns _ _ _ _ _ _ Hsd) as [_ HP].
    assert (Hfull : Forall (fun mb => incl mb data) full).
    { eapply plan_from_Forall; [|exact Hplan].
      intros s e mb Hmb x Hx.
      eapply Permutation_in; [exact HP|].
      eapply minibatch_of_incl; eassumption. }
    destruct (num >? 0); [apply Forall_slice|]; exact Hfull.
  - intros Hkey Hnum it Hit.
    destruct (make_batchset_windows _ _ _ _ _ _ _ _ _ _ _ H Hkey)
      as (sd & r1 & ws & full & Hsd & Hcat & Hall & ->).
    destruct (Z.gtb_spec num 0); [lia|].
    destruct (sort_data_Returns _ _ _ _ _ _ Hsd) as [_ HP].
    assert (Hin : In it (List.concat ws)).
    { rewrite Hcat. eapply Permutation_in; [symmetry; exact HP | exact Hit]. }
    apply in_concat in Hin. destruct Hin as (w & Hw & Hitw).
    destruct (Forall2_In_l _ _ _ _ Hall Hw) as (mb & Hmb & Hof).
    exists mb. split; [exact Hmb|].
    destruct Hof as (s & e & pad & _ & _ & _ & _ & -> & _).
    apply in_or_app. left. now apply maybe_rev_In.
Qed.

Lemma plan_covers_corpus_witness :
  Forall (fun mb : list Item => incl mb [cx_a; cx_b; cx_c; cx_d])
         [[cx_a; cx_b; cx_c]; [cx_d; cx_a]] /\
  exists mb, In mb [[cx_a; cx_b; cx_c]; [cx_d; cx_a]] /\ In cx_d mb.
Proof.
  destruct (plan_covers_corpus 4 zero_rng [cx_a; cx_b; cx_c; cx_d] 3 800 150 0
                               "shuffle" 2 false [[cx_a; cx_b; cx_c]; [cx_d; cx_a]]
                               eq_refl) as [H1 H2].
  split; [exact H1|].
  apply H2.
  - left. split; [reflexivity | lia].
  - lia.
  - cbn. auto.
Defined.

(** ** Padding, window by window *)

Module PaddingFacts.

Lemma mapM_getitem_drawn {A : Type} (l : list A) (idx : list Z) (drawn : list A) :
  Forall (fun i => 0 <= i) idx ->
  mapM (getitem l) idx = Returns drawn ->
  map Some drawn = map (fun i => nth_error l (Z.to_nat i)) idx.
Proof.
  intros Hidx H. apply mapM_Returns in H.
  induction H as [|i x idx drawn Hi _ IH]; [reflexivity|].
  inversion Hidx; subst. cbn [map].
  apply getitem_Returns in Hi; [|assumption]. destruct Hi as [-> _].
  f_equal. now apply IH.
Qed.

Lemma randint_from_zero (start n : Z) (r r' : Rng) (idx : list Z) :
  randint 0 start n r = Returns (idx, r') ->
  0 < start /\ idx = drawn_indices start n r /\ r' = rng_drop (Z.to_nat n) r.
Proof.
  unfold randint, drawn_indices.
  destruct (Z.leb_spec start 0); [discriminate|].
  destruct (n <? 0); [discriminate|].
  intros E. inversion E; subst. split; [assumption|]. split; [|reflexivity].
  apply map_ext. intros x. rewrite ?Z.add_0_l, ?Z.sub_0_r. reflexivity.
Qed.

Section Padded.
Variables (batch_size max_length_in max_length_out : Z).
Variable batch_sort_key : string.
Variable min_batch_size : Z.
Variable shortest_first : bool.
Variable sorted_data : list Item.

Local Abbreviation window_end :=
  (window_end batch_size max_length_in max_length_out batch_sort_key sorted_data).
Local Abbreviation make_minibatch :=
  (make_minibatch min_batch_size shortest_first sorted_data).
Local Abbreviation batch_loop :=
  (batch_loop batch_size max_length_in max_length_out batch_sort_key
              min_batch_size shortest_first sorted_data).
Local Abbreviation padded := (padded min_batch_size shortest_first sorted_data).
Local Abbreviation padded_plan :=
  (padded_plan batch_size max_length_in max_length_out batch_sort_key
               min_batch_size shortest_first sorted_data).

Lemma make_minibatch_padded (start end_ : Z) (r r' : Rng) (mb : list Item) :
  make_minibatch start end_ r = Returns (mb, r') ->
  padded start (slice sorted_data start end_) r mb r'.
Proof.
  unfold TtsUtils.make_minibatch, pad_minibatch.
  fold (maybe_rev shortest_first (slice sorted_data start end_)).
  rewrite len_maybe_rev.
  set (w := slice sorted_data start end_).
  destruct (Z.ltb_spec (len w) min_batch_size) as [Hlt|Hge].
  - intros H. apply bind_Returns in H. destruct H as ([idx r1] & Hrand & H).
    apply bind_Returns in H. destruct H as (drawn & Hdrawn & H).
    inversion H; subst mb r'; clear H.
    pose proof (randint_Returns _ _ _ _ _ _ Hrand) as (_ & _ & Hlen & Hidx).
    apply randint_from_zero in Hrand. destruct Hrand as (Hstart & Hidx_eq & Hr1).
    right. split; [assumption|]. split; [assumption|]. cbv zeta.
    rewrite <- Hidx_eq. exists drawn.
    split; [exact Hlen|]. split; [exact Hidx|]. split.
    + apply mapM_getitem_drawn; [|exact Hdrawn].
      eapply Forall_impl; [|exact Hidx]. cbv beta. intros; lia.
    + split; [reflexivity | exact Hr1].
  - intros H. inversion H; subst. left. repeat split. lia.
Qed.

Lemma batch_loop_padded (fuel : nat) :
  forall (start : Z) (acc : list (list Item)) (r : Rng) (plan : list (list Item)),
    batch_loop fuel start acc r = Returns plan ->
    exists rest, plan = acc ++ rest /\ padded_plan start r rest.
Proof.
  induction fuel as [|fuel IH]; intros start acc r plan H; [discriminate|].
  cbn [TtsUtils.batch_loop] in H.
  apply bind_Returns in H. destruct H as (e & He & H).
  apply bind_Returns in H. destruct H as ([mb r'] & Hmb & H).
  apply make_minibatch_padded in Hmb.
  destruct (Z.eqb_spec e (len sorted_data)) as [->|Hne].
  - inversion H; subst. exists [mb]. split; [reflexivity|].
    eapply padded_last; eassumption.
  - destruct (IH _ _ _ _ H) as (rest & -> & Hrest).
    exists (mb :: rest). split; [now rewrite <- app_assoc|].
    eapply padded_next; eassumption.
Qed.

Lemma map_Some_inj {A : Type} (l1 l2 : list A) : map Some l1 = map Some l2 -> l1 = l2.
Proof.
  revert l2. induction l1 as [|x l1 IH]; intros [|y l2] H; try discriminate; [reflexivity|].
  cbn in H. inversion H. f_equal. now apply IH.
Qed.

Lemma padded_functional (start : Z) (w : list Item) (r : Rng)
      (mb1 mb2 : list Item) (r1 r2 : Rng) :
  padded start w r mb1 r1 -> padded start w r mb2 r2 -> mb1 = mb2 /\ r1 = r2.
Proof.
  intros [(H1 & -> & ->) | (H1 & _ & d1 & _ & _ & Hd1 & -> & ->)]
         [(H2 & -> & ->) | (H2 & _ & d2 & _ & _ & Hd2 & -> & ->)]; try lia.
  - split; reflexivity.
  - assert (d1 = d2) by (apply map_Some_inj; congruence). subst. split; reflexivity.
Qed.

Lemma padded_plan_functional (start : Z) (r : Rng) (p1 p2 : list (list Item)) :
  padded_plan start r p1 -> padded_plan start r p2 -> p1 = p2.
Proof.
  intros H1. revert p2.
  induction H1 as [start r r' mb Hw Hmb | start e r r' mb rest Hw Hne Hmb Hrest IH];
    intros p2 H2; inversion H2 as [? ? r2 mb2 Hw2 Hmb2 | ? e2 ? r2 mb2 rest2 Hw2 Hne2 Hmb2 Hrest2];
    subst.
  - destruct (padded_functional _ _ _ _ _ _ _ Hmb Hmb2) as [-> _]. reflexivity.
  - rewrite Hw in Hw2. inversion Hw2. congruence.
  - rewrite Hw in Hw2. inversion Hw2. congruence.
  - rewrite Hw in Hw2. inversion Hw2; subst e2.
    destruct (padded_functional _ _ _ _ _ _ _ Hmb Hmb2) as [-> ->].
    f_equal. now apply IH.
Qed.

(** The loop returns when every window ends after its start and the first
    window has [min_batch_size] entries: later windows are padded from the
    positions before them. *)
Lemma batch_loop_total (fuel : nat) :
  (forall s, 0 <= s < len sorted_data ->
             exists e, window_end s = Returns e /\ s < e <= len sorted_data) ->
  forall (start : Z) (acc : list (list Item)) (r : Rng),
    0 <= start < len sorted_data ->
    (start = 0 -> forall e, window_end 0 = Returns e -> min_batch_size <= e) ->
    len sorted_data - start <= Z.of_nat fuel ->
    exists plan, batch_loop fuel start acc r = Returns plan.
Proof.
  intros Hwin. induction fuel as [|fuel IH]; intros start acc r Hstart Hfirst Hfuel; [lia|].
  destruct (Hwin start Hstart) as (e & He & Hp).
  cbn [TtsUtils.batch_loop]. rewrite He. cbn [bind].
  assert (Hmb : exists mb r', make_minibatch start e r = Returns (mb, r')).
  { destruct (Z.le_gt_cases min_batch_size (len (slice sorted_data start e))) as [Hge|Hlt].
    - rewrite make_minibatch_full by assumption. eauto.
    - assert (Hpos : 0 < start).
      { destruct (Z.eq_dec start 0) as [->|]; [|lia].
        specialize (Hfirst eq_refl e He).
        rewrite len_slice_inside in Hlt by lia. lia. }
      unfold TtsUtils.make_minibatch.
      apply pad_minibatch_total; [lia|].
      fold (maybe_rev shortest_first (slice sorted_data start e)).
      now rewrite len_maybe_rev. }
  destruct Hmb as (mb & r' & ->). cbn [bind].
  destruct (Z.eqb_spec e (len sorted_data)); [eauto|].
  apply IH; lia.
Qed.
End Padded.

End PaddingFacts.

Import PaddingFacts.

Lemma make_batchset_padded_plan (fuel : nat) (r : Rng) (data : list Item)
      (bs max_in max_out num : Z) (key : string) (mbs : Z) (sf : bool)
      (plan : list (list Item)) :
  make_batchset fuel r data bs max_in max_out num key mbs sf = Returns plan ->
  exists sd r1 full,
    sort_data key sf data r = Returns (sd, r1) /\
    padded_plan bs max_in max_out key mbs sf sd 0 r1 full /\
    plan = (if num >? 0 then slice full 0 num else full).
Proof.
  unfold make_batchset, make_batchset_body. intros H.
  apply bind_Returns in H. destruct H as ([sd r1] & Hsd & H).
  destruct (len sd <? mbs); [discriminate|].
  apply bind_Returns in H. destruct H as (full & Hloop & H).
  inversion H; subst plan; clear H.
  apply batch_loop_padded in Hloop. destruct Hloop as (rest & -> & Hrest).
  exists sd, r1, rest. cbn [app]. repeat split; assumption.
Qed.

Lemma make_batchset_total (fuel : nat) (r : Rng) (data : list Item)
      (bs max_in max_out num : Z) (key : string) (mbs : Z) (sf : bool) :
  (key = "shuffle" /\ 0 < bs /\ mbs <= bs) \/
  (length_sorted_key key /\ 0 < max_in /\ 0 < max_out /\
   Forall (fun it => 0 <= ilen it /\ 0 <= olen it) data /\
   exists first,
     hd_error (sorted (sort_length key) data (negb sf)) = Some first /\
     mbs <= Z.max 1 (bs / (1 + Z.max (ilen first / max_in) (olen first / max_out)))) ->
  0 < len data -> mbs <= len data -> (List.length data <= fuel)%nat ->
  exists plan, make_batchset fuel r data bs max_in max_out num key mbs sf = Returns plan.
Proof.
  intros Hcase Hne Hmbs Hfuel.
  assert (Hsd : exists sd r1, sort_data key sf data r = Returns (sd, r1)).
  { destruct Hcase as [(-> & _) | (Hkey & _)].
    - rewrite sort_data_shuffle. eauto.
    - rewrite sort_data_length_sorted by assumption. eauto. }
  destruct Hsd as (sd & r1 & Hsd).
  assert (Hlen : len sd = len data).
  { apply len_Permutation. eapply sort_data_Returns. exact Hsd. }
  unfold make_batchset, make_batchset_body. rewrite Hsd. cbn [bind].
  destruct (Z.ltb_spec (len sd) mbs); [lia|].
  destruct (batch_loop_total bs max_in max_out key mbs sf sd fuel)
    with (start := 0) (acc := @nil (list Item)) (r := r1) as (full & ->).
  - intros s Hs. destruct Hcase as [(-> & Hbs & _) | (Hkey & Hin & Hout & Hwf & _)].
    + rewrite window_end_shuffle. eexists. split; [reflexivity | lia].
    + destruct (nth_error sd (Z.to_nat s)) as [first|] eqn:Hnth.
      * destruct (adaptive_window data sd r r1 key sf bs max_in max_out s first)
          as [Hw _]; try assumption; try lia.
        cbv zeta in Hw. eexists. split; [exact Hw | lia].
      * apply nth_error_None in Hnth. unfold len in Hs. lia.
  - lia.
  - intros _ e He. destruct Hcase as [(-> & Hbs & Hle) | (Hkey & Hin & Hout & Hwf & first & Hfirst & Hsize)].
    + rewrite window_end_shuffle in He. inversion He. lia.
    + assert (Hsd' : sd = sorted (sort_length key) data (negb sf)).
      { rewrite sort_data_length_sorted in Hsd by assumption. congruence. }
      rewrite <- Hsd' in Hfirst.
      destruct (adaptive_window data sd r r1 key sf bs max_in max_out 0 first)
        as [Hw _]; try assumption; try lia.
      cbv zeta in Hw. rewrite Hw in He.
      assert (He' : Z.min (len sd)
                          (0 + Z.max 1 (bs / (1 + Z.max (ilen first / max_in)
                                                        (olen first / max_out)))) = e)
        by congruence.
      lia.
  - unfold len in *. lia.
  - cbn [bind]. eauto.
Qed.

(** C2.  A returned plan is the chain of padded windows that starts at
    position 0 of the ordered corpus with the tape left by the ordering step
    (cut to its first [num_batches] minibatches when [num_batches > 0]):
    each window starts where the one before ended, a window of at least
    [min_batch_size] entries is its minibatch, and a shorter one, at
    [start], is followed by [min_batch_size - len % min_batch_size] entries
    of the ordered corpus at positions drawn from [[0, start)], [start] being
    this window's own start; under [shortest_first] the window is reversed
    and the drawn entries are appended in reverse order of the draws.  Every
    minibatch has at least [min_batch_size] entries.  The chain fixes the
    plan: two chains from the same position and tape are equal.  And the
    call does return: for key ['shuffle'] with
    [0 < batch_size], [min_batch_size <= batch_size] and a corpus of at least
    [min_batch_size] utterances, and for the length-sorted keys when the
    first window has [min_batch_size] entries. *)
Theorem padding_property :
  (forall (fuel : nat) (r : Rng) (data : list Item) (bs max_in max_out num : Z)
          (key : string) (mbs : Z) (sf : bool) (plan : list (list Item)),
      make_batchset fuel r data bs max_in max_out num key mbs sf = Returns plan ->
      exists sd r1 full,
        sort_data key sf data r = Returns (sd, r1) /\
        padded_plan bs max_in max_out key mbs sf sd 0 r1 full /\
        plan = (if num >? 0 then slice full 0 num else full) /\
        Forall (fun mb => mbs <= len mb) plan) /\
  (forall (bs max_in max_out : Z) (key : string) (mbs : Z) (sf : bool) (sd : list Item)
          (start : Z) (r : Rng) (p1 p2 : list (list Item)),
      padded_plan bs max_in max_out key mbs sf sd start r p1 ->
      padded_plan bs max_in max_out key mbs sf sd start r p2 ->
      p1 = p2) /\
  (forall (fuel : nat) (r : Rng) (data : list Item) (bs max_in max_out num : Z)
          (key : string) (mbs : Z) (sf : bool),
      (key = "shuffle" /\ 0 < bs /\ mbs <= bs) \/
      (length_sorted_key key /\ 0 < max_in /\ 0 < max_out /\
       Forall (fun it => 0 <= ilen it /\ 0 <= olen it) data /\
       exists first,
         hd_error (sorted (sort_length key) data (negb sf)) = Some first /\
         mbs <= Z.max 1 (bs / (1 + Z.max (ilen first / max_in) (olen first / max_out)))) ->
      0 < len data -> mbs <= len data -> (List.length data <= fuel)%nat ->
      exists plan,
        make_batchset fuel r data bs max_in max_out num key mbs sf = Returns plan).
Proof.
  split; [|split].
  - intros fuel r data bs max_in max_out num key mbs sf plan H.
    destruct (make_batchset_padded_plan _ _ _ _ _ _ _ _ _ _ _ H)
      as (sd & r1 & full & Hsd & Hplan & Heq).
    exists sd, r1, full. repeat split; try assumption.
    eapply make_batchset_nonempty. exact H.
  - intros bs max_in max_out key mbs sf sd start r p1 p2.
    apply padded_plan_functional.
  - intros fuel r data bs max_in max_out num key mbs sf.
    apply make_batchset_total.
Qed.

Lemma padding_property_witness :
  make_batchset 4 Instances.count_rng [cx_a; cx_b; cx_c; cx_d] 3 800 150 0 "shuffle" 3 true
  = Returns [[cx_b; cx_c; cx_a]; [cx_d; cx_b; cx_c]] /\
  (exists sd r1 full,
      sort_data "shuffle" true [cx_a; cx_b; cx_c; cx_d] Instances.count_rng
      = Returns (sd, r1) /\
      padded_plan 3 800 150 "shuffle" 3 true sd 0 r1 full /\
      [[cx_b; cx_c; cx_a]; [cx_d; cx_b; cx_c]] = (if 0 >? 0 then slice full 0 0 else full) /\
      Forall (fun mb : list Item => 3 <= len mb) [[cx_b; cx_c; cx_a]; [cx_d; cx_b; cx_c]]) /\
  (exists plan,
      make_batchset 4 Instances.count_rng [cx_a; cx_b; cx_c; cx_d] 3 800 150 0 "shuffle" 3 true
      = Returns plan).
Proof.
  split; [reflexivity|]. split.
  - apply (proj1 padding_property 4%nat Instances.count_rng [cx_a; cx_b; cx_c; cx_d]
                 3 800 150 0 "shuffle" 3 true).
    reflexivity.
  - apply (proj2 (proj2 padding_property) 4%nat Instances.count_rng
                 [cx_a; cx_b; cx_c; cx_d] 3 800 150 0 "shuffle" 3 true).
    + left. repeat split; lia.
    + reflexivity.
    + cbn; lia.
    + cbn; lia.
Defined.

(** ** When a shuffled plan is a partition *)

Module PartitionFacts.

Lemma short_window_repeats (bs max_in max_out mbs : Z) (sf : bool) (sd : list Item) :
  0 < bs -> ~ no_short_window (len sd) bs mbs ->
  forall (start : Z) (plan : list (list Item)),
    plan_from bs max_in max_out "shuffle" mbs sf sd start plan ->
    0 <= start < len sd -> start mod bs = 0 ->
    len sd - start < len (List.concat plan).
Proof.
  intros Hbs Hcond start plan Hplan.
  assert (Hshort : bs < mbs \/ (0 < len sd mod bs < mbs)).
  { unfold no_short_window in Hcond.
    pose proof (Z.mod_pos_bound (len sd) bs Hbs). lia. }
  induction Hplan as [start mb Hw Hmb | start e mb rest Hw Hne Hmb Hrest IH];
    intros Hstart Hmod; rewrite window_end_shuffle in Hw;
    destruct Hmb as (pad & -> & Hpad);
    pose proof (padding_len _ _ _ _ _ _ Hpad) as Hlen.
  - assert (He : len sd <= start + bs) by (inversion Hw; lia).
    rewrite len_app in Hlen. rewrite !len_slice_inside in Hlen by lia.
    cbn [List.concat]. rewrite app_nil_r, len_app, len_maybe_rev, len_slice_inside by lia.
    assert (len sd - start < mbs); [|lia].
    destruct Hshort as [|[Hr0 Hr]]; [lia|].
    apply Z.mod_divide in Hmod; [|lia]. destruct Hmod as [q Hq].
    assert (Hrem : len sd mod bs = (len sd - start) mod bs).
    { subst start. replace (len sd) with (len sd - q * bs + q * bs) at 1 by lia.
      apply Z.mod_add. lia. }
    destruct (Z.eq_dec (len sd - start) bs) as [E|E].
    + rewrite E in Hrem. rewrite (Z.mod_same bs) in Hrem by lia. lia.
    + rewrite (Z.mod_small (len sd - start)) in Hrem by lia. lia.
  - assert (He : e = start + bs /\ e < len sd) by (inversion Hw; lia).
    destruct He as [-> He].
    rewrite len_app in Hlen. rewrite !len_slice_inside in Hlen by lia.
    cbn [List.concat]. rewrite !len_app, len_maybe_rev, len_slice_inside by lia.
    assert (IH' : len sd - (start + bs) < len (List.concat rest)).
    { apply IH; [lia|].
      rewrite <- Z.add_mod_idemp_l by lia. rewrite Hmod.
      rewrite Z.add_0_l. apply Z.mod_same. lia. }
    pose proof (len_nonneg pad). lia.
Qed.

End PartitionFacts.

Import PartitionFacts.

(** C4 (as amended).  With key ['shuffle'], [num_batches <= 0], a corpus of
    [N > 0] utterances and [batch_size > 0]: when no window is shorter than
    [min_batch_size], that is when [min_batch_size <= batch_size] and
    [N mod batch_size] is 0 or at least [min_batch_size], the call returns a
    plan whose minibatches together hold every utterance id exactly once;
    and when this condition fails, a plan that is returned holds more
    entries than the corpus, so it does not. *)
Theorem shuffle_plan_partition :
  forall (fuel : nat) (r : Rng) (data : list Item) (bs max_in max_out num mbs : Z)
         (sf : bool),
    0 < bs -> 0 < len data -> num <= 0 ->
    (no_short_window (len data) bs mbs -> (List.length data <= fuel)%nat ->
     exists plan,
       make_batchset fuel r data bs max_in max_out num "shuffle" mbs sf = Returns plan /\
       Permutation (map utt_id (List.concat plan)) (map utt_id data) /\
       (NoDup (map utt_id data) -> NoDup (map utt_id (List.concat plan)))) /\
    (~ no_short_window (len data) bs mbs ->
     forall plan,
       make_batchset fuel r data bs max_in max_out num "shuffle" mbs sf = Returns plan ->
       len data < len (List.concat plan) /\
       ~ Permutation (map utt_id (List.concat plan)) (map utt_id data)).
Proof.
  intros fuel r data bs max_in max_out num mbs sf Hb Hn Hnum. split.
  - intros [Hle Hrem] Hf.
    destruct (make_batchset_shuffle_partition fuel r data bs max_in max_out num mbs sf)
      as (plan & Hplan & HP); try assumption.
    exists plan. split; [assumption|].
    assert (HPid : Permutation (map utt_id (List.concat plan)) (map utt_id data))
      by now apply Permutation_map.
    split; [assumption|].
    intros Hnd. eapply Permutation_NoDup; [|exact Hnd]. now symmetry.
  - intros Hcond plan H.
    destruct (make_batchset_Returns _ _ _ _ _ _ _ _ _ _ _ H)
      as (sd & r1 & full & Hsd & _ & Hplan & ->).
    destruct (Z.gtb_spec num 0); [lia|].
    assert (Hlen : len sd = len data).
    { apply len_Permutation. eapply sort_data_Returns. exact Hsd. }
    rewrite <- Hlen in Hcond.
    pose proof (short_window_repeats bs max_in max_out mbs sf sd Hb Hcond 0 full Hplan)
      as Hlong.
    assert (Hgt : len data < len (List.concat full)).
    { rewrite <- Hlen. specialize (Hlong ltac:(lia) eq_refl). lia. }
    split; [exact Hgt|].
    intros HP. apply Permutation_length in HP. rewrite !length_map in HP.
    unfold len in Hgt. lia.
Qed.

Lemma shuffle_plan_partition_witness :
  (no_short_window 6 3 2 /\
   exists plan,
     make_batchset 6 zero_rng [cx_a; cx_b; cx_c; cx_d; Instances.cx_e; Instances.cx_f]
                   3 800 150 0 "shuffle" 2 false
     = Returns plan /\
     Permutation (map utt_id (List.concat plan))
                 (map utt_id [cx_a; cx_b; cx_c; cx_d; Instances.cx_e; Instances.cx_f]) /\
     (NoDup (map utt_id [cx_a; cx_b; cx_c; cx_d; Instances.cx_e; Instances.cx_f]) ->
      NoDup (map utt_id (List.concat plan)))) /\
  (~ no_short_window 4 3 2) /\
  len [cx_a; cx_b; cx_c; cx_d] < len (List.concat [[cx_a; cx_b; cx_c]; [cx_d; cx_a]]) /\
  ~ Permutation (map utt_id (List.concat [[cx_a; cx_b; cx_c]; [cx_d; cx_a]]))
                (map utt_id [cx_a; cx_b; cx_c; cx_d]).
Proof.
  assert (H : no_short_window 6 3 2) by (split; [lia | left; reflexivity]).
  assert (H' : ~ no_short_window 4 3 2).
  { intros [_ [E|E]]; [discriminate E | apply E; reflexivity]. }
  split; [split; [exact H|] | split; [exact H'|]].
  - apply (proj1 (shuffle_plan_partition
                    6 zero_rng [cx_a; cx_b; cx_c; cx_d; Instances.cx_e; Instances.cx_f]
                    3 800 150 0 2 false ltac:(lia) ltac:(reflexivity) ltac:(lia))).
    + exact H.
    + cbn; lia.
  - apply (proj2 (shuffle_plan_partition
                    4 zero_rng [cx_a; cx_b; cx_c; cx_d]
                    3 800 150 0 2 false ltac:(lia) ltac:(reflexivity) ltac:(lia)) H').
    reflexivity.
Defined.

(* ===================================================================== *)
(** * The callers of [make_batchset] in [tts_utils.py] *)
(* ===================================================================== *)

Import TtsSetup.

(** X10. [make_args_batchset] asks for minibatches of at least
    [max(1, args.ngpu)] entries, and every minibatch it returns has them.
    On a single device ([args.ngpu <= 1]) no window is ever padded: for a
    corpus that is not empty (key ['shuffle'] with a positive batch size,
    or a length-sorted key with lengths that are not negative and positive
    maximum lengths) the call returns a plan without empty minibatches that
    holds every utterance exactly once. *)
Theorem make_args_batchset_by_devices :
  (forall (fuel : nat) (r : Rng) (data : list Item) (args : BatchArgs)
          (plan : list (list Item)),
      make_args_batchset fuel r data args = Returns plan ->
      Forall (fun mb => Z.max 1 (args_ngpu args) <= len mb) plan) /\
  (forall (fuel : nat) (r : Rng) (data : list Item) (args : BatchArgs),
      args_ngpu args <= 1 -> 0 < len data -> args_minibatches args <= 0 ->
      (List.length data <= fuel)%nat ->
      (args_batch_sort_key args = "shuffle" /\ 0 < args_batch_size args) \/
      (length_sorted_key (args_batch_sort_key args) /\
       0 < args_maxlen_in args /\ 0 < args_maxlen_out args /\
       Forall (fun it => 0 <= ilen it /\ 0 <= olen it) data) ->
      exists plan,
        make_args_batchset fuel r data args = Returns plan /\
        Permutation (List.concat plan) data /\
        Forall (fun mb => mb <> []) plan).
Proof.
  split.
  - intros fuel r data args plan H. unfold make_args_batchset in H.
    destruct (make_batchset_nonempty _ _ _ _ _ _ _ _ _ _ _ H) as [_ Hall].
    eapply Forall_impl; [|exact Hall].
    cbv beta. intros mb Hmb.
    destruct (Z.gtb_spec (args_ngpu args) 1); lia.
  - intros fuel r data args Hngpu Hne Hnum Hfuel Hcase.
    unfold make_args_batchset.
    destruct (Z.gtb_spec (args_ngpu args) 1) as [|_]; [lia|].
    destruct Hcase as [[Hkey Hbs] | (Hkey & Hin & Hout & Hwf)].
    + rewrite Hkey.
      destruct (make_batchset_shuffle_partition
                  fuel r data (args_batch_size args) (args_maxlen_in args)
                  (args_maxlen_out args) (args_minibatches args) 1
                  (negb (args_sortagrad args =? 0)))
        as (plan & H & HP); try assumption; try lia.
      { pose proof (Z.mod_pos_bound (len data) (args_batch_size args) Hbs). lia. }
      exists plan. split; [exact H|]. split; [exact HP|].
      destruct (make_batchset_nonempty _ _ _ _ _ _ _ _ _ _ _ H) as [_ Hall].
      eapply Forall_len_nonempty; [|exact Hall]. lia.
    + destruct (make_batchset_length_sorted_tiles
                  fuel r data (args_batch_size args) (args_maxlen_in args)
                  (args_maxlen_out args) (args_minibatches args)
                  (args_batch_sort_key args) 1 (negb (args_sortagrad args =? 0)))
        as (ws & H & Hcat & Hnonempty); try assumption; try lia.
      exists (map (maybe_rev (negb (args_sortagrad args =? 0))) ws).
      split; [exact H|]. split.
      * rewrite concat_maybe_rev_Permutation, Hcat. apply sorted_Permutation.
      * destruct (make_batchset_nonempty _ _ _ _ _ _ _ _ _ _ _ H) as [_ Hall].
        eapply Forall_len_nonempty; [|exact Hall]. lia.
Qed.

Lemma make_args_batchset_by_devices_witness :
  Forall (fun mb : list Item => Z.max 1 2 <= len mb) [[cx_a; cx_b]; [cx_c; cx_d]] /\
  exists plan,
    make_args_batchset 3 zero_rng [sort_a; sort_b; sort_c]
                       (mkBatchArgs 2 800 150 0 "output" 1 0) = Returns plan /\
    Permutation (List.concat plan) [sort_a; sort_b; sort_c] /\
    Forall (fun mb => mb <> []) plan.
Proof.
  split.
  - apply (proj1 make_args_batchset_by_devices 4%nat zero_rng [cx_a; cx_b; cx_c; cx_d]
                 (mkBatchArgs 2 800 150 0 "shuffle" 2 0)).
    reflexivity.
  - apply (proj2 make_args_batchset_by_devices 3%nat zero_rng [sort_a; sort_b; sort_c]
                 (mkBatchArgs 2 800 150 0 "output" 1 0)).
    + cbn; lia.
    + reflexivity.
    + cbn; lia.
    + cbn; lia.
    + right. cbn. repeat split; try lia.
      * right; reflexivity.
      * repeat constructor; cbn; lia.
Defined.

(** ** [get_dimensions] *)

Module DimFacts.

Lemma getitem_zero_cons {A : Type} (x : A) (l : list A) : getitem (x :: l) 0 = Returns x.
Proof. reflexivity. Qed.

Lemma getitem_nat {A : Type} (l : list A) (n : nat) (x : A) :
  getitem l (Z.of_nat n) = Returns x <-> nth_error l n = Some x.
Proof.
  split; intros H.
  - apply getitem_Returns in H; [|lia]. rewrite Nat2Z.id in H. tauto.
  - apply getitem_nth; [lia|]. now rewrite Nat2Z.id.
Qed.

End DimFacts.

Import DimFacts.

(** X11. [get_dimensions] of [tts_utils.py] looks at the first utterance
    only: an empty corpus raises [IndexError], later utterances never
    matter, and a returned [(idim, odim)] is [shape[1]] of the first
    utterance's first ['output'] entry and of its first ['input'] entry, in
    this order.  [args.spk_embed_dim] is reset to [None] without
    [use_speaker_embedding], [args.spc_dim] is left alone without
    [use_cbhg], and with both options the two values are [shape[0]] and
    [shape[1]] of the same entry [input[1]]. *)
Theorem get_dimensions_reads_first_utterance :
  (forall args : DimArgs, get_dimensions [] args = Raises IndexError) /\
  (forall (u : string * Utt) (rest : list (string * Utt)) (args : DimArgs),
      get_dimensions (u :: rest) args = get_dimensions [u] args) /\
  (forall (valid_json : list (string * Utt)) (args args' : DimArgs) (idim odim : Z),
      get_dimensions valid_json args = Returns (idim, odim, args') ->
      exists first o0 i0,
        hd_error (map snd valid_json) = Some first /\
        nth_error (output first) 0 = Some o0 /\ nth_error (shape o0) 1 = Some idim /\
        nth_error (input first) 0 = Some i0 /\ nth_error (shape i0) 1 = Some odim /\
        (args_use_speaker_embedding args = false -> args_spk_embed_dim args' = None) /\
        (args_use_cbhg args = false -> args_spc_dim args' = args_spc_dim args) /\
        (args_use_cbhg args = true -> args_use_speaker_embedding args = true ->
         exists i1, nth_error (input first) 1 = Some i1 /\
                    args_spc_dim args' = nth_error (shape i1) 1 /\
                    args_spk_embed_dim args' = nth_error (shape i1) 0)).
Proof.
  split; [reflexivity|]. split; [reflexivity|].
  intros valid_json args args' idim odim H.
  unfold get_dimensions in H.
  destruct valid_json as [|[id first] rest]; [discriminate|].
  cbn [map fst snd] in H. rewrite !getitem_zero_cons in H. cbn [bind] in H.
  apply bind_Returns in H. destruct H as (o0 & Ho0 & H).
  apply bind_Returns in H. destruct H as (idim' & Hidim & H).
  apply bind_Returns in H. destruct H as (i0 & Hi0 & H).
  apply bind_Returns in H. destruct H as (odim' & Hodim & H).
  apply bind_Returns in H. destruct H as (spc & Hspc & H).
  apply bind_Returns in H. destruct H as (spk & Hspk & H).
  inversion H; subst idim' odim' args'; clear H.
  apply (getitem_nat _ 0) in Ho0, Hi0. apply (getitem_nat _ 1) in Hidim, Hodim.
  exists first, o0, i0. cbn [hd_error map snd args_spk_embed_dim args_spc_dim].
  repeat split; try assumption.
  - intros E. rewrite E in Hspk. now inversion Hspk.
  - intros E. rewrite E in Hspc. now inversion Hspc.
  - intros E1 E2. rewrite E1 in Hspc. rewrite E2 in Hspk.
    apply bind_Returns in Hspc. destruct Hspc as (i1 & Hi1 & Hspc).
    apply bind_Returns in Hspk. destruct Hspk as (i1' & Hi1' & Hspk).
    assert (i1' = i1) by congruence. subst i1'.
    apply bind_Returns in Hspc. destruct Hspc as (d1 & Hd1 & Hspc).
    apply bind_Returns in Hspk. destruct Hspk as (d0 & Hd0 & Hspk).
    inversion Hspc; inversion Hspk; subst.
    apply (getitem_nat _ 1) in Hi1, Hd1. apply (getitem_nat _ 0) in Hd0.
    exists i1. repeat split; [assumption | now symmetry | now symmetry].
Qed.

Lemma get_dimensions_reads_first_utterance_witness :
  exists first o0 i0 i1,
    hd_error (map snd Instances.dim_json) = Some first /\
    nth_error (output first) 0 = Some o0 /\ nth_error (shape o0) 1 = Some 52 /\
    nth_error (input first) 0 = Some i0 /\ nth_error (shape i0) 1 = Some 83 /\
    nth_error (input first) 1 = Some i1 /\
    Some 1 = nth_error (shape i1) 1 /\
    Some 512 = nth_error (shape i1) 0.
Proof.
  destruct (proj2 (proj2 get_dimensions_reads_first_utterance)
                  Instances.dim_json (mkDimArgs true true None None)
                  (mkDimArgs true true (Some 1) (Some 512)) 52 83 eq_refl)
    as (first & o0 & i0 & H1 & H2 & H3 & H4 & H5 & _ & _ & Hboth).
  destruct (Hboth eq_refl eq_refl) as (i1 & H6 & H7 & H8).
  exists first, o0, i0, i1. repeat split; assumption.
Defined.

(** ** The report keys *)

Import TtsReport.

Module StoreFacts.

Lemma content_new_list (l : list string) (st : Store) :
  content (List.length st) (snd (new_list l st)) = l.
Proof.
  unfold content, new_list. cbn [snd].
  rewrite app_nth2 by lia. now rewrite Nat.sub_diag.
Qed.

Lemma content_new_list_old (l : list string) (st : Store) (id : nat) :
  (id < List.length st)%nat -> content id (snd (new_list l st)) = content id st.
Proof. intros H. unfold content, new_list. cbn [snd]. now apply app_nth1. Qed.

Lemma set_content_length (id : nat) (l : list string) (st : Store) :
  List.length (set_content id l st) = List.length st.
Proof. revert id. induction st as [|x st IH]; intros [|id]; cbn; auto. Qed.

Lemma content_set_same (id : nat) (l : list string) (st : Store) :
  (id < List.length st)%nat -> content id (set_content id l st) = l.
Proof.
  revert id. induction st as [|x st IH]; intros [|id] H; cbn in *; try lia; auto.
  apply IH. lia.
Qed.

Lemma content_set_other (id id' : nat) (l : list string) (st : Store) :
  id' <> id -> content id' (set_content id l st) = content id' st.
Proof.
  revert id id'. induction st as [|x st IH]; intros [|id] [|id'] H; cbn; auto; try lia.
  apply IH. lia.
Qed.

Lemma get_plot_report_keys_content (use_cbhg : bool) (st : Store) :
  let '(plot_keys, st') := get_plot_report_keys use_cbhg st in
  plot_keys = List.length st /\
  List.length st' = S (List.length st) /\
  (forall id, (id < List.length st)%nat -> content id st' = content id st) /\
  content plot_keys st'
  = ["main/loss"; "validation/main/loss"; "main/l1_loss"; "validation/main/l1_loss";
     "main/mse_loss"; "validation/main/mse_loss"; "main/bce_loss"; "validation/main/bce_loss"]
    ++ (if use_cbhg then
          ["main/cbhg_l1_loss"; "validation/main/cbhg_l1_loss";
           "main/cbhg_mse_loss"; "validation/main/cbhg_mse_loss"]
        else []).
Proof.
  unfold get_plot_report_keys, new_list.
  set (keys := ["main/loss"; _; _; _; _; _; _; _]).
  assert (Hc : content (List.length st) (st ++ [keys]) = keys).
  { apply (content_new_list keys st). }
  destruct use_cbhg.
  - split; [reflexivity|]. rewrite set_content_length, length_app. cbn [List.length].
    split; [lia|]. split.
    + intros id Hid. rewrite content_set_other by lia.
      unfold content. now apply app_nth1.
    + rewrite content_set_same by (rewrite length_app; cbn; lia).
      now rewrite Hc.
  - split; [reflexivity|]. rewrite length_app. cbn [List.length].
    split; [lia|]. split.
    + intros id Hid. unfold content. now apply app_nth1.
    + rewrite Hc. now rewrite app_nil_r.
Qed.

End StoreFacts.

Import StoreFacts.

(** X12. [get_plot_report_keys] makes a new list of the eight plot keys,
    twelve with [use_cbhg].  [add_progress_report] changes the list it is
    given in place: the keys ['epoch'], ['iteration'] and ['elapsed_time']
    are put in front of it, and [PrintReport] is given this same list.
    [prepare_trainer] hands it a copy [plot_keys[:]], so the list of plot
    keys that [prepare_asr_tts_trainer] received is left as it was, while
    [PrintReport] gets a new list: the three keys followed by the plot
    keys. *)
Theorem progress_report_changes_only_its_copy :
  forall (E : Type) (prepare_asr_tts_trainer : nat -> Store -> list (extension E) * Store),
    (forall (trainer : list (extension E)) (keys : nat) (st : Store),
        (keys < List.length st)%nat ->
        let '(trainer', st') := add_progress_report E trainer keys st in
        trainer' = trainer ++ [LogReport; PrintReport keys; ProgressBar] /\
        content keys st' = ["epoch"; "iteration"; "elapsed_time"] ++ content keys st /\
        forall id, id <> keys -> content id st' = content id st) /\
    (forall (use_cbhg : bool) (st st1 st2 : Store) (plot_keys : nat)
            (trainer1 : list (extension E)),
        get_plot_report_keys use_cbhg st = (plot_keys, st1) ->
        prepare_asr_tts_trainer plot_keys st1 = (trainer1, st2) ->
        (List.length st1 <= List.length st2)%nat ->
        content plot_keys st1
        = ["main/loss"; "validation/main/loss"; "main/l1_loss"; "validation/main/l1_loss";
           "main/mse_loss"; "validation/main/mse_loss";
           "main/bce_loss"; "validation/main/bce_loss"]
          ++ (if use_cbhg then
                ["main/cbhg_l1_loss"; "validation/main/cbhg_l1_loss";
                 "main/cbhg_mse_loss"; "validation/main/cbhg_mse_loss"]
              else []) /\
        exists copy st3,
          prepare_trainer E prepare_asr_tts_trainer use_cbhg st
          = (trainer1 ++ [LogReport; PrintReport copy; ProgressBar], st3) /\
          copy <> plot_keys /\
          content plot_keys st3 = content plot_keys st2 /\
          content copy st3
          = ["epoch"; "iteration"; "elapsed_time"] ++ content plot_keys st2).
Proof.
  intros E prepare_asr_tts_trainer. split.
  - intros trainer keys st Hkeys. unfold add_progress_report.
    split; [now rewrite <- !app_assoc|]. split.
    + now apply content_set_same.
    + intros id Hid. now apply content_set_other.
  - intros use_cbhg st st1 st2 plot_keys trainer1 Hget Hasr Hgrow.
    pose proof (get_plot_report_keys_content use_cbhg st) as Hkeys.
    rewrite Hget in Hkeys. destruct Hkeys as (Hid & Hlen & _ & Hcontent).
    split; [exact Hcontent|].
    unfold prepare_trainer. rewrite Hget, Hasr. unfold new_list, add_progress_report.
    exists (List.length st2). eexists. split; [now rewrite <- !app_assoc|].
    assert (Hlt : (plot_keys < List.length st2)%nat) by lia.
    assert (Hcopy : content (List.length st2) (st2 ++ [content plot_keys st2])
                    = content plot_keys st2)
      by apply (content_new_list (content plot_keys st2) st2).
    split; [lia|]. split.
    + rewrite content_set_other by lia. unfold content. now apply app_nth1.
    + rewrite content_set_same by (rewrite length_app; cbn; lia).
      now rewrite Hcopy.
Qed.

Lemma progress_report_changes_only_its_copy_witness :
  content 0 (snd (get_plot_report_keys false []))
  = ["main/loss"; "validation/main/loss"; "main/l1_loss"; "validation/main/l1_loss";
     "main/mse_loss"; "validation/main/mse_loss"; "main/bce_loss"; "validation/main/bce_loss"]
    ++ [] /\
  exists copy st3,
    prepare_trainer unit (fun plot_keys st => ([Common tt], st)) false []
    = ([Common tt; LogReport; PrintReport copy; ProgressBar], st3) /\
    copy <> 0%nat /\
    content 0 st3 = content 0 (snd (get_plot_report_keys false [])) /\
    content copy st3
    = ["epoch"; "iteration"; "elapsed_time"] ++ content 0 (snd (get_plot_report_keys false [])).
Proof.
  apply (proj2 (progress_report_changes_only_its_copy
                  unit (fun plot_keys st => ([Common tt], st)))
               false [] _ _ 0%nat [Common tt] eq_refl eq_refl).
  cbn. lia.
Defined.

(* ===================================================================== *)
(** * The gradient norm *)
(* ===================================================================== *)

Module NormFacts.

Section SumSqnormFacts.
Variable Array : Type.
Variable device_of : option Array -> Z.
Variable dot : Array -> float.
Variable fadd : float -> float -> float.

Local Abbreviation add_at := (add_at fadd).
Local Abbreviation sum_sqnorm := (sum_sqnorm Array device_of dot fadd).

(** The loop of [sum_sqnorm]. *)
Local Abbreviation accumulate :=
  (fold_left (fun sq_sum (x : option Array) =>
                match x with
                | Some a => add_at (device_of x) (dot a) sq_sum
                | None => sq_sum
                end)).

Lemma accumulate_None (arr : list (option Array)) :
  forall sq_sum, Forall (fun x => x = None) arr -> accumulate arr sq_sum = sq_sum.
Proof.
  induction arr as [|x arr IH]; intros sq_sum H; [reflexivity|].
  inversion H; subst. cbn [fold_left]. now apply IH.
Qed.

Lemma accumulate_filter (arr : list (option Array)) :
  forall sq_sum,
    accumulate (filter (fun x => match x with Some _ => true | None => false end) arr)
               sq_sum
    = accumulate arr sq_sum.
Proof.
  induction arr as [|[a|] arr IH]; intros sq_sum; cbn [filter fold_left]; auto.
Qed.

Hypothesis fadd_nan : nan_absorbing fadd.

Local Abbreviation holds_nan :=
  (Exists (fun dv : Z * float => isnan (snd dv) = true)).

Lemma add_at_keeps_nan (dev : Z) (s : float) (sq_sum : list (Z * float)) :
  holds_nan sq_sum -> holds_nan (add_at dev s sq_sum).
Proof.
  induction sq_sum as [|[d v] rest IH]; intros H; [inversion H|].
  cbn [Asr.add_at]. inversion H as [? ? Hv|? ? Hrest]; subst; cbn [snd] in *.
  - destruct (d =? dev); apply Exists_cons_hd; cbn [snd]; [|exact Hv].
    apply fadd_nan. now left.
  - destruct (d =? dev); apply Exists_cons_tl; auto.
Qed.

Lemma add_at_nan (dev : Z) (s : float) (sq_sum : list (Z * float)) :
  isnan s = true -> holds_nan (add_at dev s sq_sum).
Proof.
  intros Hs. induction sq_sum as [|[d v] rest IH]; cbn [Asr.add_at].
  - apply Exists_cons_hd. cbn [snd]. apply fadd_nan. now right.
  - destruct (d =? dev).
    + apply Exists_cons_hd. cbn [snd]. apply fadd_nan. now right.
    + apply Exists_cons_tl. exact IH.
Qed.

Lemma accumulate_keeps_nan (arr : list (option Array)) :
  forall sq_sum, holds_nan sq_sum -> holds_nan (accumulate arr sq_sum).
Proof.
  induction arr as [|[a|] arr IH]; intros sq_sum H; cbn [fold_left]; auto.
  apply IH. now apply add_at_keeps_nan.
Qed.

Lemma accumulate_hits_nan (arr : list (option Array)) :
  has_nan_entry dot arr -> forall sq_sum, holds_nan (accumulate arr sq_sum).
Proof.
  intros (a & Hin & Hnan).
  induction arr as [|x arr IH]; intros sq_sum; [contradiction|].
  cbn [fold_left]. destruct Hin as [->|Hin].
  - apply accumulate_keeps_nan. now apply add_at_nan.
  - now apply IH.
Qed.

Lemma sum_from_nan (vs : list float) :
  forall acc, isnan acc = true -> isnan (fold_left fadd vs acc) = true.
Proof.
  induction vs as [|v vs IH]; intros acc H; [exact H|].
  cbn [fold_left]. apply IH. apply fadd_nan. now left.
Qed.

Lemma sum_holds_nan (sq_sum : list (Z * float)) :
  holds_nan sq_sum ->
  forall acc, isnan (fold_left fadd (map snd sq_sum) acc) = true.
Proof.
  induction 1 as [[d v] rest Hv | [d v] rest _ IH]; intros acc; cbn [map fold_left snd].
  - apply sum_from_nan. apply fadd_nan. now right.
  - apply IH.
Qed.

Lemma sum_sqnorm_nan (arr : list (option Array)) :
  has_nan_entry dot arr -> isnan (sum_sqnorm arr) = true.
Proof.
  intros H. unfold Asr.sum_sqnorm. apply sum_holds_nan. now apply accumulate_hits_nan.
Qed.

End SumSqnormFacts.

End NormFacts.

Import NormFacts.

(** X13. [sum_sqnorm] leaves out the entries that are [None]: a list of
    [None] only has the sum [0], and dropping the [None] entries of any list
    does not change its sum.  When the float addition gives NaN for a NaN
    operand, one array whose square sum [x.dot(x)] is NaN makes the whole sum
    NaN, whichever devices the arrays are on. *)
Theorem sum_sqnorm_none_and_nan :
  forall (Array : Type) (device_of : option Array -> Z) (dot : Array -> float)
         (fadd : float -> float -> float) (arr : list (option Array)),
    (Forall (fun x => x = None) arr ->
     sum_sqnorm Array device_of dot fadd arr = of_Z 0) /\
    sum_sqnorm Array device_of dot fadd
               (filter (fun x => match x with Some _ => true | None => false end) arr)
    = sum_sqnorm Array device_of dot fadd arr /\
    (nan_absorbing fadd -> has_nan_entry dot arr ->
     isnan (sum_sqnorm Array device_of dot fadd arr) = true).
Proof.
  intros Array device_of dot fadd arr. split; [|split].
  - intros H. unfold sum_sqnorm. now rewrite accumulate_None.
  - unfold sum_sqnorm. now rewrite accumulate_filter.
  - intros Hadd Hnan. now apply sum_sqnorm_nan.
Qed.

Lemma sum_sqnorm_none_and_nan_witness :
  sum_sqnorm float Toy.device_of Toy.dot Toy.fadd [None; None] = of_Z 0 /\
  isnan (sum_sqnorm float Toy.device_of Toy.dot Toy.fadd
                    [Some (of_Z 3); None; Some NaN]) = true.
Proof.
  split.
  - apply (proj1 (sum_sqnorm_none_and_nan float Toy.device_of Toy.dot Toy.fadd
                                          [None; None])).
    repeat constructor.
  - apply (proj2 (proj2 (sum_sqnorm_none_and_nan float Toy.device_of Toy.dot Toy.fadd
                                                 [Some (of_Z 3); None; Some NaN]))).
    + intros [|? |?] [|? |?] [H|H]; cbn in *; try reflexivity; discriminate.
    + exists NaN. split; [cbn; auto | reflexivity].
Defined.

Section NanUpdate.
Variables Params Xs Ilens Ys Hs : Type.
Variable enc : Params -> Xs -> Ilens -> Hs * Ilens.
Variable ctc : Params -> Hs -> Ys -> float.
Variable dec : Params -> Hs -> Ys -> float * float.
Variables fadd fsub fmul : float -> float -> float.
Variable fsqrt : float -> float.
Variable Array : Type.
Variable device_of : option Array -> Z.
Variable dot : Array -> float.
Variable backward : Params -> Xs * Ilens * Ys -> list (option Array).
Variable OptState : Type.
Variable optimizer_update :
  OptState -> Params -> list (option Array) -> OptState * Params.
Variables Batch Iter : Type.
Variable next : Iter -> Batch * Iter.
Variable converter : Batch -> Z -> outcome (Xs * Ilens * Ys).

Local Abbreviation update_core :=
  (update_core Params Xs Ilens Ys Hs enc ctc dec fadd fsub fmul fsqrt Array device_of dot
               backward OptState optimizer_update Batch Iter next converter).

(** X14. When float addition and [np.sqrt] give NaN for a NaN operand, a
    single parameter whose gradient has a NaN square sum is enough for
    [update_core] to skip the step: the batch is consumed, and parameters,
    optimizer state and the number of [optimizer.update()] calls stay as
    they were. *)
Theorem one_nan_gradient_skips_update :
  nan_absorbing fadd -> (forall x, isnan x = true -> isnan (fsqrt x) = true) ->
  forall (self : Updater Params Array OptState Iter) (x : Xs * Ilens * Ys),
    converter (fst (next (train_iter self))) (device self) = Returns x ->
    flag_return (target self) = false ->
    has_nan_entry dot (backward (params (target self)) x) ->
    exists self',
      update_core self = Returns self' /\
      train_iter self' = snd (next (train_iter self)) /\
      params (target self') = params (target self) /\
      optimizer self' = optimizer self /\
      update_calls self' = update_calls self.
Proof.
  intros Hadd Hsqrt self x Hx Hflag Hnan.
  destruct (update_core_total Params Xs Ilens Ys Hs enc ctc dec fadd fsub fmul fsqrt
                              Array device_of dot backward OptState optimizer_update
                              Batch Iter next converter self x Hx Hflag) as (self' & H).
  exists self'. split; [exact H|].
  assert (Hiter : train_iter self' = snd (next (train_iter self))).
  { unfold Asr.update_core in H.
    destruct (next (train_iter self)) as [batch it]. cbn [fst snd] in *.
    rewrite Hx in H. cbn [bind] in H. destruct x as [[xs ilens] ys].
    apply bind_Returns in H. destruct H as ([[res m] w] & _ & H).
    destruct res; [|discriminate].
    destruct (isnan _); [|destruct (optimizer_update _ _ _)]; now inversion H. }
  split; [exact Hiter|].
  destruct (update_core_Returns Params Xs Ilens Ys Hs enc ctc dec fadd fsub fmul fsqrt
                                Array device_of dot backward OptState optimizer_update
                                Batch Iter next converter self self' H)
    as (xs & ilens & ys & res & m & w & Hx' & _ & _ & Hskip & _).
  rewrite Hx in Hx'. inversion Hx'; subst x; clear Hx'.
  destruct Hskip as (Hp & Ho & Hc & _).
  { unfold grad_norm_of. apply Hsqrt. now apply sum_sqnorm_nan. }
  repeat split; assumption.
Qed.
End NanUpdate.

Lemma one_nan_gradient_skips_update_witness :
  exists self',
    Toy.update_core Toy.backward_nan Toy.updater = Returns self' /\
    train_iter self' = snd (Toy.next (train_iter Toy.updater)) /\
    params (target self') = params (target Toy.updater) /\
    optimizer self' = optimizer Toy.updater /\
    update_calls self' = update_calls Toy.updater.
Proof.
  apply (one_nan_gradient_skips_update
           Z Z unit unit Z Toy.enc Toy.ctc Toy.dec Toy.fadd Toy.fsub Toy.fmul Toy.fsqrt
           float Toy.device_of Toy.dot Toy.backward_nan nat Toy.optimizer_update
           Z (list Z) Toy.next Toy.converter)
    with (x := (20000, tt, tt)).
  - intros [|? |?] [|? |?] [H|H]; cbn in *; try reflexivity; discriminate.
  - intros x H. exact H.
  - reflexivity.
  - reflexivity.
  - exists NaN. split; [cbn; auto | reflexivity].
Defined.

(* ===================================================================== *)
(** * The two losses of the forward pass *)
(* ===================================================================== *)

(** X15. [E2E.__call__] evaluates only the networks its [mtlalpha] needs.
    With [mtlalpha == 0] the CTC network plays no part: the call is the
    same for any two CTC networks, [loss_ctc] is [None] and the loss is the
    decoder's.  With [mtlalpha == 1] the decoder plays no part, [loss_att]
    and [acc] are [None] and the loss is the CTC loss.  Otherwise both are
    evaluated and the loss is
    [mtlalpha * loss_ctc + (1 - mtlalpha) * loss_att]. *)
Theorem unused_network_is_not_evaluated :
  forall (Params Xs Ilens Ys Hs : Type)
         (enc : Params -> Xs -> Ilens -> Hs * Ilens)
         (ctc : Params -> Hs -> Ys -> float)
         (dec : Params -> Hs -> Ys -> float * float)
         (fadd fsub fmul : float -> float -> float)
         (self : E2E Params) (w : World) (xs : Xs) (ilens : Ilens) (ys : Ys),
    let hs := fst (enc (params self) xs ilens) in
    let c := ctc (params self) hs ys in
    let a := fst (dec (params self) hs ys) in
    let acc := snd (dec (params self) hs ys) in
    (eqb (mtlalpha self) (of_Z 0) = true ->
     forward Params Xs Ilens Ys Hs enc ctc dec fadd fsub fmul self xs ilens ys
     = Returns (Some a, None, Some a, Some acc) /\
     forall ctc' : Params -> Hs -> Ys -> float,
       E2E_call Params Xs Ilens Ys Hs enc ctc' dec fadd fsub fmul self w xs ilens ys
       = E2E_call Params Xs Ilens Ys Hs enc ctc dec fadd fsub fmul self w xs ilens ys) /\
    (eqb (mtlalpha self) (of_Z 1) = true ->
     forward Params Xs Ilens Ys Hs enc ctc dec fadd fsub fmul self xs ilens ys
     = Returns (Some c, Some c, None, None) /\
     forall dec' : Params -> Hs -> Ys -> float * float,
       E2E_call Params Xs Ilens Ys Hs enc ctc dec' fadd fsub fmul self w xs ilens ys
       = E2E_call Params Xs Ilens Ys Hs enc ctc dec fadd fsub fmul self w xs ilens ys) /\
    (eqb (mtlalpha self) (of_Z 0) = false -> eqb (mtlalpha self) (of_Z 1) = false ->
     forward Params Xs Ilens Ys Hs enc ctc dec fadd fsub fmul self xs ilens ys
     = Returns (Some (fadd (fmul (mtlalpha self) c)
                           (fmul (fsub (of_Z 1) (mtlalpha self)) a)),
                Some c, Some a, Some acc)).
Proof.
  intros Params Xs Ilens Ys Hs enc ctc dec fadd fsub fmul self w xs ilens ys.
  cbv zeta. split; [|split].
  - intros H0. pose proof (eqb_0_1 _ H0) as H1.
    assert (Hf : forall ctc' : Params -> Hs -> Ys -> float,
               forward Params Xs Ilens Ys Hs enc ctc' dec fadd fsub fmul self xs ilens ys
               = Returns (Some (fst (dec (params self) (fst (enc (params self) xs ilens)) ys)),
                          None,
                          Some (fst (dec (params self) (fst (enc (params self) xs ilens)) ys)),
                          Some (snd (dec (params self) (fst (enc (params self) xs ilens)) ys)))).
    { intros ctc'. unfold forward.
      destruct (enc (params self) xs ilens) as [hs il]. cbn [fst].
      rewrite H0, H1. destruct (dec (params self) hs ys) as [l ac]. reflexivity. }
    split; [apply Hf|].
    intros ctc'. unfold E2E_call. rewrite (Hf ctc'), (Hf ctc). reflexivity.
  - intros H1.
    assert (H0 : eqb (mtlalpha self) (of_Z 0) = false).
    { destruct (eqb (mtlalpha self) (of_Z 0)) eqn:E; [|reflexivity].
      apply eqb_0_1 in E. congruence. }
    assert (Hf : forall dec' : Params -> Hs -> Ys -> float * float,
               forward Params Xs Ilens Ys Hs enc ctc dec' fadd fsub fmul self xs ilens ys
               = Returns (Some (ctc (params self) (fst (enc (params self) xs ilens)) ys),
                          Some (ctc (params self) (fst (enc (params self) xs ilens)) ys),
                          None, None)).
    { intros dec'. unfold forward.
      destruct (enc (params self) xs ilens) as [hs il]. cbn [fst].
      rewrite H0, H1. reflexivity. }
    split; [apply Hf|].
    intros dec'. unfold E2E_call. rewrite (Hf dec'), (Hf dec). reflexivity.
  - intros H0 H1. unfold forward.
    destruct (enc (params self) xs ilens) as [hs il]. cbn [fst].
    rewrite H0, H1. destruct (dec (params self) hs ys) as [l ac]. reflexivity.
Qed.

Lemma unused_network_is_not_evaluated_witness :
  forward Z Z unit unit Z Toy.enc Toy.ctc Toy.dec Toy.fadd Toy.fsub Toy.fmul
          Toy.model 5 tt tt
  = Returns (Some (of_Z 5), None, Some (of_Z 5), Some (of_Z 1)) /\
  forall ctc' : Z -> Z -> unit -> float,
    E2E_call Z Z unit unit Z Toy.enc ctc' Toy.dec Toy.fadd Toy.fsub Toy.fmul
             Toy.model Toy.world0 5 tt tt
    = E2E_call Z Z unit unit Z Toy.enc Toy.ctc Toy.dec Toy.fadd Toy.fsub Toy.fmul
               Toy.model Toy.world0 5 tt tt.
Proof.
  apply (proj1 (unused_network_is_not_evaluated
                  Z Z unit unit Z Toy.enc Toy.ctc Toy.dec Toy.fadd Toy.fsub Toy.fmul
                  Toy.model Toy.world0 5 tt tt)).
  reflexivity.
Defined.

(* ===================================================================== *)
(** * Construction of the model and subsampling *)
(* ===================================================================== *)

Import PyStr E2ESetup.

Module InitFacts.

Lemma set_item_length {A : Type} (j : nat) (v : A) (l : list A) :
  List.length (set_item j v l) = List.length l.
Proof.
  revert j. induction l as [|x l IH]; intros [|j]; cbn; auto.
Qed.

Lemma set_item_same {A : Type} (j : nat) (v : A) (l : list A) :
  (j < List.length l)%nat -> nth_error (set_item j v l) j = Some v.
Proof.
  revert j. induction l as [|x l IH]; intros [|j] H; cbn in *; try lia; auto.
  apply IH. lia.
Qed.

Lemma set_item_other {A : Type} (j i : nat) (v : A) (l : list A) :
  i <> j -> nth_error (set_item j v l) i = nth_error l i.
Proof.
  revert j i. induction l as [|x l IH]; intros [|j] [|i] H; cbn; auto; try lia.
Qed.

Section Fill.
Variable py_int : string -> outcome Z.

Lemma fill_subsample_Returns (ss : list string) (m : nat) :
  forall (a : nat) (sub out : list Z),
    fill_subsample py_int (seq a m) ss sub = Returns out ->
    (a + m <= List.length sub)%nat ->
    List.length out = List.length sub /\
    (forall j, (a <= j < a + m)%nat ->
               exists s v, nth_error ss j = Some s /\ py_int s = Returns v /\
                           nth_error out j = Some v) /\
    (forall j, (j < a \/ a + m <= j)%nat -> nth_error out j = nth_error sub j).
Proof.
  induction m as [|m IH]; intros a sub out H Hlen.
  - cbn in H. inversion H; subst. split; [reflexivity|]. split; intros j Hj; [lia | reflexivity].
  - cbn [seq fill_subsample] in H.
    apply bind_Returns in H. destruct H as (s & Hs & H).
    apply bind_Returns in H. destruct H as (v & Hv & H).
    apply getitem_Returns in Hs; [|lia]. rewrite Nat2Z.id in Hs. destruct Hs as [Hs _].
    destruct (IH (S a) (set_item a v sub) out H) as (Hl & Hset & Hkeep).
    { rewrite set_item_length. lia. }
    rewrite set_item_length in Hl.
    split; [exact Hl|]. split.
    + intros j Hj. destruct (Nat.eq_dec j a) as [->|Hne].
      * exists s, v. repeat split; try assumption.
        rewrite Hkeep by lia. apply set_item_same. lia.
      * apply Hset. lia.
    + intros j Hj. rewrite Hkeep by lia. apply set_item_other. lia.
Qed.
End Fill.

Lemma nth_error_repeat {A : Type} (x : A) (n j : nat) :
  (j < n)%nat -> nth_error (repeat x n) j = Some x.
Proof.
  revert j. induction n as [|n IH]; intros [|j] H; cbn; try lia; auto.
  apply IH. lia.
Qed.

Lemma len_repeat {A : Type} (x : A) (n : Z) : 0 <= n -> len (repeat x (Z.to_nat n)) = n.
Proof. intros H. unfold len. rewrite repeat_length. lia. Qed.

Section Make.
Variable py_int : string -> outcome Z.

(** What [make_subsample] returns, entry by entry. *)
Lemma make_subsample_Returns (args : InitArgs) (subsample : list Z) :
  make_subsample py_int args = Returns subsample ->
  len subsample = args_elayers args + 1 /\
  (endswith (args_etype args) "p" && negb (startswith (args_etype args) "vgg") = false ->
   subsample = repeat 1 (Z.to_nat (args_elayers args + 1))) /\
  (endswith (args_etype args) "p" && negb (startswith (args_etype args) "vgg") = true ->
   forall j, (j < List.length subsample)%nat ->
             match nth_error (split "_"%char (args_subsample args)) j with
             | Some s => py_int s = Returns (nth j subsample 1)
             | None => nth j subsample 1 = 1
             end).
Proof.
  unfold make_subsample. intros H.
  destruct (Z.ltb_spec (args_elayers args + 1) 0) as [|Hn]; [discriminate|].
  destruct (endswith (args_etype args) "p" && negb (startswith (args_etype args) "vgg")).
  - set (ss := split "_"%char (args_subsample args)) in *.
    set (n := args_elayers args + 1) in *.
    destruct (fill_subsample_Returns py_int ss _ 0 _ _ H) as (Hl & Hset & Hkeep).
    { rewrite repeat_length. cbn. lia. }
    rewrite repeat_length in Hl.
    split; [unfold len; lia|]. split; [discriminate|].
    intros _ j Hj.
    destruct (Nat.lt_ge_cases j (Z.to_nat (Z.min n (len ss)))) as [Hlt|Hge].
    + destruct (Hset j) as (s & v & Hs & Hv & Ho); [lia|].
      rewrite Hs. rewrite (nth_error_nth _ _ _ Ho). exact Hv.
    + assert (Ho : nth_error subsample j = Some 1).
      { rewrite Hkeep by lia. apply nth_error_repeat. lia. }
      rewrite (nth_error_nth _ _ _ Ho).
      destruct (nth_error ss j) as [s|] eqn:Hs; [|reflexivity].
      exfalso. assert (j < List.length ss)%nat by (apply nth_error_Some; congruence).
      unfold len in Hge. lia.
  - inversion H; subst. split; [apply len_repeat; lia|].
    split; [reflexivity | discriminate].
Qed.
End Make.

(** [x[::1]] is [x]. *)
Lemma stride_one {Frame : Type} (x : list Frame) : stride Frame 1 x = x.
Proof.
  unfold stride. change (Z.to_nat 1) with 1%nat.
  induction x as [|row x IH]; [reflexivity|].
  cbn [every_kth]. change (1 - 1)%nat with 0%nat. now rewrite IH.
Qed.

End InitFacts.

Import InitFacts.

(** X16. [E2E.__init__] checks [0 <= mtlalpha <= 1] before anything else
    and raises [AssertionError] otherwise (for NaN too).  A constructed
    model has [sos = eos = odim - 1], no accuracy and no loss yet, and a
    [subsample] array of [elayers + 1] entries: all ones unless the encoder
    type ends with [p] and does not start with [vgg]; for such a type entry
    [j] is [int] of field [j] of [args.subsample] (split at [_]) where that
    field exists, and 1 beyond the fields. *)
Theorem init_checks_and_subsample :
  forall (py_int : string -> outcome Z) (Params : Type)
         (init_scope : InitArgs -> Z -> Z -> list Z -> Z -> Z -> Params)
         (idim odim : Z) (args : InitArgs) (flag : bool),
    let pyramid :=
      endswith (args_etype args) "p" && negb (startswith (args_etype args) "vgg") in
    (leb (of_Z 0) (args_mtlalpha args) && leb (args_mtlalpha args) (of_Z 1) = false ->
     E2E_init py_int Params init_scope idim odim args flag = Raises AssertionError) /\
    (forall model : Model Params,
        E2E_init py_int Params init_scope idim odim args flag = Returns model ->
        leb (of_Z 0) (args_mtlalpha args) = true /\
        leb (args_mtlalpha args) (of_Z 1) = true /\
        mtlalpha (net model) = args_mtlalpha args /\
        flag_return (net model) = flag /\
        acc (net model) = None /\ loss (net model) = None /\
        sos model = odim - 1 /\ eos model = odim - 1 /\
        len (subsample model) = args_elayers args + 1 /\
        (pyramid = false ->
         subsample model = repeat 1 (Z.to_nat (args_elayers args + 1))) /\
        (pyramid = true ->
         forall j, (j < List.length (subsample model))%nat ->
                   match nth_error (split "_"%char (args_subsample args)) j with
                   | Some s => py_int s = Returns (nth j (subsample model) 1)
                   | None => nth j (subsample model) 1 = 1
                   end)).
Proof.
  intros py_int Params init_scope idim odim args flag pyramid. split.
  - intros H. unfold E2E_init. now rewrite H.
  - intros model H. unfold E2E_init in H.
    destruct (leb (of_Z 0) (args_mtlalpha args) && leb (args_mtlalpha args) (of_Z 1))
             eqn:Hα; [|discriminate].
    apply andb_true_iff in Hα. destruct Hα as [H0 H1].
    apply bind_Returns in H. destruct H as (sub & Hsub & H).
    inversion H; subst model; clear H. cbn.
    destruct (make_subsample_Returns py_int args sub Hsub) as (Hl & Hones & Hfields).
    repeat split; assumption.
Qed.

Lemma init_checks_and_subsample_witness :
  Instances.E2E_init 83 52 (mkInitArgs NaN "blstmp" 4 "1_2_2_1_1") false
    = Raises AssertionError /\
  exists model,
    Instances.E2E_init 83 52 Instances.blstmp_args false = Returns model /\
    sos model = 51 /\ eos model = 51 /\
    subsample model = [1; 2; 2; 1; 1].
Proof.
  split.
  - apply (proj1 (init_checks_and_subsample Instances.py_int unit Instances.init_scope
                    83 52 (mkInitArgs NaN "blstmp" 4 "1_2_2_1_1") false)).
    reflexivity.
  - eexists. split; [reflexivity|].
    pose proof (proj2 (init_checks_and_subsample Instances.py_int unit Instances.init_scope
                         83 52 Instances.blstmp_args false) _ eq_refl) as H.
    cbn in H. repeat split; apply H.
Defined.

(** X17. The converter that [train] builds for a model subsamples by the
    model's first factor [subsample[0]].  For an encoder type that does not
    end with [p], or that starts with [vgg], this factor is 1 and the
    converter hands on every frame of every input; for the other types it
    is [int] of the first field of [args.subsample]. *)
Theorem converter_uses_first_factor :
  forall (py_int : string -> outcome Z) (Params : Type)
         (init_scope : InitArgs -> Z -> Z -> list Z -> Z -> Z -> Params)
         (idim odim : Z) (args : InitArgs) (flag : bool) (model : Model Params),
    E2E_init py_int Params init_scope idim odim args flag = Returns model ->
    0 <= args_elayers args ->
    exists k,
      converter_for model = Returns (mkConverter k) /\
      (endswith (args_etype args) "p" && negb (startswith (args_etype args) "vgg") = false ->
       k = 1 /\
       forall (Frame Frame32 : Type) (astype_float32 : Frame -> Frame32)
              (xs : list (list Frame)) (ys : list (list Z)) (device : Z),
         converter_call Frame Frame32 astype_float32 (mkConverter k) [(xs, ys)] device
         = Returns (map (map astype_float32) xs,
                    map astype_int32 (map (fun x => len x) xs),
                    map (map astype_int32) ys)) /\
      (endswith (args_etype args) "p" && negb (startswith (args_etype args) "vgg") = true ->
       exists s, hd_error (split "_"%char (args_subsample args)) = Some s /\
                 py_int s = Returns k).
Proof.
  intros py_int Params init_scope idim odim args flag model H Hel.
  unfold E2E_init in H.
  destruct (leb (of_Z 0) (args_mtlalpha args) && leb (args_mtlalpha args) (of_Z 1));
    [|discriminate].
  apply bind_Returns in H. destruct H as (sub & Hsub & H).
  inversion H; subst model; clear H.
  destruct (make_subsample_Returns py_int args sub Hsub) as (Hl & Hones & Hfields).
  destruct sub as [|k sub]; [unfold len in Hl; cbn in Hl; lia|].
  exists k. split; [reflexivity|]. split.
  - intros Hp. specialize (Hones Hp).
    assert (Hk : k = 1).
    { destruct (Z.to_nat (args_elayers args + 1)) eqn:E; [lia|].
      cbn in Hones. congruence. }
    split; [exact Hk|]. subst k. reflexivity.
  - intros Hp. specialize (Hfields Hp 0%nat). cbn [List.length nth] in Hfields.
    unfold split in *. destruct (split_aux "_" (args_subsample args)) as [f fs].
    cbn [nth_error hd_error] in *. exists f. split; [reflexivity|].
    apply Hfields. lia.
Qed.

Lemma converter_uses_first_factor_witness :
  exists k,
    converter_for (mkModel (mkE2E (Finite (1 # 2)) false None None tt)
                           "vggblstmp" 51 51 [1; 1; 1; 1; 1])
    = Returns (mkConverter k) /\ k = 1.
Proof.
  destruct (converter_uses_first_factor Instances.py_int unit Instances.init_scope
              83 52 Instances.vgg_args false _ eq_refl) as (k & Hk & Hvgg & _).
  - cbn; lia.
  - exists k. split; [exact Hk|]. apply Hvgg. reflexivity.
Defined.

Section RecognizeFacts.
Variables Frame Frame32 : Type.
Variable astype_float32 : Frame -> Frame32.

Local Abbreviation recognize_input := (recognize_input Frame Frame32 astype_float32).
Local Abbreviation converter_call := (converter_call Frame Frame32 astype_float32).

(** X18. [E2E.recognize] and the training converter subsample alike for
    every factor [k >= 1]: the frames and the length that [recognize] hands
    to the encoder for an input are the ones the converter built with
    [subsampling_factor = k] returns for it, row [j] being row [j * k] of the
    input and the length [ceil(T / k)].  They differ for [k <= 0], where the
    converter keeps the input whole: [recognize] raises [ValueError] for
    [k = 0] and walks the input backwards for [k < 0]. *)
Theorem recognize_subsamples_as_converter :
  forall (subsample : list Z) (k : Z) (x : list Frame),
    hd_error subsample = Some k ->
    (1 <= k ->
     exists h ilen,
       recognize_input subsample x = Returns (h, ilen) /\
       (forall (ys : list (list Z)) (device : Z),
           converter_call (mkConverter k) [([x], ys)] device
           = Returns ([h], [ilen], map (map astype_int32) ys)) /\
       (forall j, nth_error h j
                  = option_map astype_float32 (nth_error x (j * Z.to_nat k))) /\
       ilen = astype_int32 ((len x + k - 1) / k)) /\
    (k = 0 ->
     recognize_input subsample x = Raises (ValueError "slice step cannot be zero")) /\
    (k < 0 ->
     recognize_input subsample x
     = Returns (map astype_float32 (stride Frame (- k) (rev x)),
                astype_int32 ((len x - k - 1) / - k))) /\
    (k <= 0 ->
     forall (ys : list (list Z)) (device : Z),
       converter_call (mkConverter k) [([x], ys)] device
       = Returns ([map astype_float32 x], [astype_int32 (len x)],
                  map (map astype_int32) ys)).
Proof.
  intros subsample k x Hk.
  assert (Hget : getitem subsample 0 = Returns k).
  { destruct subsample; [discriminate|]. cbn in Hk. inversion Hk. reflexivity. }
  unfold E2ESetup.recognize_input. rewrite Hget. cbn [bind]. unfold getitem_step.
  split; [|split; [|split]].
  - intros H1.
    destruct (Z.eqb_spec k 0); [lia|]. destruct (Z.gtb_spec k 0); [|lia].
    cbn [bind]. do 2 eexists. split; [reflexivity|]. split; [|split].
    + intros ys device. unfold Asr.converter_call. cbn [subsampling_factor].
      destruct (Z.gtb_spec k 1) as [Hgt|Hle].
      * reflexivity.
      * assert (k = 1) by lia. subst k. cbn [map]. now rewrite stride_one.
    + intros j. rewrite nth_error_map. now rewrite stride_nth by lia.
    + now rewrite stride_len by lia.
  - intros ->. reflexivity.
  - intros Hneg.
    destruct (Z.eqb_spec k 0); [lia|]. destruct (Z.gtb_spec k 0); [lia|].
    cbn [bind]. rewrite stride_len by lia. rewrite len_rev.
    replace (len x + - k - 1) with (len x - k - 1) by lia. reflexivity.
  - intros Hle ys device. unfold Asr.converter_call. cbn [subsampling_factor].
    destruct (Z.gtb_spec k 1); [lia|]. reflexivity.
Qed.
End RecognizeFacts.

Lemma recognize_subsamples_as_converter_witness :
  (exists h ilen,
      recognize_input Z Z (fun v => v) [2; 1] [10; 11; 12; 13; 14] = Returns (h, ilen) /\
      (forall (ys : list (list Z)) (device : Z),
          converter_call Z Z (fun v => v) (mkConverter 2) [([[10; 11; 12; 13; 14]], ys)] device
          = Returns ([h], [ilen], map (map astype_int32) ys)) /\
      (forall j, nth_error h j
                 = option_map (fun v => v)
                              (nth_error [10; 11; 12; 13; 14] (j * Z.to_nat 2))) /\
      ilen = astype_int32 ((len [10; 11; 12; 13; 14] + 2 - 1) / 2)) /\
  recognize_input Z Z (fun v => v) [0; 1] [10; 11; 12; 13; 14]
  = Raises (ValueError "slice step cannot be zero") /\
  (forall (ys : list (list Z)) (device : Z),
      converter_call Z Z (fun v => v) (mkConverter 0) [([[10; 11; 12; 13; 14]], ys)] device
      = Returns ([map (fun v => v) [10; 11; 12; 13; 14]],
                 [astype_int32 (len [10; 11; 12; 13; 14])],
                 map (map astype_int32) ys)).
Proof.
  split; [|split].
  - apply (proj1 (recognize_subsamples_as_converter Z Z (fun v => v) [2; 1] 2
                    [10; 11; 12; 13; 14] eq_refl)).
    lia.
  - apply (proj1 (proj2 (recognize_subsamples_as_converter Z Z (fun v => v) [0; 1] 0
                           [10; 11; 12; 13; 14] eq_refl))).
    reflexivity.
  - apply (proj2 (proj2 (proj2 (recognize_subsamples_as_converter
                                  Z Z (fun v => v) [0; 1] 0 [10; 11; 12; 13; 14] eq_refl)))).
    lia.
Defined.

Section RecognizeCall.
Variables Frame Frame32 : Type.
Variable astype_float32 : Frame -> Frame32.
Variables H Lpz Hyp : Type.
Variable enc : list (list Frame32) -> list Z -> list H * list Z.
Variable recognize_beam : H -> option Lpz -> Hyp.

(** X19. [E2E.recognize] computes the CTC log-probabilities only for
    [ctc_weight > 0.0]: for any other weight (NaN too) the result is the
    same whatever [ctc.log_softmax] is, and it is the beam search on the
    first encoder output with [lpz = None].  The encoder is given one
    utterance, the subsampled input, and its length. *)
Theorem recognize_uses_ctc_only_with_weight :
  forall (log_softmax : list H -> list Lpz) (subsample : list Z) (x : list Frame)
         (ctc_weight : float) (h : list Frame32) (ilen : Z) (h0 : H),
    recognize_input Frame Frame32 astype_float32 subsample x = Returns (h, ilen) ->
    hd_error (fst (enc [h] [ilen])) = Some h0 ->
    (ltb (of_Z 0) ctc_weight = false ->
     recognize Frame Frame32 astype_float32 H Lpz Hyp enc log_softmax recognize_beam
               subsample x ctc_weight
     = Returns (recognize_beam h0 None) /\
     forall log_softmax' : list H -> list Lpz,
       recognize Frame Frame32 astype_float32 H Lpz Hyp enc log_softmax' recognize_beam
                 subsample x ctc_weight
       = recognize Frame Frame32 astype_float32 H Lpz Hyp enc log_softmax recognize_beam
                   subsample x ctc_weight) /\
    (ltb (of_Z 0) ctc_weight = true ->
     recognize Frame Frame32 astype_float32 H Lpz Hyp enc log_softmax recognize_beam
               subsample x ctc_weight
     = match log_softmax (fst (enc [h] [ilen])) with
       | l :: _ => Returns (recognize_beam h0 (Some l))
       | [] => Raises IndexError
       end).
Proof.
  intros log_softmax subsample x ctc_weight h ilen h0 Hin Hh0.
  assert (Hf : forall ls : list H -> list Lpz,
             recognize Frame Frame32 astype_float32 H Lpz Hyp enc ls recognize_beam
                       subsample x ctc_weight
             = (lpz <- (if ltb (of_Z 0) ctc_weight then
                          l <- getitem (ls (fst (enc [h] [ilen]))) 0 ;; Returns (Some l)
                        else Returns None) ;;
                Returns (recognize_beam h0 lpz))).
  { intros ls. unfold recognize. rewrite Hin. cbn [bind].
    destruct (enc [h] [ilen]) as [hs il]. cbn [fst] in *.
    destruct hs as [|h0' hs]; [discriminate|]. cbn in Hh0. inversion Hh0; subst h0'.
    destruct (ltb (of_Z 0) ctc_weight); [|reflexivity].
    destruct (ls (h0 :: hs)); reflexivity. }
  split.
  - intros Hw. rewrite !Hf, Hw. split; [reflexivity|].
    intros ls'. now rewrite Hf, Hw.
  - intros Hw. rewrite Hf, Hw.
    destruct (log_softmax (fst (enc [h] [ilen]))); reflexivity.
Qed.
End RecognizeCall.

Lemma recognize_uses_ctc_only_with_weight_witness :
  recognize Z Z (fun v => v) (list Z) Z (list Z * option Z)
            (fun hs ilens => (hs, ilens)) (fun hs => map (fun h => len h) hs)
            (fun h lpz => (h, lpz)) [2; 1] [10; 11; 12; 13; 14] (of_Z 0)
  = Returns ([10; 12; 14], None) /\
  forall log_softmax' : list (list Z) -> list Z,
    recognize Z Z (fun v => v) (list Z) Z (list Z * option Z)
              (fun hs ilens => (hs, ilens)) log_softmax'
              (fun h lpz => (h, lpz)) [2; 1] [10; 11; 12; 13; 14] (of_Z 0)
    = recognize Z Z (fun v => v) (list Z) Z (list Z * option Z)
                (fun hs ilens => (hs, ilens)) (fun hs => map (fun h => len h) hs)
                (fun h lpz => (h, lpz)) [2; 1] [10; 11; 12; 13; 14] (of_Z 0).
Proof.
  apply (proj1 (recognize_uses_ctc_only_with_weight
                  Z Z (fun v => v) (list Z) Z (list Z * option Z)
                  (fun hs ilens => (hs, ilens)) (fun h lpz => (h, lpz))
                  (fun hs => map (fun h => len h) hs) [2; 1] [10; 11; 12; 13; 14] (of_Z 0)
                  [10; 12; 14] 3 [10; 12; 14] eq_refl eq_refl)).
  reflexivity.
Defined.

(* ===================================================================== *)
(** * Dictionaries built by [train] and [recog] *)
(* ===================================================================== *)

Import PyDict AsrSetup.

Module DictFacts.

Section DictLemmas.
Context {V : Type}.

Lemma dict_get_set_same (k : string) (v : V) (d : list (string * V)) :
  dict_get String.eqb k (dict_set String.eqb k v d) = Some v.
Proof.
  induction d as [|[k' v'] d IH]; cbn.
  - now rewrite String.eqb_refl.
  - destruct (String.eqb_spec k' k) as [->|Hne]; cbn.
    + now rewrite String.eqb_refl.
    + destruct (String.eqb_spec k' k); [contradiction | exact IH].
Qed.

Lemma dict_get_set_other (k k0 : string) (v : V) (d : list (string * V)) :
  k <> k0 -> dict_get String.eqb k0 (dict_set String.eqb k v d) = dict_get String.eqb k0 d.
Proof.
  intros Hne. induction d as [|[k' v'] d IH]; cbn.
  - destruct (String.eqb_spec k k0); [contradiction | reflexivity].
  - destruct (String.eqb_spec k' k) as [->|Hne']; cbn.
    + destruct (String.eqb_spec k k0); [contradiction | reflexivity].
    + destruct (String.eqb_spec k' k0); [reflexivity | exact IH].
Qed.

Lemma dict_set_fresh (k : string) (v : V) (d : list (string * V)) :
  ~ In k (map fst d) -> dict_set String.eqb k v d = d ++ [(k, v)].
Proof.
  induction d as [|[k' v'] d IH]; intros Hin; cbn; [reflexivity|].
  destruct (String.eqb_spec k' k) as [->|Hne].
  - exfalso. apply Hin. now left.
  - f_equal. apply IH. intros H. apply Hin. now right.
Qed.
End DictLemmas.

Lemma enumerate_from_app {A : Type} (l1 l2 : list A) (i : nat) :
  enumerate_from i (l1 ++ l2)
  = enumerate_from i l1 ++ enumerate_from (i + List.length l1) l2.
Proof.
  revert i. induction l1 as [|x l1 IH]; intros i; cbn.
  - now rewrite Nat.add_0_r.
  - rewrite IH. do 3 f_equal. lia.
Qed.

Lemma char_dict_snoc (l : list string) (y : string) :
  char_dict (l ++ [y]) = dict_set String.eqb y (List.length l) (char_dict l).
Proof.
  unfold char_dict. rewrite enumerate_from_app, fold_left_app. reflexivity.
Qed.

Lemma char_dict_get (l : list string) (x : string) (i : nat) :
  dict_get String.eqb x (char_dict l) = Some i <->
  nth_error l i = Some x /\ forall j, (i < j)%nat -> nth_error l j <> Some x.
Proof.
  revert i. induction l as [|y l IH] using rev_ind; intros i.
  - cbn. split; [discriminate|]. intros [H _]. destruct i; discriminate.
  - rewrite char_dict_snoc.
    destruct (String.eqb_spec y x) as [->|Hne].
    + rewrite dict_get_set_same. split.
      * intros E. inversion E; subst i. split.
        -- rewrite nth_error_app2 by lia. now rewrite Nat.sub_diag.
        -- intros j Hj Hnth.
           assert (j < List.length (l ++ [x]))%nat by (apply nth_error_Some; congruence).
           rewrite length_app in *. cbn in *. lia.
      * intros [Hnth Hlast]. f_equal.
        assert (i < List.length (l ++ [x]))%nat by (apply nth_error_Some; congruence).
        rewrite length_app in *. cbn in *.
        destruct (Nat.eq_dec i (List.length l)) as [|Hi]; [congruence|].
        exfalso. apply (Hlast (List.length l)); [lia|].
        rewrite nth_error_app2 by lia. now rewrite Nat.sub_diag.
    + rewrite dict_get_set_other by assumption. rewrite IH. split.
      * intros [Hnth Hlast].
        assert (i < List.length l)%nat by (apply nth_error_Some; congruence).
        split; [now rewrite nth_error_app1|].
        intros j Hj Hnth'.
        destruct (Nat.lt_ge_cases j (List.length l)) as [Hlt|Hge].
        -- rewrite nth_error_app1 in Hnth' by assumption. now apply (Hlast j).
        -- rewrite nth_error_app2 in Hnth' by assumption.
           destruct (j - List.length l)%nat as [|[|?]]; cbn in Hnth'; congruence.
      * intros [Hnth Hlast].
        destruct (Nat.lt_ge_cases i (List.length l)) as [Hlt|Hge].
        -- rewrite nth_error_app1 in Hnth by assumption. split; [exact Hnth|].
           intros j Hj Hnth'. apply (Hlast j Hj).
           rewrite nth_error_app1; [exact Hnth'|].
           apply nth_error_Some; congruence.
        -- rewrite nth_error_app2 in Hnth by assumption.
           destruct (i - List.length l)%nat as [|[|?]]; cbn in Hnth; congruence.
Qed.

Lemma char_dict_None (l : list string) (x : string) :
  dict_get String.eqb x (char_dict l) = None <-> ~ In x l.
Proof.
  induction l as [|y l IH] using rev_ind.
  - cbn. tauto.
  - rewrite char_dict_snoc, in_app_iff.
    destruct (String.eqb_spec y x) as [->|Hne].
    + rewrite dict_get_set_same. split; [discriminate|].
      intros H. exfalso. apply H. right. now left.
    + rewrite dict_get_set_other by assumption. rewrite IH. cbn. tauto.
Qed.

Lemma NoDup_map_injective {A B : Type} (f : A -> B) (l : list A) :
  (forall a b, f a = f b -> a = b) -> NoDup l -> NoDup (map f l).
Proof.
  intros Hinj. induction 1 as [|x l Hx _ IH]; cbn; constructor; [|exact IH].
  intros Hin. apply in_map_iff in Hin. destruct Hin as (y & Hy & Hin).
  apply Hinj in Hy. now subst y.
Qed.

Lemma format_d_inj (a b : nat) : format_d a = format_d b -> a = b.
Proof.
  unfold format_d. intros H.
  apply (f_equal NilEmpty.uint_of_string) in H. rewrite !NilEmpty.usu in H.
  inversion H. now apply Unsigned.to_uint_inj.
Qed.

Local Abbreviation sub_name := (fun gid : nat => ("sub_" ++ format_d gid)%string).

Lemma sub_name_inj (a b : nat) : sub_name a = sub_name b -> a = b.
Proof. cbn. intros H. inversion H. now apply format_d_inj. Qed.

Lemma devices_fold (n : nat) :
  fold_left (fun devices gid =>
               dict_set String.eqb (sub_name gid) (Z.of_nat gid) devices)
            (seq 1 n) [("main", 0)]
  = ("main", 0) :: map (fun gid => (sub_name gid, Z.of_nat gid)) (seq 1 n).
Proof.
  induction n as [|n IH]; [reflexivity|].
  rewrite seq_S, fold_left_app, IH. cbn [fold_left].
  rewrite dict_set_fresh.
  - rewrite map_app. reflexivity.
  - cbn [map fst]. intros [H|H]; [discriminate|].
    rewrite map_map in H. cbn [fst] in H.
    apply in_map_iff in H. destruct H as (g & Hg & Hin).
    apply sub_name_inj in Hg. apply in_seq in Hin. lia.
Qed.

End DictFacts.

Import DictFacts.

(** X20. The [char_dict] that [recog] builds inverts [char_list]: it maps a
    symbol to the last index at which the list holds it, so looking the
    index up in the list gives the symbol back, and it has no entry for a
    symbol that is not in the list.  For a list without repetitions every
    index is found again from its symbol. *)
Theorem char_dict_inverts_char_list :
  forall (char_list : list string) (x : string),
    (forall i, dict_get String.eqb x (char_dict char_list) = Some i <->
               nth_error char_list i = Some x /\
               forall j, (i < j)%nat -> nth_error char_list j <> Some x) /\
    (dict_get String.eqb x (char_dict char_list) = None <-> ~ In x char_list) /\
    (NoDup char_list ->
     forall i, nth_error char_list i = Some x ->
               dict_get String.eqb x (char_dict char_list) = Some i).
Proof.
  intros char_list x. split; [|split].
  - intros i. apply char_dict_get.
  - apply char_dict_None.
  - intros Hnd i Hi. apply char_dict_get. split; [exact Hi|].
    intros j Hj Hnth.
    assert (i = j); [|lia].
    apply (NoDup_nth_error char_list); [exact Hnd | | congruence].
    apply nth_error_Some. congruence.
Qed.

Lemma char_dict_inverts_char_list_witness :
  dict_get String.eqb "b" (char_dict ["<blank>"; "a"; "b"; "<eos>"]) = Some 2%nat.
Proof.
  apply (proj2 (proj2 (char_dict_inverts_char_list ["<blank>"; "a"; "b"; "<eos>"] "b"))).
  - repeat constructor; cbn; intuition discriminate.
  - reflexivity.
Defined.

(** X21. [train] runs on the CPU ([gpu_id = -1]) for [ngpu <= 0] and on
    device 0 for [ngpu = 1], and binds [devices] only for [ngpu > 1]:
    ['main'] for device 0 and ['sub_<gid>'] for each [gid] from 1 to
    [ngpu - 1], in this order.  The names are pairwise distinct and the
    device ids are [0, ..., ngpu - 1], each once. *)
Theorem devices_name_every_gpu_once :
  forall ngpu : Z,
    (ngpu <= 0 -> set_gpu ngpu = (-1, None)) /\
    (ngpu = 1 -> set_gpu ngpu = (0, None)) /\
    (1 < ngpu ->
     exists devices,
       set_gpu ngpu = (0, Some devices) /\
       devices = ("main", 0) ::
                 map (fun gid => (("sub_" ++ format_d gid)%string, Z.of_nat gid))
                     (seq 1 (Z.to_nat ngpu - 1)) /\
       NoDup (map fst devices) /\
       map snd devices = map Z.of_nat (seq 0 (Z.to_nat ngpu))).
Proof.
  intros ngpu. unfold set_gpu. split; [|split].
  - intros H. destruct (Z.eqb_spec ngpu 1); [lia|].
    destruct (Z.gtb_spec ngpu 1); [lia | reflexivity].
  - intros ->. reflexivity.
  - intros H. destruct (Z.eqb_spec ngpu 1); [lia|].
    destruct (Z.gtb_spec ngpu 1); [|lia].
    eexists. split; [reflexivity|]. rewrite devices_fold.
    split; [reflexivity|]. split.
    + cbn [map fst]. constructor.
      * rewrite map_map. cbn [fst]. intros Hin.
        apply in_map_iff in Hin. destruct Hin as (g & Hg & _). discriminate.
      * rewrite map_map. cbn [fst].
        apply NoDup_map_injective; [|apply seq_NoDup].
        intros a b. apply sub_name_inj.
    + cbn [map snd]. rewrite map_map. cbn [snd].
      replace (Z.to_nat ngpu) with (S (Z.to_nat ngpu - 1)) at 2 by lia.
      reflexivity.
Qed.

Lemma devices_name_every_gpu_once_witness :
  set_gpu 0 = (-1, None) /\
  set_gpu 1 = (0, None) /\
  exists devices,
    set_gpu 3 = (0, Some devices) /\
    devices = [("main", 0); ("sub_1", 1); ("sub_2", 2)] /\
    NoDup (map fst devices) /\
    map snd devices = [0; 1; 2].
Proof.
  split; [|split].
  - apply (proj1 (devices_name_every_gpu_once 0)). lia.
  - apply (proj1 (proj2 (devices_name_every_gpu_once 1))). reflexivity.
  - apply (proj2 (proj2 (devices_name_every_gpu_once 3))). lia.
Defined.

(* ===================================================================== *)
(** * The parallel update step *)
(* ===================================================================== *)

Section ParallelFacts.
Variables Params Xs Ilens Ys Hs : Type.
Variable enc : Params -> Xs -> Ilens -> Hs * Ilens.
Variable ctc : Params -> Hs -> Ys -> float.
Variable dec : Params -> Hs -> Ys -> float * float.
Variables fadd fsub fmul : float -> float -> float.
Variable fsqrt : float -> float.
Variable Array : Type.
Variable device_of : option Array -> Z.
Variable dot : Array -> float.
Variable backward : Params -> Xs * Ilens * Ys -> list (option Array).
Variable OptState : Type.
Variable optimizer_update :
  OptState -> Params -> list (option Array) -> OptState * Params.
Variables Batch Iter : Type.
Variable next : Iter -> Batch * Iter.
Variable converter : Batch -> Z -> outcome (Xs * Ilens * Ys).
Variable Comm : Type.
Variable reduce : Comm -> list (option Array) -> list (option Array).

Local Abbreviation update_core :=
  (update_core Params Xs Ilens Ys Hs enc ctc dec fadd fsub fmul fsqrt Array device_of dot
               backward OptState optimizer_update Batch Iter next converter).

Local Abbreviation parallel_update_core :=
  (parallel_update_core Params Xs Ilens Ys Hs enc ctc dec fadd fsub fmul fsqrt Array
                        device_of dot backward OptState optimizer_update Batch Iter next
                        converter Comm reduce).

(** X22. [CustomParallelUpdater.update_core] on the master.  Without a
    communicator it is the step of [CustomUpdater] after the ['update']
    message.  With one, the NaN test is made on the reduced gradient, not on
    the master's own: a NaN norm of the reduced gradient leaves parameters
    and optimizer state as they were, any other norm makes the one
    optimizer step with the reduced gradient; and in both cases the
    parameters broadcast at the end are the master's parameters after this
    decision. *)
Theorem parallel_update_reduces_then_broadcasts :
  (forall self : ParallelUpdater Params Array OptState Iter Comm,
      comm self = None ->
      parallel_update_core self =
      (m <- update_core (master self) ;;
       Returns (mkParallelUpdater m None (traffic self ++ [MsgUpdate])))) /\
  (forall (self self' : ParallelUpdater Params Array OptState Iter Comm) (c : Comm),
      comm self = Some c ->
      parallel_update_core self = Returns self' ->
      exists x,
        converter (fst (next (train_iter (master self)))) (device (master self))
        = Returns x /\
        let p := params (target (master self)) in
        let g := reduce c (backward p x) in
        let grad_norm := fsqrt (sum_sqnorm Array device_of dot fadd g) in
        grads (master self') = g /\
        traffic self'
        = traffic self ++ [MsgUpdate; Bcast (params (target (master self')))] /\
        (isnan grad_norm = true ->
         params (target (master self')) = p /\
         optimizer (master self') = optimizer (master self) /\
         update_calls (master self') = update_calls (master self)) /\
        (isnan grad_norm = false ->
         (optimizer (master self'), params (target (master self')))
         = optimizer_update (optimizer (master self)) p g /\
         update_calls (master self') = S (update_calls (master self)))).
Proof.
  split.
  - intros self Hcomm. unfold AsrSetup.parallel_update_core, Asr.update_core.
    rewrite Hcomm.
    destruct (next (train_iter (master self))) as [batch it].
    destruct (converter batch (device (master self))) as [[[xs ilens] ys]| |];
      cbn [bind]; try reflexivity.
    destruct (E2E_call _ _ _ _ _ _ _ _ _ _ _ _ _ _ _ _) as [[[res m] w]| |];
      cbn [bind]; try reflexivity.
    destruct res; [|reflexivity].
    destruct (isnan _); [reflexivity|].
    destruct (optimizer_update _ _ _); reflexivity.
  - intros self self' c Hcomm H. unfold AsrSetup.parallel_update_core in H.
    rewrite Hcomm in H.
    destruct (next (train_iter (master self))) as [batch it]. cbn [fst].
    destruct (converter batch (device (master self))) as [[[xs ilens] ys]| |];
      cbn [bind] in H; try discriminate.
    exists (xs, ilens, ys). split; [reflexivity|].
    destruct (E2E_call _ _ _ _ _ _ _ _ _ _ _ _ _ _ _ _) as [[[res m] w]| |] eqn:Hcall;
      cbn [bind] in H; try discriminate.
    destruct (E2E_call_Returns _ _ _ _ _ _ _ _ _ _ _ _ _ _ _ _ _ _ _ Hcall)
      as (l & lc & la & a & _ & _ & Hm & _).
    assert (Hp : params m = params (target (master self))) by (subst m; reflexivity).
    destruct res; [|discriminate].
    rewrite Hp in H. cbv zeta.
    destruct (isnan (fsqrt (sum_sqnorm Array device_of dot fadd
                                       (reduce c (backward (params (target (master self)))
                                                           (xs, ilens, ys)))))).
    + inversion H; subst self'; clear H. cbn.
      rewrite <- app_assoc. repeat split; try assumption; try reflexivity;
        discriminate.
    + destruct (optimizer_update _ _ _) as [opt p'] eqn:Hopt.
      inversion H; subst self'; clear H. cbn.
      rewrite <- app_assoc. repeat split; try reflexivity; discriminate.
Qed.
End ParallelFacts.

Lemma parallel_update_reduces_then_broadcasts_witness :
  exists self',
    Instances.parallel_update_core Instances.parallel_updater = Returns self' /\
    isnan (Toy.fsqrt (sum_sqnorm float Toy.device_of Toy.dot Toy.fadd
                                 (Toy.backward_finite 7 (20000, tt, tt)))) = false /\
    params (target (master self')) = 7 /\
    update_calls (master self') = 0%nat /\
    traffic self' = [MsgUpdate; Bcast 7].
Proof.
  eexists. split; [reflexivity|].
  destruct (proj2 (parallel_update_reduces_then_broadcasts
                     Z Z unit unit Z Toy.enc Toy.ctc Toy.dec Toy.fadd Toy.fsub Toy.fmul
                     Toy.fsqrt float Toy.device_of Toy.dot Toy.backward_finite nat
                     Toy.optimizer_update Z (list Z) Toy.next Toy.converter
                     (list (option float)) Instances.reduce)
                  Instances.parallel_updater _ _ eq_refl eq_refl)
    as (x & Hx & _ & Htraffic & Hnan & _).
  cbn in Hx. inversion Hx; subst x; clear Hx.
  destruct Hnan as (Hp & _ & Hc); [reflexivity|].
  split; [reflexivity|]. split; [exact Hp|]. split; [exact Hc|]. exact Htraffic.
Defined.

(* ===================================================================== *)
(** * More about the shards of the multi-GPU set-up *)
(* ===================================================================== *)

Module BalanceFacts.

Lemma count_step (N n g : nat) :
  (g < n)%nat ->
  ((N + 1 + n - 1 - g) / n = (N + n - 1 - g) / n + (if N mod n =? g then 1 else 0))%nat.
Proof.
  intros Hg.
  assert (Hn : n <> 0%nat) by lia.
  pose proof (Nat.div_mod_eq N n) as HN.
  pose proof (Nat.mod_upper_bound N n Hn) as Hm.
  set (q := (N / n)%nat) in *. set (m := (N mod n)%nat) in *.
  destruct (Nat.eqb_spec m g) as [E|E].
  - rewrite <- (Nat.div_unique (N + 1 + n - 1 - g) n (q + 1) 0) by nia.
    rewrite <- (Nat.div_unique (N + n - 1 - g) n q (n - 1)) by nia.
    reflexivity.
  - destruct (Nat.lt_ge_cases m g) as [Hlt|Hge].
    + rewrite <- (Nat.div_unique (N + 1 + n - 1 - g) n q (m + n - g)) by nia.
      rewrite <- (Nat.div_unique (N + n - 1 - g) n q (m + n - 1 - g)) by nia.
      lia.
    + rewrite <- (Nat.div_unique (N + 1 + n - 1 - g) n (q + 1) (m - g)) by nia.
      rewrite <- (Nat.div_unique (N + n - 1 - g) n (q + 1) (m - 1 - g)) by nia.
      lia.
Qed.

Lemma subset_length (Key Value : Type) (ngpu gid : nat) (train_json : list (Key * Value)) :
  (gid < ngpu)%nat ->
  List.length (train_json_subset Key Value ngpu gid train_json)
  = ((List.length train_json + ngpu - 1 - gid) / ngpu)%nat.
Proof.
  intros Hg. unfold train_json_subset. rewrite length_map.
  induction train_json as [|kv l IH] using rev_ind.
  - cbn. symmetry. apply Nat.div_small. lia.
  - rewrite enumerate_from_app, filter_app, !length_app, IH.
    cbn [enumerate_from filter fst List.length]. rewrite Nat.add_0_l.
    rewrite count_step by assumption.
    destruct (List.length l mod ngpu =? gid)%nat; reflexivity.
Qed.

Lemma mapM_Raises {A B : Type} (f : A -> outcome B) (e : exn) (l : list A) (x : A) :
  In x l -> f x = Raises e ->
  (forall y, In y l -> (exists z, f y = Returns z) \/ f y = Raises e) ->
  mapM f l = Raises e.
Proof.
  induction l as [|y l IH]; intros Hin Hx Hall; [contradiction|].
  cbn [mapM]. destruct (Hall y (or_introl eq_refl)) as [[z Hz]|Hy].
  - rewrite Hz. cbn [bind]. rewrite IH; [reflexivity | | exact Hx |].
    + destruct Hin as [->|Hin]; [congruence | exact Hin].
    + intros y' Hy'. apply Hall. now right.
  - now rewrite Hy.
Qed.

Lemma list_max_In (l : list nat) (n : nat) : In n l -> (n <= list_max l)%nat.
Proof.
  intros Hin. pose proof (proj1 (list_max_le l (list_max l)) (Nat.le_refl _)) as H.
  rewrite Forall_forall in H. now apply H.
Qed.

Lemma nonempty_or_In_nil {A : Type} (l : list (list A)) :
  Forall (fun s => s <> []) l \/ In [] l.
Proof.
  induction l as [|s l [IH|IH]].
  - left. constructor.
  - destruct s as [|x s]; [right; now left|].
    left. constructor; [discriminate | exact IH].
  - right. now right.
Qed.

Lemma all_empty_or_nonempty {A : Type} (l : list (list A)) :
  Forall (fun s => s = []) l \/ exists s, In s l /\ s <> [].
Proof.
  induction l as [|s l [IH|(s' & Hin & Hne)]].
  - left. constructor.
  - destruct s as [|x s]; [left; now constructor|].
    right. exists (x :: s). split; [now left | discriminate].
  - right. exists s'. split; [now right | exact Hne].
Qed.

Section EqualizeErrors.
Variable Minibatch : Type.

Lemma equalize_all_empty (train_subsets : list (list Minibatch)) :
  train_subsets <> [] -> Forall (fun s => s = []) train_subsets ->
  equalize Minibatch train_subsets = Returns train_subsets.
Proof.
  intros Hne Hall. unfold equalize. destruct train_subsets as [|s0 rest0]; [congruence|].
  cbv beta iota zeta. set (l := s0 :: rest0) in *. clearbody l.
  assert (Hmax : list_max (map (@List.length Minibatch) l) = 0%nat).
  { apply Nat.le_0_r. apply list_max_le. apply Forall_map.
    eapply Forall_impl; [|exact Hall]. intros s ->. cbn. lia. }
  rewrite Hmax. clear Hmax Hne.
  induction Hall as [|s l' -> _ IH]; [reflexivity|].
  cbn [mapM]. change (0 =? List.length (@nil Minibatch))%nat with true.
  cbn [bind]. now rewrite IH.
Qed.

Lemma equalize_empty_beside_nonempty (train_subsets : list (list Minibatch))
      (s : list Minibatch) :
  In [] train_subsets -> In s train_subsets -> s <> [] ->
  equalize Minibatch train_subsets = Raises IndexError.
Proof.
  intros Hnil Hs Hne. unfold equalize.
  destruct train_subsets as [|s0 rest0]; [contradiction|].
  cbv beta iota zeta. set (l := s0 :: rest0) in *. clearbody l.
  set (maxlen := list_max (map (@List.length Minibatch) l)).
  assert (Hmax : (1 <= maxlen)%nat).
  { assert (List.length s <= maxlen)%nat by (apply list_max_In, in_map, Hs).
    destruct s; [congruence | cbn in *; lia]. }
  apply (mapM_Raises _ _ _ [] Hnil).
  - cbn [List.length]. destruct (Nat.eqb_spec maxlen 0) as [|_]; [lia|].
    rewrite Nat.sub_0_r. destruct maxlen; [lia | reflexivity].
  - intros ts Hts. destruct ts as [|b ts].
    + right. cbn [List.length]. destruct (Nat.eqb_spec maxlen 0) as [|_]; [lia|].
      rewrite Nat.sub_0_r. destruct maxlen; [lia | reflexivity].
    + left.
      destruct (equalize_step Minibatch maxlen (b :: ts)) as (out & Hout & _).
      * discriminate.
      * apply list_max_In, in_map, Hts.
      * exists out. exact Hout.
Qed.
End EqualizeErrors.

End BalanceFacts.

Import BalanceFacts.

(** X23. The subsets that [train] makes for the devices are balanced:
    device [gid] gets [ceil((N - gid) / ngpu)] of the [N] utterances, so two
    devices differ by at most one utterance, the earlier device never has
    fewer, and a device gets no utterance at all exactly when
    [N <= gid]. *)
Theorem shards_are_balanced :
  forall (Key Value : Type) (ngpu : nat) (train_json : list (Key * Value)) (gid : nat),
    (gid < ngpu)%nat ->
    let size := fun g => List.length (train_json_subset Key Value ngpu g train_json) in
    size gid = ((List.length train_json + ngpu - 1 - gid) / ngpu)%nat /\
    (size gid = 0%nat <-> (List.length train_json <= gid)%nat) /\
    (forall gid', (gid <= gid' < ngpu)%nat ->
                  (size gid' <= size gid <= size gid' + 1)%nat).
Proof.
  intros Key Value ngpu train_json gid Hg size.
  assert (Hsize : forall g, (g < ngpu)%nat ->
                            size g = ((List.length train_json + ngpu - 1 - g) / ngpu)%nat).
  { intros g Hlt. apply subset_length. exact Hlt. }
  split; [now apply Hsize|]. split.
  - rewrite Hsize by assumption. rewrite Nat.div_small_iff by lia. lia.
  - intros gid' Hg'. rewrite !Hsize by lia.
    set (N := List.length train_json).
    split.
    + apply Nat.Div0.div_le_mono. lia.
    + replace ((N + ngpu - 1 - gid') / ngpu + 1)%nat
        with ((N + ngpu - 1 - gid' + 1 * ngpu) / ngpu)%nat
        by (rewrite Nat.div_add by lia; reflexivity).
      apply Nat.Div0.div_le_mono. lia.
Qed.

Lemma shards_are_balanced_witness :
  List.length (train_json_subset string Z 2 1 shard_json) = ((5 + 2 - 1 - 1) / 2)%nat /\
  (List.length (train_json_subset string Z 2 1 shard_json) = 0%nat <-> (5 <= 1)%nat).
Proof.
  destruct (shards_are_balanced string Z 2 shard_json 1) as (H1 & H2 & _).
  - lia.
  - split; [exact H1 | exact H2].
Defined.

(** X24. Making the batch lists of the devices equally long fails exactly
    when one list is empty beside one that is not: [train_subset[i]] then
    raises [IndexError] for the empty list.  Lists that are all empty are
    returned as they are. *)
Theorem equalize_fails_on_empty_list :
  forall (Minibatch : Type) (train_subsets : list (list Minibatch)),
    train_subsets <> [] ->
    (equalize Minibatch train_subsets = Raises IndexError <->
     In [] train_subsets /\ exists s, In s train_subsets /\ s <> []) /\
    (Forall (fun s => s = []) train_subsets ->
     equalize Minibatch train_subsets = Returns train_subsets).
Proof.
  intros Minibatch train_subsets Hne. split; [split|].
  - intros H.
    destruct (nonempty_or_In_nil train_subsets) as [Hall|Hnil].
    + destruct (equalize_cyclic Minibatch train_subsets Hne Hall) as (out & Hout & _).
      congruence.
    + split; [exact Hnil|].
      destruct (all_empty_or_nonempty train_subsets) as [Hall|Hex]; [|exact Hex].
      rewrite (equalize_all_empty Minibatch train_subsets Hne Hall) in H. discriminate.
  - intros (Hnil & s & Hs & Hsne).
    eapply equalize_empty_beside_nonempty; eassumption.
  - apply equalize_all_empty. exact Hne.
Qed.

Lemma equalize_fails_on_empty_list_witness :
  equalize string [["b1"; "b2"]; []] = Raises IndexError /\
  equalize string [[]; []] = Returns [[]; []].
Proof.
  split.
  - apply (proj1 (equalize_fails_on_empty_list string [["b1"; "b2"]; []]
                    ltac:(discriminate))).
    split; [right; now left|].
    exists ["b1"; "b2"]. split; [now left | discriminate].
  - apply (proj2 (equalize_fails_on_empty_list string [[]; []] ltac:(discriminate))).
    repeat constructor.
Defined.
